(** * smart-fetch: a shallow embedding of the request orchestration core

    The development follows the TypeScript sources:
    - [src/utils/index.ts]    fingerprints ([generateCacheKey]) and URLs ([buildURL]);
    - the cache adapters and the [CacheManager];
    - [src/core/SmartFetch.ts] rate limiting, execution with retry, and the
      request lifecycle with its pending-request table;
    - the offline queue and its drain.

    JavaScript numbers that hold counts and millisecond timestamps are integers
    ([Z]); an optional field is an [option]; a [Map] keyed by strings is a
    [gmap string _]; a thrown value is the [Err] side of [Result]. *)

From Stdlib Require Import ZArith Lia Ascii String List.
From stdpp Require Import base decidable option list strings gmap fin_maps pretty.

Set Warnings "-register-all".

Open Scope string_scope.
Open Scope Z_scope.

(** ** Data model ([src/types/index.ts], [src/errors/index.ts]) *)

Module Types.

Inductive HttpMethod := GET | POST | PUT | DELETE | PATCH | HEAD | OPTIONS.

Inductive CacheStrategy := memory | localStorage | indexedDB | none.

#[global] Instance HttpMethod_eq_dec : EqDecision HttpMethod.
Proof. solve_decision. Defined.

#[global] Instance CacheStrategy_eq_dec : EqDecision CacheStrategy.
Proof. solve_decision. Defined.

(** Values that travel as bodies, query parameters and payloads. *)
Inductive JsValue :=
| JNull
| JBool (b : bool)
| JNum (n : Z)
| JStr (s : string)
| JArr (items : list JsValue)
| JObj (fields : list (string * JsValue)).

(** A fallible computation: [Err] is a [throw] (or a rejected promise). *)
Inductive Result (E A : Type) :=
| Ok (a : A)
| Err (e : E).
Arguments Ok {E A} a.
Arguments Err {E A} e.

(** A field typed [T | boolean] that may also be left out. *)
Inductive OrBool (A : Type) :=
| Unset
| Flag (b : bool)
| Obj (a : A).
Arguments Unset {A}.
Arguments Flag {A} b.
Arguments Obj {A} a.

Record CacheConfig := {
  cc_strategy : CacheStrategy;
  cc_ttl : option Z;
  cc_key : option string;
  cc_invalidateOn : option (list string)
}.

(** The classes of [src/errors/index.ts]; [PlainError] is a built-in [Error]
    (what the transport rejects with), [NonError] a thrown value that is not
    an [Error] at all. *)
Inductive ErrClass :=
| NonError
| PlainError
| CSmartFetchError
| CNetworkError
| CTimeoutError
| CAbortError
| CValidationError
| CRateLimitError
| CCacheError
| CGraphQLError.

#[global] Instance ErrClass_eq_dec : EqDecision ErrClass.
Proof. solve_decision. Defined.

(** What a retry predicate can observe of a thrown value: its class, [name],
    [message], [code] and the value of [error?.response?.status]. *)
Record ErrorView := {
  ev_class : ErrClass;
  ev_name : string;
  ev_message : string;
  ev_code : option string;
  ev_status : option Z
}.

Record RetryConfig := {
  maxRetries : Z;
  delay : Z;
  maxDelay : option Z;
  backoff : option Z;
  retryOn : option (list Z);
  retryCondition : option (ErrorView -> bool)
}.

Record RateLimitConfig := {
  maxRequests : Z;
  perMilliseconds : Z;
  queueRequests : option bool
}.

Record RequestConfig := {
  url : string;
  method : option HttpMethod;
  headers : option (gmap string string);
  body : option JsValue;
  params : option (list (string * option JsValue));
  timeout : option Z;
  cache : OrBool CacheConfig;
  retry : OrBool RetryConfig;
  rateLimit : option RateLimitConfig;
  transformRequest : option (JsValue -> Result ErrorView JsValue);
  transformResponse : option (JsValue -> Result ErrorView JsValue);
  validateResponse : option (JsValue -> Result ErrorView JsValue);
  offlineQueueable : option bool;
  deduplicate : option bool
}.

Record SmartFetchResponse := {
  data : JsValue;
  status : Z;
  statusText : string;
  resp_headers : list (string * string);
  config : RequestConfig;
  cached : option bool;
  retryCount : option Z
}.

Record CacheEntry := {
  ce_data : JsValue;
  ce_timestamp : Z;
  ce_ttl : option Z;
  ce_key : string
}.

Record OfflineQueueEntry := {
  oq_id : string;
  oq_config : RequestConfig;
  oq_timestamp : Z;
  oq_retryCount : Z
}.

(** A caught value. Library errors are built by the constructors below; a
    value thrown by the platform is lifted with [thrown]. *)
Record JsError := {
  e_view : ErrorView;
  e_config : option RequestConfig;
  e_response : option SmartFetchResponse;
  e_retryAfter : option Z
}.

Definition thrown (v : ErrorView) : JsError :=
  {| e_view := v; e_config := None; e_response := None; e_retryAfter := None |}.

Definition mkError (c : ErrClass) (name message : string) (cfg : RequestConfig)
    (code : option string) : JsError :=
  {| e_view := {| ev_class := c; ev_name := name; ev_message := message;
                  ev_code := code; ev_status := None |};
     e_config := Some cfg; e_response := None; e_retryAfter := None |}.

Definition SmartFetchError (message : string) (cfg : RequestConfig) (code : option string) : JsError :=
  mkError CSmartFetchError "SmartFetchError" message cfg code.

Definition NetworkError (message : string) (cfg : RequestConfig) : JsError :=
  mkError CNetworkError "NetworkError" message cfg (Some "NETWORK_ERROR").

Definition TimeoutError (message : string) (cfg : RequestConfig) : JsError :=
  mkError CTimeoutError "TimeoutError" message cfg (Some "TIMEOUT_ERROR").

Definition AbortError (message : string) (cfg : RequestConfig) : JsError :=
  mkError CAbortError "AbortError" message cfg (Some "ABORT_ERROR").

Definition ValidationError (message : string) (cfg : RequestConfig) : JsError :=
  mkError CValidationError "ValidationError" message cfg (Some "VALIDATION_ERROR").

Definition RateLimitError (message : string) (cfg : RequestConfig) (retryAfter : Z) : JsError :=
  {| e_view := {| ev_class := CRateLimitError; ev_name := "RateLimitError";
                  ev_message := message; ev_code := Some "RATE_LIMIT_ERROR";
                  ev_status := None |};
     e_config := Some cfg; e_response := None; e_retryAfter := Some retryAfter |}.

(** [x instanceof C], along the [extends] chain of the error classes. *)
Definition instanceof_Error (e : JsError) : bool :=
  match ev_class (e_view e) with NonError => false | _ => true end.

Definition instanceof_SmartFetchError (e : JsError) : bool :=
  match ev_class (e_view e) with
  | NonError | PlainError => false
  | _ => true
  end.

Definition instanceof_NetworkError (e : JsError) : bool :=
  bool_decide (ev_class (e_view e) = CNetworkError).

Definition instanceof_TimeoutError (e : JsError) : bool :=
  bool_decide (ev_class (e_view e) = CTimeoutError).

(** JavaScript truthiness, as the guards [if (x)], [!x], [x || y] use it. *)
Definition truthy (v : JsValue) : bool :=
  match v with
  | JNull => false
  | JBool b => b
  | JNum n => negb (n =? 0)
  | JStr s => negb (String.eqb s "")
  | JArr _ | JObj _ => true
  end.

Definition truthy_opt (v : option JsValue) : bool :=
  match v with Some x => truthy x | None => false end.

Definition truthy_num (n : option Z) : bool :=
  match n with Some x => negb (x =? 0) | None => false end.

Definition truthy_str (s : option string) : bool :=
  match s with Some x => negb (String.eqb x "") | None => false end.

Definition truthy_orbool {A} (x : OrBool A) : bool :=
  match x with Unset => false | Flag b => b | Obj _ => true end.

(** [flag !== false] for an optional boolean field. *)
Definition not_false (b : option bool) : bool :=
  match b with Some false => false | _ => true end.

End Types.
Export Types.

(** ** Platform functions used by the sources: [JSON.stringify], [String(v)],
    [URLSearchParams.prototype.toString], [String.prototype.includes] *)

Module Js.

Definition dquote : ascii := ascii_of_N 34.
Definition backslash : ascii := ascii_of_N 92.

Definition hex_digit (n : N) : ascii :=
  if (n <? 10)%N then ascii_of_N (48 + n) else ascii_of_N (87 + n).

Definition HEX_digit (n : N) : ascii :=
  if (n <? 10)%N then ascii_of_N (48 + n) else ascii_of_N (55 + n).

Definition str1 (c : ascii) : string := String c EmptyString.

(** One character of a quoted JSON string. *)
Definition json_escape (c : ascii) : string :=
  let n := N_of_ascii c in
  if (n =? 34)%N then String backslash (str1 dquote)
  else if (n =? 92)%N then String backslash (str1 backslash)
  else if (n =? 8)%N then String backslash "b"
  else if (n =? 9)%N then String backslash "t"
  else if (n =? 10)%N then String backslash "n"
  else if (n =? 12)%N then String backslash "f"
  else if (n =? 13)%N then String backslash "r"
  else if (n <? 32)%N then
    String backslash ("u00" +:+ String (hex_digit (n / 16)) (str1 (hex_digit (n mod 16))))
  else str1 c.

Fixpoint json_escape_all (s : string) : string :=
  match s with
  | EmptyString => EmptyString
  | String c rest => json_escape c +:+ json_escape_all rest
  end.

Definition json_quote (s : string) : string :=
  String dquote (json_escape_all s +:+ str1 dquote).

Fixpoint JSON_stringify (v : JsValue) : string :=
  match v with
  | JNull => "null"
  | JBool true => "true"
  | JBool false => "false"
  | JNum n => pretty n
  | JStr s => json_quote s
  | JArr items => "[" +:+ String.concat "," (map JSON_stringify items) +:+ "]"
  | JObj fields =>
      "{" +:+ String.concat ","
                (map (fun kv => json_quote (fst kv) +:+ ":" +:+ JSON_stringify (snd kv)) fields)
          +:+ "}"
  end.

(** An object whose properties may hold [undefined]: those are left out. *)
Definition defined_fields (r : list (string * option JsValue)) : list (string * JsValue) :=
  omap (fun kv => match snd kv with Some v => Some (fst kv, v) | None => None end) r.

Definition JSON_stringify_record (r : list (string * option JsValue)) : string :=
  JSON_stringify (JObj (defined_fields r)).

(** [String(v)]. *)
Fixpoint String_of (v : JsValue) : string :=
  match v with
  | JNull => "null"
  | JBool true => "true"
  | JBool false => "false"
  | JNum n => pretty n
  | JStr s => s
  | JArr items =>
      String.concat ","
        (map (fun x => match x with JNull => EmptyString | _ => String_of x end) items)
  | JObj _ => "[object Object]"
  end.

(** [haystack.includes(needle)]. *)
Fixpoint includes (haystack needle : string) : bool :=
  String.prefix needle haystack
  || match haystack with
     | EmptyString => false
     | String _ rest => includes rest needle
     end.

(** The application/x-www-form-urlencoded byte serializer. *)
Definition is_alnum (n : N) : bool :=
  ((48 <=? n) && (n <=? 57) || (65 <=? n) && (n <=? 90) || (97 <=? n) && (n <=? 122))%N.

Definition form_encode_byte (c : ascii) : string :=
  let n := N_of_ascii c in
  if is_alnum n || (n =? 42)%N || (n =? 45)%N || (n =? 46)%N || (n =? 95)%N then str1 c
  else if (n =? 32)%N then "+"
  else String "%" (String (HEX_digit (n / 16)) (str1 (HEX_digit (n mod 16)))).

Fixpoint form_encode (s : string) : string :=
  match s with
  | EmptyString => EmptyString
  | String c rest => form_encode_byte c +:+ form_encode rest
  end.

Definition URLSearchParams_toString (pairs : list (string * string)) : string :=
  String.concat "&" (map (fun kv => form_encode (fst kv) +:+ "=" +:+ form_encode (snd kv)) pairs).

Definition method_name (m : HttpMethod) : string :=
  match m with
  | GET => "GET" | POST => "POST" | PUT => "PUT" | DELETE => "DELETE"
  | PATCH => "PATCH" | HEAD => "HEAD" | OPTIONS => "OPTIONS"
  end.

End Js.

(** ** [src/utils/index.ts] *)

Module Utils.
Import Js.

Definition is_alpha (n : N) : bool :=
  ((65 <=? n) && (n <=? 90) || (97 <=? n) && (n <=? 122))%N.

Definition is_scheme_char (n : N) : bool :=
  is_alnum n || (n =? 43)%N || (n =? 45)%N || (n =? 46)%N.

Fixpoint drop_scheme_chars (s : string) : string :=
  match s with
  | String c rest => if is_scheme_char (N_of_ascii c) then drop_scheme_chars rest else s
  | EmptyString => s
  end.

(** [/^([a-z][a-z\d+\-.]*:)?\/\//i.test(url)] *)
Definition isAbsoluteURL (url : string) : bool :=
  String.prefix "//" url
  || match url with
     | String c rest =>
         is_alpha (N_of_ascii c)
         && match drop_scheme_chars rest with
            | String c' rest' => (N_of_ascii c' =? 58)%N && String.prefix "//" rest'
            | EmptyString => false
            end
     | EmptyString => false
     end.

Fixpoint drop_leading_slashes (s : string) : string :=
  match s with
  | String c rest => if (N_of_ascii c =? 47)%N then drop_leading_slashes rest else s
  | EmptyString => s
  end.

Fixpoint drop_trailing_slashes (s : string) : string :=
  match s with
  | EmptyString => EmptyString
  | String c rest =>
      match drop_trailing_slashes rest with
      | EmptyString => if (N_of_ascii c =? 47)%N then EmptyString else str1 c
      | kept => String c kept
      end
  end.

Definition combineURLs (baseURL relativeURL : string) : string :=
  if String.eqb relativeURL "" then baseURL
  else drop_trailing_slashes baseURL +:+ "/" +:+ drop_leading_slashes relativeURL.

Definition buildURL (baseURL : option string) (url : string)
    (params : option (list (string * option JsValue))) : string :=
  let fullURL :=
    if truthy_str baseURL && negb (isAbsoluteURL url)
    then combineURLs (default "" baseURL) url
    else url in
  match params with
  | None => fullURL
  | Some ps =>
      let queryString :=
        URLSearchParams_toString
          (omap (fun kv =>
                   match snd kv with
                   | Some JNull | None => None
                   | Some v => Some (fst kv, String_of v)
                   end) ps) in
      if String.eqb queryString "" then fullURL
      else fullURL +:+ (if includes fullURL "?" then "&" else "?") +:+ queryString
  end.

Definition generateCacheKey (config : RequestConfig) : string :=
  let m := default GET (method config) in
  let parts := [method_name m; url config] in
  let parts :=
    match params config with
    | Some ps => (parts ++ [JSON_stringify_record ps])%list
    | None => parts
    end in
  let parts :=
    if truthy_opt (body config) && negb (bool_decide (m = GET))
    then (parts ++ [JSON_stringify (default JNull (body config))])%list
    else parts in
  String.concat "|" parts.

End Utils.

(** ** The cache adapters and the [CacheManager]

    Every read takes the value of [Date.now()] as [now].  [localStorage] is a
    map from keys to strings without a quota; [JSON.parse] on a stored item is
    the class method [JSON_parse_entry] ([None] when it throws). *)

Module Cache.
Import Js.

Class JsonParse := JSON_parse_entry : string -> option CacheEntry.

Definition entry_to_json (e : CacheEntry) : JsValue :=
  JObj ([("data", ce_data e); ("timestamp", JNum (ce_timestamp e))]
        ++ match ce_ttl e with Some t => [("ttl", JNum t)] | None => [] end
        ++ [("key", JStr (ce_key e))])%list.

(** [isExpired], the same private method in the three adapters. *)
Definition isExpired (now : Z) (entry : CacheEntry) : bool :=
  if negb (truthy_num (ce_ttl entry)) then false
  else default 0 (ce_ttl entry) <? now - ce_timestamp entry.

(** The interface [CacheAdapter]: each operation returns its result and the
    backend it leaves behind. *)
Class CacheAdapter (S : Type) := {
  adapter_get : Z -> string -> S -> option CacheEntry * S;
  adapter_set : string -> CacheEntry -> S -> S;
  adapter_delete : string -> S -> S;
  adapter_clear : S -> S;
  adapter_has : string -> S -> bool
}.

Module MemoryCacheAdapter.
Definition t := gmap string CacheEntry.

Definition delete (key : string) (cache : gmap string CacheEntry) : gmap string CacheEntry :=
    base.delete key cache.

Definition get (now : Z) (key : string) (cache : gmap string CacheEntry)
      : option CacheEntry * gmap string CacheEntry :=
    match cache !! key with
    | None => (None, cache)
    | Some entry =>
        if isExpired now entry then (None, delete key cache)
        else (Some entry, cache)
    end.

Definition set (key : string) (value : CacheEntry) (cache : gmap string CacheEntry)
      : gmap string CacheEntry :=
    <[key := value]> cache.

Definition clear (cache : gmap string CacheEntry) : gmap string CacheEntry := ∅.

Definition has (key : string) (cache : gmap string CacheEntry) : bool :=
    bool_decide (is_Some (cache !! key)).
End MemoryCacheAdapter.

Module LocalStorageCacheAdapter.
Definition prefix : string := "smart-fetch-cache:".

Definition delete (key : string) (ls : gmap string string) : gmap string string :=
    base.delete (prefix +:+ key) ls.

Definition get `{JsonParse} (now : Z) (key : string) (ls : gmap string string)
      : option CacheEntry * gmap string string :=
    match ls !! (prefix +:+ key) with
    | None => (None, ls)
    | Some item =>
        if String.eqb item "" then (None, ls)
        else match JSON_parse_entry item with
             | None => (None, ls)
             | Some entry =>
                 if isExpired now entry then (None, delete key ls)
                 else (Some entry, ls)
             end
    end.

Definition set (key : string) (value : CacheEntry) (ls : gmap string string)
      : gmap string string :=
    <[prefix +:+ key := JSON_stringify (entry_to_json value)]> ls.

Definition clear (ls : gmap string string) : gmap string string :=
    filter (fun kv => negb (String.prefix prefix (fst kv)) = true) ls.

Definition has (key : string) (ls : gmap string string) : bool :=
    bool_decide (is_Some (ls !! (prefix +:+ key))).
End LocalStorageCacheAdapter.

Module IndexedDBCacheAdapter.
  (** The object store [cache] (key path [key]); [idb_open = false] when
      [openDB] rejects, which every operation swallows. *)
Record t := { idb_open : bool; idb_store : gmap string CacheEntry }.

Definition delete (key : string) (db : t) : t :=
    if idb_open db then {| idb_open := true; idb_store := base.delete key (idb_store db) |}
    else db.

Definition get (now : Z) (key : string) (db : t) : option CacheEntry * t :=
    if idb_open db then
      match idb_store db !! key with
      | None => (None, db)
      | Some entry =>
          if isExpired now entry then (None, delete key db)
          else (Some entry, db)
      end
    else (None, db).

Definition set (key : string) (value : CacheEntry) (db : t) : t :=
    if idb_open db
    then {| idb_open := true; idb_store := <[ce_key value := value]> (idb_store db) |}
    else db.

Definition clear (db : t) : t :=
    if idb_open db then {| idb_open := true; idb_store := ∅ |} else db.

Definition has (key : string) (db : t) : bool :=
    idb_open db && bool_decide (is_Some (idb_store db !! key)).
End IndexedDBCacheAdapter.

#[global] Instance memory_adapter : CacheAdapter (gmap string CacheEntry) := {|
  adapter_get := MemoryCacheAdapter.get;
  adapter_set := MemoryCacheAdapter.set;
  adapter_delete := MemoryCacheAdapter.delete;
  adapter_clear := MemoryCacheAdapter.clear;
  adapter_has := MemoryCacheAdapter.has
|}.

#[global] Instance localStorage_adapter `{JsonParse} : CacheAdapter (gmap string string) := {|
  adapter_get := LocalStorageCacheAdapter.get;
  adapter_set := LocalStorageCacheAdapter.set;
  adapter_delete := LocalStorageCacheAdapter.delete;
  adapter_clear := LocalStorageCacheAdapter.clear;
  adapter_has := LocalStorageCacheAdapter.has
|}.

#[global] Instance indexedDB_adapter : CacheAdapter IndexedDBCacheAdapter.t := {|
  adapter_get := IndexedDBCacheAdapter.get;
  adapter_set := IndexedDBCacheAdapter.set;
  adapter_delete := IndexedDBCacheAdapter.delete;
  adapter_clear := IndexedDBCacheAdapter.clear;
  adapter_has := IndexedDBCacheAdapter.has
|}.

(** [CacheManager]: one adapter per strategy; [none] has no adapter. *)
Record CacheManager := {
  cm_memory : gmap string CacheEntry;
  cm_localStorage : gmap string string;
  cm_indexedDB : IndexedDBCacheAdapter.t
}.

Definition CacheManager_new (ls : gmap string string) (db : IndexedDBCacheAdapter.t) : CacheManager :=
  {| cm_memory := ∅; cm_localStorage := ls; cm_indexedDB := db |}.

Definition CacheManager_get `{JsonParse} (now : Z) (strategy : CacheStrategy) (key : string)
    (cm : CacheManager) : option CacheEntry * CacheManager :=
  match strategy with
  | none => (None, cm)
  | memory =>
      let '(r, m) := adapter_get now key (cm_memory cm) in
      (r, {| cm_memory := m; cm_localStorage := cm_localStorage cm; cm_indexedDB := cm_indexedDB cm |})
  | localStorage =>
      let '(r, l) := adapter_get now key (cm_localStorage cm) in
      (r, {| cm_memory := cm_memory cm; cm_localStorage := l; cm_indexedDB := cm_indexedDB cm |})
  | indexedDB =>
      let '(r, d) := adapter_get now key (cm_indexedDB cm) in
      (r, {| cm_memory := cm_memory cm; cm_localStorage := cm_localStorage cm; cm_indexedDB := d |})
  end.

Definition CacheManager_set (strategy : CacheStrategy) (key : string) (value : CacheEntry)
    (cm : CacheManager) : CacheManager :=
  match strategy with
  | none => cm
  | memory =>
      {| cm_memory := MemoryCacheAdapter.set key value (cm_memory cm);
         cm_localStorage := cm_localStorage cm; cm_indexedDB := cm_indexedDB cm |}
  | localStorage =>
      {| cm_memory := cm_memory cm;
         cm_localStorage := LocalStorageCacheAdapter.set key value (cm_localStorage cm);
         cm_indexedDB := cm_indexedDB cm |}
  | indexedDB =>
      {| cm_memory := cm_memory cm; cm_localStorage := cm_localStorage cm;
         cm_indexedDB := IndexedDBCacheAdapter.set key value (cm_indexedDB cm) |}
  end.

Definition CacheManager_clear (strategy : CacheStrategy) (cm : CacheManager) : CacheManager :=
  match strategy with
  | none => cm
  | memory =>
      {| cm_memory := MemoryCacheAdapter.clear (cm_memory cm);
         cm_localStorage := cm_localStorage cm; cm_indexedDB := cm_indexedDB cm |}
  | localStorage =>
      {| cm_memory := cm_memory cm;
         cm_localStorage := LocalStorageCacheAdapter.clear (cm_localStorage cm);
         cm_indexedDB := cm_indexedDB cm |}
  | indexedDB =>
      {| cm_memory := cm_memory cm; cm_localStorage := cm_localStorage cm;
         cm_indexedDB := IndexedDBCacheAdapter.clear (cm_indexedDB cm) |}
  end.

End Cache.

(** ** [src/core/SmartFetch.ts]: client configuration and request merging *)

Module Client.
Import Js Utils Cache.

(** [SmartFetchConfig] after the constructor has filled in its defaults. The
    hook chains (interceptors, middleware) and the mock registry are those of
    a client built without any, as in the test-suite. *)
Record SmartFetchConfig := {
  baseURL : option string;
  client_headers : option (gmap string string);
  client_timeout : option Z;
  client_cache : OrBool CacheConfig;
  client_retry : OrBool RetryConfig;
  client_rateLimit : option RateLimitConfig;
  offlineQueueEnabled : bool;
  validateStatus : option (Z -> bool)
}.

Definition default_validateStatus (status : Z) : bool :=
  (200 <=? status) && (status <? 300).

(** [new SmartFetch()] *)
Definition default_client : SmartFetchConfig :=
  {| baseURL := None; client_headers := None; client_timeout := Some 30000;
     client_cache := Flag false; client_retry := Flag false; client_rateLimit := None;
     offlineQueueEnabled := true;
     validateStatus := Some default_validateStatus |}.

Definition or_else {A} (x : OrBool A) (y : OrBool A) : OrBool A :=
  match x with Unset => y | _ => x end.

Definition opt_or {A} (x y : option A) : option A :=
  match x with Some _ => x | None => y end.

(** [mergeRequestConfig]: the defaults, overridden by every field the request
    sets; the deep merge of an object with itself keeps it.  An optional field
    that is [None] is a key the request does not hold.  A key the request
    holds with the value [undefined] cannot be written in this record; for
    such requests see [Merge.mergeRequestConfig], on objects. *)
Definition mergeRequestConfig (client : SmartFetchConfig) (config : RequestConfig) : RequestConfig :=
  {| url := url config;
     method := Some (default GET (method config));
     headers := headers config;
     body := body config;
     params := params config;
     timeout := opt_or (timeout config) (client_timeout client);
     cache := or_else (cache config) (client_cache client);
     retry := or_else (retry config) (client_retry client);
     rateLimit := opt_or (rateLimit config) (client_rateLimit client);
     transformRequest := transformRequest config;
     transformResponse := transformResponse config;
     validateResponse := validateResponse config;
     offlineQueueable := Some (default true (offlineQueueable config));
     deduplicate := Some (default true (deduplicate config)) |}.

(** *** Rate limiting *)

Record Bucket := { tokens : Z; lastRefill : Z }.

Inductive RateDecision :=
| RatePass
| RateSleep (rl : RateLimitConfig) (waitTime : Z)
| RateReject (e : JsError).

(** [checkRateLimit] up to its suspension point. [now0] is the clock read that
    stamps a bucket created on the spot, [now] the read that follows it. *)
Definition checkRateLimit (client : SmartFetchConfig) (config : RequestConfig)
    (now0 now : Z) (rateLimiters : gmap string Bucket)
    : RateDecision * gmap string Bucket :=
  match opt_or (rateLimit config) (client_rateLimit client) with
  | None => (RatePass, rateLimiters)
  | Some rateLimitConfig =>
      let key := url config in
      let limiter :=
        match rateLimiters !! key with
        | Some l => l
        | None => {| tokens := maxRequests rateLimitConfig; lastRefill := now0 |}
        end in
      let timePassed := now - lastRefill limiter in
      let refills := timePassed / perMilliseconds rateLimitConfig in
      let limiter :=
        if 0 <? refills
        then {| tokens := Z.min (maxRequests rateLimitConfig)
                            (tokens limiter + refills * maxRequests rateLimitConfig);
                lastRefill := now |}
        else limiter in
      if tokens limiter <? 1 then
        let waitTime := perMilliseconds rateLimitConfig - (now - lastRefill limiter) in
        if default false (queueRequests rateLimitConfig)
        then (RateSleep rateLimitConfig waitTime, <[key := limiter]> rateLimiters)
        else (RateReject (RateLimitError "Rate limit exceeded" config waitTime),
              <[key := limiter]> rateLimiters)
      else
        (RatePass,
         <[key := {| tokens := tokens limiter - 1; lastRefill := lastRefill limiter |}]>
           rateLimiters)
  end.

(** The rest of [checkRateLimit] once [sleep(waitTime)] is over, at clock
    read [woke]: the bucket is reset, stamped, and one token is taken. *)
Definition checkRateLimit_resume (config : RequestConfig) (rl : RateLimitConfig)
    (woke : Z) (rateLimiters : gmap string Bucket) : gmap string Bucket :=
  <[url config := {| tokens := maxRequests rl - 1; lastRefill := woke |}]> rateLimiters.

(** A run of checks, one per pair of clock reads, none of them suspended. *)
Fixpoint checks (client : SmartFetchConfig) (config : RequestConfig)
    (times : list (Z * Z)) (rateLimiters : gmap string Bucket)
    : list RateDecision * gmap string Bucket :=
  match times with
  | [] => ([], rateLimiters)
  | (now0, now) :: rest =>
      let '(d, limiters1) := checkRateLimit client config now0 now rateLimiters in
      let '(ds, limiters2) := checks client config rest limiters1 in
      (d :: ds, limiters2)
  end.

(** *** Retry policy *)

Definition getRetryConfig (client : SmartFetchConfig) (config : RequestConfig)
    : option RetryConfig :=
  if negb (truthy_orbool (retry config)) && negb (truthy_orbool (client_retry client))
  then None
  else
    let retry := if truthy_orbool (retry config) then retry config else client_retry client in
    match retry with
    | Flag b =>
        if b then Some {| maxRetries := 3; delay := 1000; maxDelay := None;
                          backoff := Some 2; retryOn := None; retryCondition := None |}
        else None
    | Obj r => Some r
    | Unset => None
    end.

Definition view_of (error : JsError) : ErrorView :=
  match e_response error with
  | Some r =>
      {| ev_class := ev_class (e_view error); ev_name := ev_name (e_view error);
         ev_message := ev_message (e_view error); ev_code := ev_code (e_view error);
         ev_status := Some (status r) |}
  | None => e_view error
  end.

(** [shouldRetry].  A custom [retryCondition] is the function it computes:
    it is taken to return; a predicate that throws is not covered. *)
Definition shouldRetry (error : JsError) (retryCount : Z) (config : RetryConfig) : bool :=
  if maxRetries config <=? retryCount then false
  else
    match retryCondition config with
    | Some cond => cond (view_of error)
    | None =>
        match retryOn config with
        | Some codes =>
            if truthy_num (ev_status (view_of error))
            then bool_decide (default 0 (ev_status (view_of error)) ∈ codes)
            else false
        | None =>
            if instanceof_NetworkError error || instanceof_TimeoutError error then true
            else match ev_status (view_of error) with
                 | Some s => 500 <=? s
                 | None => false
                 end
        end
    end.

(** [calculateRetryDelay], on integers.  The code computes on doubles; the
    two agree for an integer delay and multiplier as long as the power and the
    product stay below [2 ^ 53]. *)
Definition calculateRetryDelay (retryCount : Z) (config : RetryConfig) : Z :=
  let backoff := if truthy_num (backoff config) then default 2 (backoff config) else 2 in
  let delay := delay config * backoff ^ retryCount in
  if truthy_num (maxDelay config) then Z.min delay (default 0 (maxDelay config)) else delay.

End Client.

(** ** [SmartFetch.executeRequest]: one exchange, and the retry loop around it

    Cancellation (the caller's signal, or the timeout of
    [createAbortController]) reaches the code as a transport rejection whose
    [name] is [AbortError]; the transport is a script giving the outcome of
    its n-th invocation. *)

Module Exec.
Import Js Utils Cache Client.

Record FetchOptions := {
  fo_method : HttpMethod;
  fo_headers : gmap string string;
  fo_body : option string
}.

(** What [fetch] resolves with: status line, headers, and what each body
    reader would produce. *)
Record RawResponse := {
  rr_status : Z;
  rr_statusText : string;
  rr_headers : list (string * string);
  rr_contentType : option string;
  rr_json : Result ErrorView JsValue;
  rr_text : Result ErrorView JsValue;
  rr_blob : Result ErrorView JsValue
}.

Inductive Outcome :=
| Resolves (response : RawResponse)
| Rejects (error : ErrorView).

Definition typeof_object (v : JsValue) : bool :=
  match v with JNull | JArr _ | JObj _ => true | _ => false end.

Definition buildHeaders (client : SmartFetchConfig) (config : RequestConfig)
    : gmap string string :=
  let headers : gmap string string :=
    default ∅ (headers config) ∪ default ∅ (client_headers client) in
  if truthy_opt (body config) && typeof_object (default JNull (body config))
     && negb (truthy_str (headers !! "Content-Type"))
  then <["Content-Type" := "application/json"]> headers
  else headers.

(** The [try] block up to the call of [fetch]: the target and the options. *)
Definition prepare (client : SmartFetchConfig) (config : RequestConfig)
    : Result JsError (string * FetchOptions) :=
  let target := buildURL (baseURL client) (url config) (params config) in
  let transformed :=
    match transformRequest config with
    | Some f =>
        if truthy_opt (body config)
        then match f (default JNull (body config)) with
             | Ok b => Ok (Some b)
             | Err e => Err (thrown e)
             end
        else Ok (body config)
    | None => Ok (body config)
    end in
  match transformed with
  | Err e => Err e
  | Ok b =>
      Ok (target,
          {| fo_method := default GET (method config);
             fo_headers := buildHeaders client config;
             fo_body :=
               if truthy_opt b
               then Some match default JNull b with
                         | JStr s => s
                         | v => JSON_stringify v
                         end
               else None |})
  end.

Definition parseResponse (response : RawResponse) : Result ErrorView JsValue :=
  let contentType := default "" (rr_contentType response) in
  if includes contentType "application/json" then rr_json response
  else if includes contentType "text/" then rr_text response
  else if includes contentType "application/octet-stream" || includes contentType "image/"
  then rr_blob response
  else rr_text response.

Definition cacheConfig_of (config : RequestConfig) : CacheConfig :=
  match cache config with
  | Obj c => c
  | _ => {| cc_strategy := memory; cc_ttl := None; cc_key := None; cc_invalidateOn := None |}
  end.

Definition effective_key (c : CacheConfig) (cacheKey : string) : string :=
  if truthy_str (cc_key c) then default "" (cc_key c) else cacheKey.

Definition cacheResponse (config : RequestConfig) (cacheKey : string)
    (response : SmartFetchResponse) (now : Z) (cm : CacheManager) : CacheManager :=
  if negb (truthy_orbool (cache config)) then cm
  else
    let cacheConfig := cacheConfig_of config in
    CacheManager_set (cc_strategy cacheConfig) (effective_key cacheConfig cacheKey)
      {| ce_data := data response; ce_timestamp := now;
         ce_ttl := cc_ttl cacheConfig;
         ce_key := effective_key cacheConfig cacheKey |} cm.

(** What a payload that fails [validateResponse.parse] is rethrown as. *)
Definition validation_failure (config : RequestConfig) : JsError :=
  ValidationError "Response validation failed" config.

(** The [try] block from the settlement of [fetch] on. *)
Definition complete (client : SmartFetchConfig) (config : RequestConfig)
    (cacheKey : string) (retryCount : Z) (o : Outcome) (now : Z) (cm : CacheManager)
    : Result JsError SmartFetchResponse * CacheManager :=
  match o with
  | Rejects e => (Err (thrown e), cm)
  | Resolves response =>
      let validate := default default_validateStatus (validateStatus client) in
      if negb (validate (rr_status response)) then
        (Err (SmartFetchError ("Request failed with status " +:+ pretty (rr_status response))
                config (Some ("HTTP_" +:+ pretty (rr_status response)))), cm)
      else
        match parseResponse response with
        | Err e => (Err (thrown e), cm)
        | Ok parsed =>
            let transformed :=
              match transformResponse config with
              | Some f => f parsed
              | None => Ok parsed
              end in
            match transformed with
            | Err e => (Err (thrown e), cm)
            | Ok d1 =>
                let validated :=
                  match validateResponse config with
                  | Some parse =>
                      match parse d1 with
                      | Ok d2 => Ok d2
                      | Err _ => Err (validation_failure config)
                      end
                  | None => Ok d1
                  end in
                match validated with
                | Err e => (Err e, cm)
                | Ok d2 =>
                    let smartResponse :=
                      {| data := d2; status := rr_status response;
                         statusText := rr_statusText response;
                         resp_headers := rr_headers response;
                         config := config; cached := None;
                         retryCount := Some retryCount |} in
                    (Ok smartResponse, cacheResponse config cacheKey smartResponse now cm)
                end
            end
        end
  end.

(** The [catch] block: rethrow, or sleep and attempt again. *)
Inductive CatchAction :=
| Rethrow (e : JsError)
| RetryAfter (delay : Z).

(** The tail of the [catch] block: what is finally thrown. *)
Definition wrap_failure (config : RequestConfig) (error : JsError) : JsError :=
  if negb (instanceof_SmartFetchError error)
  then NetworkError (if instanceof_Error error
                     then ev_message (e_view error)
                     else "Network request failed") config
  else error.

Definition on_catch (client : SmartFetchConfig) (config : RequestConfig)
    (retryCount : Z) (error : JsError) : CatchAction :=
  if instanceof_Error error && String.eqb (ev_name (e_view error)) "AbortError"
  then Rethrow (AbortError "Request aborted" config)
  else if instanceof_Error error && includes (ev_message (e_view error)) "timeout"
  then Rethrow (TimeoutError "Request timeout" config)
  else
    match getRetryConfig client config with
    | Some retryConfig =>
        if shouldRetry error retryCount retryConfig
        then RetryAfter (calculateRetryDelay retryCount retryConfig)
        else Rethrow (wrap_failure config error)
    | None => Rethrow (wrap_failure config error)
    end.

(** The world one request runs in: the clock, the caches, the transport
    invocations made so far (oldest first) and the delays slept. *)
Record World := {
  w_now : Z;
  w_caches : CacheManager;
  w_fetched : list (string * FetchOptions);
  w_slept : list Z
}.

Definition sleep (ms : Z) (w : World) : World :=
  {| w_now := w_now w + Z.max 0 ms; w_caches := w_caches w;
     w_fetched := w_fetched w; w_slept := (w_slept w ++ [ms])%list |}.

(** One pass through the [try] block. *)
Definition attempt (client : SmartFetchConfig) (transport : nat -> Outcome)
    (config : RequestConfig) (cacheKey : string) (retryCount : Z) (w : World)
    : Result JsError SmartFetchResponse * World :=
  match prepare client config with
  | Err e => (Err e, w)
  | Ok call =>
      let o := transport (length (w_fetched w)) in
      let '(r, cm) := complete client config cacheKey retryCount o (w_now w) (w_caches w) in
      (r, {| w_now := w_now w; w_caches := cm;
             w_fetched := (w_fetched w ++ [call])%list; w_slept := w_slept w |})
  end.

(** [executeRequest]; [fuel] bounds the number of re-attempts ([None] when it
    runs out before the request settles). *)
Fixpoint executeRequest (fuel : nat) (client : SmartFetchConfig) (transport : nat -> Outcome)
    (config : RequestConfig) (cacheKey : string) (retryCount : Z) (w : World)
    : option (Result JsError SmartFetchResponse * World) :=
  match attempt client transport config cacheKey retryCount w with
  | (Ok response, w1) => Some (Ok response, w1)
  | (Err error, w1) =>
      match on_catch client config retryCount error with
      | Rethrow e => Some (Err e, w1)
      | RetryAfter delay =>
          match fuel with
          | O => None
          | S fuel' =>
              executeRequest fuel' client transport config cacheKey (retryCount + 1)
                (sleep delay w1)
          end
      end
  end.

End Exec.

(** ** The offline queue

    The object store [queue] (key path [id]) is the list [getAll] returns;
    ids are stamped with the clock, so key order is insertion order. *)

Module Offline.

(** What a registered listener does when called: [ReplayAll] is the listener
    the [SmartFetch] constructor registers, which starts
    [processOfflineQueue] and returns without waiting for it; [Throws] is a
    listener that throws synchronously. *)
Inductive Listener :=
| ReplayAll
| Throws (e : ErrorView).

Record OfflineQueue := {
  q_open : bool;
  q_store : list OfflineQueueEntry;
  isProcessing : bool;
  listeners : list Listener
}.

Definition with_store (q : OfflineQueue) (store : list OfflineQueueEntry) : OfflineQueue :=
  {| q_open := q_open q; q_store := store; isProcessing := isProcessing q;
     listeners := listeners q |}.

Definition db_unavailable : ErrorView :=
  {| ev_class := PlainError; ev_name := "InvalidStateError";
     ev_message := "indexedDB is not available"; ev_code := None; ev_status := None |}.

Definition key_exists : ErrorView :=
  {| ev_class := PlainError; ev_name := "ConstraintError";
     ev_message := "Key already exists in the object store"; ev_code := None;
     ev_status := None |}.

Definition has_id (id : string) (store : list OfflineQueueEntry) : bool :=
  existsb (fun e => String.eqb (oq_id e) id) store.

(** [enqueue]; [id] is what [generateId()] returns, [now] is [Date.now()]. *)
Definition enqueue (id : string) (now : Z) (config : RequestConfig) (q : OfflineQueue)
    : Result ErrorView string * OfflineQueue :=
  if negb (q_open q) then (Err db_unavailable, q)
  else if has_id id (q_store q) then (Err key_exists, q)
  else (Ok id,
        with_store q
          (q_store q ++ [{| oq_id := id; oq_config := config; oq_timestamp := now;
                            oq_retryCount := 0 |}])%list).

Definition store_delete (id : string) (store : list OfflineQueueEntry) : list OfflineQueueEntry :=
  filter (fun e => negb (String.eqb (oq_id e) id) = true) store.

Definition store_put (entry : OfflineQueueEntry) (store : list OfflineQueueEntry)
    : list OfflineQueueEntry :=
  if has_id (oq_id entry) store
  then map (fun e => if String.eqb (oq_id e) (oq_id entry) then entry else e) store
  else (store ++ [entry])%list.

Definition dequeue (id : string) (q : OfflineQueue) : Result ErrorView unit * OfflineQueue :=
  if negb (q_open q) then (Err db_unavailable, q)
  else (Ok tt, with_store q (store_delete id (q_store q))).

Definition getAll (q : OfflineQueue) : Result ErrorView (list OfflineQueueEntry) :=
  if negb (q_open q) then Err db_unavailable else Ok (q_store q).

(** [notifyListeners]: the listeners run in order; the first that throws ends
    the round. Every replay started reads the store as it is at that moment
    (its [getAll] is issued before the [dequeue] that follows the round). *)
Fixpoint notifyListeners (ls : list Listener) (store : list OfflineQueueEntry)
    : Result ErrorView unit * list (list OfflineQueueEntry) :=
  match ls with
  | [] => (Ok tt, [])
  | ReplayAll :: rest =>
      let '(r, started) := notifyListeners rest store in (r, store :: started)
  | Throws e :: _ => (Err e, [])
  end.

(** The body of the [for] loop of [processQueue] for one entry of the
    snapshot. [Err] leaves the loop (an error thrown inside the [catch]). *)
Definition process_entry (entry : OfflineQueueEntry) (q : OfflineQueue)
    : Result ErrorView unit * OfflineQueue * list (list OfflineQueueEntry) :=
  let '(notified, started) := notifyListeners (listeners q) (q_store q) in
  let attempted :=
    match notified with
    | Ok _ => dequeue (oq_id entry) q
    | Err e => (Err e, q)
    end in
  match attempted with
  | (Ok _, q1) => (Ok tt, q1, started)
  | (Err _, q1) =>
      if negb (q_open q1) then (Err db_unavailable, q1, started)
      else
        let entry' :=
          {| oq_id := oq_id entry; oq_config := oq_config entry;
             oq_timestamp := oq_timestamp entry;
             oq_retryCount := oq_retryCount entry + 1 |} in
        if 3 <? oq_retryCount entry'
        then (Ok tt, with_store q1 (store_delete (oq_id entry) (q_store q1)), started)
        else (Ok tt, with_store q1 (store_put entry' (q_store q1)), started)
  end.

Fixpoint process_entries (entries : list OfflineQueueEntry) (q : OfflineQueue)
    : Result ErrorView unit * OfflineQueue * list (list OfflineQueueEntry) :=
  match entries with
  | [] => (Ok tt, q, [])
  | entry :: rest =>
      match process_entry entry q with
      | (Ok _, q1, started) =>
          let '(r, q2, started') := process_entries rest q1 in
          (r, q2, (started ++ started')%list)
      | (Err e, q1, started) => (Err e, q1, started)
      end
  end.

Definition set_processing (b : bool) (q : OfflineQueue) : OfflineQueue :=
  {| q_open := q_open q; q_store := q_store q; isProcessing := b; listeners := listeners q |}.

(** [processQueue]: the drain. The result is what the promise settles
    with, the queue it leaves and the replays it started (each with the
    entries it will go through). *)
Definition processQueue (online : bool) (q : OfflineQueue)
    : Result ErrorView unit * OfflineQueue * list (list OfflineQueueEntry) :=
  if isProcessing q || negb online then (Ok tt, q, [])
  else
    let q := set_processing true q in
    match getAll q with
    | Err e => (Err e, set_processing false q, [])
    | Ok entries =>
        let '(r, q1, started) := process_entries entries q in
        (r, set_processing false q1, started)
    end.

(** The store once every entry of a snapshot has been dequeued. *)
Definition delete_all (entries store : list OfflineQueueEntry) : list OfflineQueueEntry :=
  fold_left (fun st e => store_delete (oq_id e) st) entries store.

End Offline.

(** ** [SmartFetch.request]: the lifecycle of concurrent calls

    The event loop is explicit.  A call of [request] runs until its next
    [await] and is then resumed by a turn of the microtask queue, which is
    first-in first-out; a macrotask (callers issuing requests, an exchange
    settling, timers, a connectivity change) is followed by the queue being
    run until it is empty.  Each [await] of the lifecycle costs one turn. *)

Module Lifecycle.
Import Js Utils Cache Client Exec Offline.

(** The promise returned by [executeRequest]. *)
Inductive ExecState :=
| Fetching (config : RequestConfig) (cacheKey : string) (retryCount : Z)
| Backoff (config : RequestConfig) (cacheKey : string) (retryCount : Z) (until : Z)
| Settled (r : Result JsError SmartFetchResponse).

(** One invocation of the transport. *)
Record Exchange := {
  x_target : string;
  x_options : FetchOptions;
  x_key : string;
  x_owner : nat;
  x_open : bool
}.

(** Where a call of [request] is suspended. *)
Inductive CallState :=
| AtPre (config : RequestConfig)
| AtCache (config : RequestConfig) (cacheKey : string) (hit : option CacheEntry)
| AtRate (config : RequestConfig) (cacheKey : string) (decided : Result JsError unit)
| AtRateSleep (config : RequestConfig) (cacheKey : string) (rl : RateLimitConfig) (until : Z)
| AtEnqueue (config : RequestConfig) (enqueued : Result ErrorView string)
| AtExec (config : RequestConfig) (cacheKey : string) (p : nat)
| AtPost (config : RequestConfig) (cacheKey : string) (response : SmartFetchResponse)
| AtError (error : JsError)
| Following (p : nat)
| Done (r : Result JsError SmartFetchResponse).

(** [processOfflineQueue], started by the queue's listener. *)
Inductive ReplayState :=
| ReplayNext (remaining : list OfflineQueueEntry)
| ReplayWait (call : nat) (remaining : list OfflineQueueEntry)
| ReplayDone.

Inductive Task :=
| TCall (i : nat)
| TReplay (j : nat).

Record System := {
  now : Z;
  online : bool;
  caches : CacheManager;
  rateLimiters : gmap string Bucket;
  pendingRequests : gmap string nat;
  offlineQueue : OfflineQueue;
  execs : list ExecState;
  exchanges : list Exchange;
  calls : list CallState;
  replays : list ReplayState;
  microtasks : list Task
}.

Inductive Event :=
| Issue (configs : list RequestConfig)
| Settle (x : nat) (o : Outcome)
| Elapse (ms : Z)
| Connectivity (b : bool).

Definition set_clock (t : Z) (b : bool) (s : System) : System :=
  {| now := t; online := b; caches := caches s; rateLimiters := rateLimiters s;
     pendingRequests := pendingRequests s; offlineQueue := offlineQueue s;
     execs := execs s; exchanges := exchanges s; calls := calls s;
     replays := replays s; microtasks := microtasks s |}.

Definition set_caches (cm : CacheManager) (s : System) : System :=
  {| now := now s; online := online s; caches := cm; rateLimiters := rateLimiters s;
     pendingRequests := pendingRequests s; offlineQueue := offlineQueue s;
     execs := execs s; exchanges := exchanges s; calls := calls s;
     replays := replays s; microtasks := microtasks s |}.

Definition set_rateLimiters (l : gmap string Bucket) (s : System) : System :=
  {| now := now s; online := online s; caches := caches s; rateLimiters := l;
     pendingRequests := pendingRequests s; offlineQueue := offlineQueue s;
     execs := execs s; exchanges := exchanges s; calls := calls s;
     replays := replays s; microtasks := microtasks s |}.

Definition set_pending (p : gmap string nat) (s : System) : System :=
  {| now := now s; online := online s; caches := caches s; rateLimiters := rateLimiters s;
     pendingRequests := p; offlineQueue := offlineQueue s;
     execs := execs s; exchanges := exchanges s; calls := calls s;
     replays := replays s; microtasks := microtasks s |}.

Definition set_queue (q : OfflineQueue) (s : System) : System :=
  {| now := now s; online := online s; caches := caches s; rateLimiters := rateLimiters s;
     pendingRequests := pendingRequests s; offlineQueue := q;
     execs := execs s; exchanges := exchanges s; calls := calls s;
     replays := replays s; microtasks := microtasks s |}.

Definition set_execs (e : list ExecState) (s : System) : System :=
  {| now := now s; online := online s; caches := caches s; rateLimiters := rateLimiters s;
     pendingRequests := pendingRequests s; offlineQueue := offlineQueue s;
     execs := e; exchanges := exchanges s; calls := calls s;
     replays := replays s; microtasks := microtasks s |}.

Definition set_exchanges (x : list Exchange) (s : System) : System :=
  {| now := now s; online := online s; caches := caches s; rateLimiters := rateLimiters s;
     pendingRequests := pendingRequests s; offlineQueue := offlineQueue s;
     execs := execs s; exchanges := x; calls := calls s;
     replays := replays s; microtasks := microtasks s |}.

Definition set_calls (c : list CallState) (s : System) : System :=
  {| now := now s; online := online s; caches := caches s; rateLimiters := rateLimiters s;
     pendingRequests := pendingRequests s; offlineQueue := offlineQueue s;
     execs := execs s; exchanges := exchanges s; calls := c;
     replays := replays s; microtasks := microtasks s |}.

Definition set_replays (r : list ReplayState) (s : System) : System :=
  {| now := now s; online := online s; caches := caches s; rateLimiters := rateLimiters s;
     pendingRequests := pendingRequests s; offlineQueue := offlineQueue s;
     execs := execs s; exchanges := exchanges s; calls := calls s;
     replays := r; microtasks := microtasks s |}.

Definition set_microtasks (m : list Task) (s : System) : System :=
  {| now := now s; online := online s; caches := caches s; rateLimiters := rateLimiters s;
     pendingRequests := pendingRequests s; offlineQueue := offlineQueue s;
     execs := execs s; exchanges := exchanges s; calls := calls s;
     replays := replays s; microtasks := m |}.

Definition schedule (ts : list Task) (s : System) : System :=
  set_microtasks (microtasks s ++ ts)%list s.

Definition set_call (i : nat) (c : CallState) (s : System) : System :=
  set_calls (<[i := c]> (calls s)) s.

Definition awaits_exec (p : nat) (c : CallState) : bool :=
  match c with
  | AtExec _ _ q | Following q => Nat.eqb p q
  | _ => false
  end.

Definition awaits_call (i : nat) (r : ReplayState) : bool :=
  match r with
  | ReplayWait c _ => Nat.eqb i c
  | _ => false
  end.

Definition indices_where {A} (f : A -> bool) (l : list A) : list nat :=
  omap (fun ix => if f (snd ix) then Some (fst ix) else None) (imap pair l).

Definition is_settled (p : nat) (s : System) : bool :=
  match execs s !! p with Some (Settled _) => true | _ => false end.

(** [executeRequest] settles: the calls awaiting it are resumed. *)
Definition settle_exec (p : nat) (r : Result JsError SmartFetchResponse) (s : System) : System :=
  schedule (map TCall (indices_where (awaits_exec p) (calls s)))
    (set_execs (<[p := Settled r]> (execs s)) s).

(** A call of [request] settles: the replay awaiting it, if any, goes on. *)
Definition finish_call (i : nat) (r : Result JsError SmartFetchResponse) (s : System) : System :=
  schedule (map TReplay (indices_where (awaits_call i) (replays s)))
    (set_call i (Done r) s).

(** [request(config)] up to [await executePre]. *)
Definition begin_call (client : SmartFetchConfig) (config : RequestConfig) (s : System) : System :=
  schedule [TCall (length (calls s))]
    (set_calls (calls s ++ [AtPre (mergeRequestConfig client config)])%list s).

Section WithClient.
Context `{JsonParse}.
Variable client : SmartFetchConfig.

(** What the [catch] block of [executeRequest] does with a failure. *)
Definition fail_attempt (p : nat) (config : RequestConfig) (cacheKey : string)
    (retryCount : Z) (error : JsError) (s : System) : System :=
  match on_catch client config retryCount error with
  | Rethrow e => settle_exec p (Err e) s
  | RetryAfter delay =>
      set_execs (<[p := Backoff config cacheKey (retryCount + 1) (now s + Z.max 0 delay)]>
                   (execs s)) s
  end.

(** [executeRequest] from its entry to [await fetch]. *)
Definition start_attempt (p : nat) (config : RequestConfig) (cacheKey : string)
    (retryCount : Z) (s : System) : System :=
  match prepare client config with
  | Ok call =>
      set_exchanges
        (exchanges s ++ [{| x_target := fst call; x_options := snd call; x_key := cacheKey;
                            x_owner := p; x_open := true |}])%list
        (set_execs (<[p := Fetching config cacheKey retryCount]> (execs s)) s)
  | Err e => fail_attempt p config cacheKey retryCount e s
  end.

Definition cached_response (config : RequestConfig) (entry : CacheEntry) : SmartFetchResponse :=
  {| data := ce_data entry; status := 200; statusText := "OK"; resp_headers := [];
     config := config; cached := Some true; retryCount := None |}.

(** One turn of the microtask queue for call [i]: from an [await] to the
    next. *)
Definition resume_call (i : nat) (s : System) : System :=
  match calls s !! i with
  | Some (AtPre config) =>
      let cacheKey := generateCacheKey config in
      if negb (truthy_orbool (cache config))
      then schedule [TCall i] (set_call i (AtCache config cacheKey None) s)
      else
        let cacheConfig := cacheConfig_of config in
        let '(hit, cm) :=
          CacheManager_get (now s) (cc_strategy cacheConfig)
            (effective_key cacheConfig cacheKey) (caches s) in
        schedule [TCall i] (set_call i (AtCache config cacheKey hit) (set_caches cm s))
  | Some (AtCache config cacheKey (Some entry)) =>
      finish_call i (Ok (cached_response config entry)) s
  | Some (AtCache config cacheKey None) =>
      match (if not_false (deduplicate config) then pendingRequests s !! cacheKey else None) with
      | Some p =>
          let s1 := set_call i (Following p) s in
          if is_settled p s1 then schedule [TCall i] s1 else s1
      | None =>
          let '(decision, limiters) :=
            checkRateLimit client config (now s) (now s) (rateLimiters s) in
          let s1 := set_rateLimiters limiters s in
          match decision with
          | RatePass => schedule [TCall i] (set_call i (AtRate config cacheKey (Ok tt)) s1)
          | RateReject e => schedule [TCall i] (set_call i (AtRate config cacheKey (Err e)) s1)
          | RateSleep rl waitTime =>
              set_call i (AtRateSleep config cacheKey rl (now s + Z.max 0 waitTime)) s1
          end
      end
  | Some (AtRate config cacheKey (Err e)) =>
      schedule [TCall i] (set_call i (AtError e) s)
  | Some (AtRate config cacheKey (Ok _)) =>
      if negb (online s) && not_false (offlineQueueable config) && offlineQueueEnabled client
      then
        let '(r, q) :=
          enqueue (pretty (now s) +:+ "-" +:+ pretty i) (now s) config (offlineQueue s) in
        schedule [TCall i] (set_call i (AtEnqueue config r) (set_queue q s))
      else
        let p := length (execs s) in
        let s1 :=
          start_attempt p config cacheKey 0
            (set_execs (execs s ++ [Fetching config cacheKey 0])%list s) in
        let s2 :=
          if not_false (deduplicate config)
          then set_pending (<[cacheKey := p]> (pendingRequests s1)) s1
          else s1 in
        let s3 := set_call i (AtExec config cacheKey p) s2 in
        if is_settled p s3 then schedule [TCall i] s3 else s3
  | Some (AtEnqueue config (Ok _)) =>
      schedule [TCall i]
        (set_call i (AtError (NetworkError "Request queued for offline processing" config)) s)
  | Some (AtEnqueue config (Err e)) =>
      schedule [TCall i] (set_call i (AtError (thrown e)) s)
  | Some (AtExec config cacheKey p) =>
      match execs s !! p with
      | Some (Settled (Ok response)) =>
          schedule [TCall i] (set_call i (AtPost config cacheKey response) s)
      | Some (Settled (Err e)) => schedule [TCall i] (set_call i (AtError e) s)
      | _ => s
      end
  | Some (AtPost config cacheKey response) =>
      let s1 :=
        if not_false (deduplicate config)
        then set_pending (delete cacheKey (pendingRequests s)) s
        else s in
      finish_call i (Ok response) s1
  | Some (AtError e) => finish_call i (Err e) s
  | Some (Following p) =>
      match execs s !! p with
      | Some (Settled r) => finish_call i r s
      | _ => s
      end
  | Some (AtRateSleep _ _ _ _) | Some (Done _) | None => s
  end.

(** One turn for a replay: take the next entry and await its request. *)
Definition replay_next (j : nat) (remaining : list OfflineQueueEntry) (s : System) : System :=
  match remaining with
  | [] => set_replays (<[j := ReplayDone]> (replays s)) s
  | entry :: rest =>
      let i := length (calls s) in
      let s1 := begin_call client (oq_config entry) s in
      set_replays (<[j := ReplayWait i rest]> (replays s1)) s1
  end.

Definition resume_replay (j : nat) (s : System) : System :=
  match replays s !! j with
  | Some (ReplayNext remaining) => replay_next j remaining s
  | Some (ReplayWait i remaining) =>
      match calls s !! i with
      | Some (Done _) => replay_next j remaining s
      | _ => s
      end
  | _ => s
  end.

Definition resume (t : Task) (s : System) : System :=
  match t with
  | TCall i => resume_call i s
  | TReplay j => resume_replay j s
  end.

(** The microtask queue is run until it is empty. *)
Fixpoint run_microtasks (fuel : nat) (s : System) : System :=
  match fuel with
  | O => s
  | S fuel' =>
      match microtasks s with
      | [] => s
      | t :: rest => run_microtasks fuel' (resume t (set_microtasks rest s))
      end
  end.

(** A sleep of the retry engine is over: [executeRequest] is entered again. *)
Definition wake_exec (s : System) (p : nat) : System :=
  match execs s !! p with
  | Some (Backoff config cacheKey retryCount until) =>
      if until <=? now s then start_attempt p config cacheKey retryCount s else s
  | _ => s
  end.

(** A sleep of the rate limiter is over. *)
Definition wake_call (s : System) (i : nat) : System :=
  match calls s !! i with
  | Some (AtRateSleep config cacheKey rl until) =>
      if until <=? now s
      then schedule [TCall i]
             (set_call i (AtRate config cacheKey (Ok tt))
                (set_rateLimiters (checkRateLimit_resume config rl (now s) (rateLimiters s)) s))
      else s
  | _ => s
  end.

(** The exchange [x] settles with outcome [o]. *)
Definition settle_exchange (x : nat) (o : Outcome) (s : System) : System :=
  match exchanges s !! x with
  | Some ex =>
      if x_open ex then
        let s1 :=
          set_exchanges
            (<[x := {| x_target := x_target ex; x_options := x_options ex;
                       x_key := x_key ex; x_owner := x_owner ex; x_open := false |}]>
               (exchanges s)) s in
        match execs s1 !! x_owner ex with
        | Some (Fetching config cacheKey retryCount) =>
            let '(r, cm) := complete client config cacheKey retryCount o (now s1) (caches s1) in
            let s2 := set_caches cm s1 in
            match r with
            | Ok response => settle_exec (x_owner ex) (Ok response) s2
            | Err e => fail_attempt (x_owner ex) config cacheKey retryCount e s2
            end
        | _ => s1
        end
      else s
  | None => s
  end.

(** The [online] event: the queue drains and its listener starts replays. *)
Definition go_online (s : System) : System :=
  let '(_, q, started) := processQueue true (offlineQueue s) in
  let first := length (replays s) in
  schedule (map TReplay (seq first (length started)))
    (set_replays (replays s ++ map ReplayNext started)%list (set_queue q s)).

Definition macrotask (e : Event) (s : System) : System :=
  match e with
  | Issue configs => fold_left (fun acc c => begin_call client c acc) configs s
  | Settle x o => settle_exchange x o s
  | Elapse ms =>
      let s1 := set_clock (now s + ms) (online s) s in
      let s2 := fold_left wake_exec (seq 0 (length (execs s1))) s1 in
      fold_left wake_call (seq 0 (length (calls s2))) s2
  | Connectivity b =>
      let s1 := set_clock (now s) b s in
      if b then go_online s1 else s1
  end.

Definition step (fuel : nat) (s : System) (e : Event) : System :=
  run_microtasks fuel (macrotask e s).

Definition run (fuel : nat) (events : list Event) (s : System) : System :=
  fold_left (step fuel) events s.

End WithClient.

(** A fresh client at clock reading [t]. *)
Definition boot (t : Z) (db_open : bool) : System :=
  {| now := t; online := true;
     caches := CacheManager_new ∅ {| IndexedDBCacheAdapter.idb_open := db_open;
                                     IndexedDBCacheAdapter.idb_store := ∅ |};
     rateLimiters := ∅; pendingRequests := ∅;
     offlineQueue := {| q_open := db_open; q_store := []; isProcessing := false;
                        listeners := [ReplayAll] |};
     execs := []; exchanges := []; calls := []; replays := []; microtasks := [] |}.

(** The exchanges in flight for a fingerprint. *)
Definition in_flight (cacheKey : string) (s : System) : list nat :=
  indices_where (fun ex => x_open ex && String.eqb (x_key ex) cacheKey) (exchanges s).

(** What the caller of call [i] has received, if anything yet. *)
Definition result_of (i : nat) (s : System) : option (Result JsError SmartFetchResponse) :=
  match calls s !! i with
  | Some (Done r) => Some r
  | _ => None
  end.

Definition payload_of (i : nat) (s : System) : option JsValue :=
  match result_of i s with
  | Some (Ok r) => Some (data r)
  | _ => None
  end.

End Lifecycle.

(** ** Sample requests, transports and stores used by the examples *)

Module Samples.
Import Js Utils Cache Client Exec Offline Lifecycle.

Definition request (target : string) : RequestConfig :=
  {| url := target; method := None; headers := None; body := None; params := None;
     timeout := None; cache := Unset; retry := Unset; rateLimit := None;
     transformRequest := None; transformResponse := None; validateResponse := None;
     offlineQueueable := None; deduplicate := None |}.

Definition with_method (m : HttpMethod) (c : RequestConfig) : RequestConfig :=
  {| url := url c; method := Some m; headers := headers c; body := body c;
     params := params c; timeout := timeout c; cache := cache c; retry := retry c;
     rateLimit := rateLimit c; transformRequest := transformRequest c;
     transformResponse := transformResponse c; validateResponse := validateResponse c;
     offlineQueueable := offlineQueueable c; deduplicate := deduplicate c |}.

Definition with_body (b : JsValue) (c : RequestConfig) : RequestConfig :=
  {| url := url c; method := method c; headers := headers c; body := Some b;
     params := params c; timeout := timeout c; cache := cache c; retry := retry c;
     rateLimit := rateLimit c; transformRequest := transformRequest c;
     transformResponse := transformResponse c; validateResponse := validateResponse c;
     offlineQueueable := offlineQueueable c; deduplicate := deduplicate c |}.

Definition with_params (ps : list (string * option JsValue)) (c : RequestConfig) : RequestConfig :=
  {| url := url c; method := method c; headers := headers c; body := body c;
     params := Some ps; timeout := timeout c; cache := cache c; retry := retry c;
     rateLimit := rateLimit c; transformRequest := transformRequest c;
     transformResponse := transformResponse c; validateResponse := validateResponse c;
     offlineQueueable := offlineQueueable c; deduplicate := deduplicate c |}.

Definition with_cache (cc : CacheConfig) (c : RequestConfig) : RequestConfig :=
  {| url := url c; method := method c; headers := headers c; body := body c;
     params := params c; timeout := timeout c; cache := Obj cc; retry := retry c;
     rateLimit := rateLimit c; transformRequest := transformRequest c;
     transformResponse := transformResponse c; validateResponse := validateResponse c;
     offlineQueueable := offlineQueueable c; deduplicate := deduplicate c |}.

Definition with_retry (r : RetryConfig) (c : RequestConfig) : RequestConfig :=
  {| url := url c; method := method c; headers := headers c; body := body c;
     params := params c; timeout := timeout c; cache := cache c; retry := Obj r;
     rateLimit := rateLimit c; transformRequest := transformRequest c;
     transformResponse := transformResponse c; validateResponse := validateResponse c;
     offlineQueueable := offlineQueueable c; deduplicate := deduplicate c |}.

Definition with_rateLimit (r : RateLimitConfig) (c : RequestConfig) : RequestConfig :=
  {| url := url c; method := method c; headers := headers c; body := body c;
     params := params c; timeout := timeout c; cache := cache c; retry := retry c;
     rateLimit := Some r; transformRequest := transformRequest c;
     transformResponse := transformResponse c; validateResponse := validateResponse c;
     offlineQueueable := offlineQueueable c; deduplicate := deduplicate c |}.

Definition with_validateResponse (v : JsValue -> Result ErrorView JsValue) (c : RequestConfig)
    : RequestConfig :=
  {| url := url c; method := method c; headers := headers c; body := body c;
     params := params c; timeout := timeout c; cache := cache c; retry := retry c;
     rateLimit := rateLimit c; transformRequest := transformRequest c;
     transformResponse := transformResponse c; validateResponse := Some v;
     offlineQueueable := offlineQueueable c; deduplicate := deduplicate c |}.

(** [{ maxRetries: k, delay: 10 }]: the default policy decides. *)
Definition retry_by_default (k : Z) : RetryConfig :=
  {| maxRetries := k; delay := 10; maxDelay := None; backoff := None;
     retryOn := None; retryCondition := None |}.

(** [{ maxRetries: k, delay: 10, retryCondition: () => true }] *)
Definition retry_anything (k : Z) : RetryConfig :=
  {| maxRetries := k; delay := 10; maxDelay := None; backoff := None;
     retryOn := None; retryCondition := Some (fun _ => true) |}.

(** What [fetch] rejects with on a network failure, and on an abort. *)
Definition network_failure : ErrorView :=
  {| ev_class := PlainError; ev_name := "Error"; ev_message := "Network error";
     ev_code := None; ev_status := None |}.

Definition aborted : ErrorView :=
  {| ev_class := PlainError; ev_name := "AbortError";
     ev_message := "The operation was aborted."; ev_code := None; ev_status := None |}.

Definition schema_mismatch : ErrorView :=
  {| ev_class := PlainError; ev_name := "ZodError"; ev_message := "Invalid input";
     ev_code := None; ev_status := None |}.

Definition unread : Result ErrorView JsValue :=
  Err {| ev_class := PlainError; ev_name := "TypeError"; ev_message := "Body is unusable";
         ev_code := None; ev_status := None |}.

(** A 200 response with a JSON payload. *)
Definition ok_json (payload : JsValue) : RawResponse :=
  {| rr_status := 200; rr_statusText := "OK";
     rr_headers := [("content-type", "application/json")];
     rr_contentType := Some "application/json";
     rr_json := Ok payload; rr_text := unread; rr_blob := unread |}.

Definition always_down : nat -> Outcome := fun _ => Rejects network_failure.

Definition always_ok (payload : JsValue) : nat -> Outcome :=
  fun _ => Resolves (ok_json payload).

Definition closed_db : IndexedDBCacheAdapter.t :=
  {| IndexedDBCacheAdapter.idb_open := false; IndexedDBCacheAdapter.idb_store := ∅ |}.

Definition world0 : World :=
  {| w_now := 1000; w_caches := CacheManager_new ∅ closed_db; w_fetched := []; w_slept := [] |}.

Definition stale_entry : CacheEntry :=
  {| ce_data := JStr "payload"; ce_timestamp := 1000; ce_ttl := Some 5000; ce_key := "k" |}.

(** [JSON.parse] on the one item the examples store. *)
Definition parse_stale : JsonParse :=
  fun item =>
    if String.eqb item (JSON_stringify (entry_to_json stale_entry))
    then Some stale_entry else None.

Definition two_per_second (queue : bool) : RateLimitConfig :=
  {| maxRequests := 2; perMilliseconds := 1000; queueRequests := Some queue |}.

End Samples.

(** ** The fingerprint as the specification words it *)

Module Specified.
Import Js Utils.

(** The methods RFC 9110 calls idempotent. *)
Definition is_idempotent (m : HttpMethod) : bool :=
  match m with
  | POST | PATCH => false
  | GET | HEAD | PUT | DELETE | OPTIONS => true
  end.

(** The fingerprint as the specification words it: the body takes part only
    for non-idempotent methods. *)
Definition fingerprint_as_specified (config : RequestConfig) : string :=
  let m := default GET (method config) in
  String.concat "|"
    ([method_name m; url config]
     ++ match params config with Some ps => [JSON_stringify_record ps] | None => [] end
     ++ if truthy_opt (body config) && negb (is_idempotent m)
        then [JSON_stringify (default JNull (body config))] else [])%list.

Definition without_body (c : RequestConfig) : RequestConfig :=
  {| url := url c; method := method c; headers := headers c; body := None;
     params := params c; timeout := timeout c; cache := cache c; retry := retry c;
     rateLimit := rateLimit c; transformRequest := transformRequest c;
     transformResponse := transformResponse c; validateResponse := validateResponse c;
     offlineQueueable := offlineQueueable c; deduplicate := deduplicate c |}.

End Specified.

(** ** More of [CacheManager] and the cache surface of [SmartFetch] *)

Module CacheOps.
Import Js Utils Cache Client Exec Lifecycle.

Definition CacheManager_delete (strategy : CacheStrategy) (key : string) (cm : CacheManager)
    : CacheManager :=
  match strategy with
  | none => cm
  | memory =>
      {| cm_memory := MemoryCacheAdapter.delete key (cm_memory cm);
         cm_localStorage := cm_localStorage cm; cm_indexedDB := cm_indexedDB cm |}
  | localStorage =>
      {| cm_memory := cm_memory cm;
         cm_localStorage := LocalStorageCacheAdapter.delete key (cm_localStorage cm);
         cm_indexedDB := cm_indexedDB cm |}
  | indexedDB =>
      {| cm_memory := cm_memory cm; cm_localStorage := cm_localStorage cm;
         cm_indexedDB := IndexedDBCacheAdapter.delete key (cm_indexedDB cm) |}
  end.

(** [invalidatePattern]: the pattern is not looked at. *)
Definition CacheManager_invalidatePattern (strategy : CacheStrategy) (pattern : string)
    (cm : CacheManager) : CacheManager :=
  match strategy with
  | none => cm
  | _ => CacheManager_clear strategy cm
  end.

(** [SmartFetch.checkCache] *)
Definition checkCache `{JsonParse} (config : RequestConfig) (cacheKey : string) (now : Z)
    (cm : CacheManager) : option SmartFetchResponse * CacheManager :=
  if negb (truthy_orbool (cache config)) then (None, cm)
  else
    let cacheConfig := cacheConfig_of config in
    let '(cached, cm1) :=
      CacheManager_get now (cc_strategy cacheConfig) (effective_key cacheConfig cacheKey) cm in
    (match cached with
     | Some entry => Some (cached_response config entry)
     | None => None
     end, cm1).

(** [SmartFetch.clearCache] and [SmartFetch.invalidateCache] *)
Definition clearCache (strategy : option CacheStrategy) (cm : CacheManager) : CacheManager :=
  match strategy with
  | Some s => CacheManager_clear s cm
  | None =>
      CacheManager_clear indexedDB (CacheManager_clear localStorage (CacheManager_clear memory cm))
  end.

Definition invalidateCache (pattern : string) (strategy : option CacheStrategy)
    (cm : CacheManager) : CacheManager :=
  match strategy with
  | Some s => CacheManager_invalidatePattern s pattern cm
  | None =>
      CacheManager_invalidatePattern indexedDB pattern
        (CacheManager_invalidatePattern localStorage pattern
           (CacheManager_invalidatePattern memory pattern cm))
  end.

End CacheOps.

(** ** The mock registry of [SmartFetch]

    [mockResponses] is a [Map] in insertion order; a regular expression is
    what [toString()] prints of it together with its [test]. *)

Module Mocks.
Import Js Utils Client.

Inductive MockUrl :=
| ExactUrl (target : string)
| PatternUrl (printed : string) (test : string -> bool).

Record MockConfig := {
  mock_url : MockUrl;
  mock_method : option HttpMethod;
  mock_response : JsValue;
  mock_delay : option Z;
  mock_status : option Z
}.

Definition mock_key (mock : MockConfig) : string :=
  match mock_url mock with
  | ExactUrl target => target
  | PatternUrl printed _ => printed
  end.

(** [Map.prototype.set]: an existing key keeps its place. *)
Fixpoint map_set {V} (key : string) (value : V) (m : list (string * V)) : list (string * V) :=
  match m with
  | [] => [(key, value)]
  | (k, v) :: rest =>
      if String.eqb k key then (k, value) :: rest else (k, v) :: map_set key value rest
  end.

Definition addMock (mock : MockConfig) (mockResponses : list (string * MockConfig))
    : list (string * MockConfig) :=
  map_set (mock_key mock) mock mockResponses.

Definition clearMocks (mockResponses : list (string * MockConfig)) : list (string * MockConfig) :=
  [].

Definition mock_matches (config : RequestConfig) (mock : MockConfig) : bool :=
  let urlMatch :=
    match mock_url mock with
    | ExactUrl target => String.eqb (url config) target
    | PatternUrl _ test => test (url config)
    end in
  let methodMatch :=
    match mock_method mock with
    | None => true
    | Some m => bool_decide (Some m = method config)
    end in
  urlMatch && methodMatch.

Definition mocked_response (config : RequestConfig) (mock : MockConfig) : SmartFetchResponse :=
  {| data := mock_response mock;
     status := if truthy_num (mock_status mock) then default 200 (mock_status mock) else 200;
     statusText := "OK"; resp_headers := []; config := config;
     cached := None; retryCount := None |}.

Fixpoint getMockResponse (config : RequestConfig) (mockResponses : list (string * MockConfig))
    : option SmartFetchResponse :=
  match mockResponses with
  | [] => None
  | (_, mock) :: rest =>
      if mock_matches config mock then Some (mocked_response config mock)
      else getMockResponse config rest
  end.

End Mocks.

(** ** [src/middleware/index.ts]: [MiddlewareManager]

    A hook is the function it computes: it returns a value or throws. *)

Module Middleware.

Record Middleware := {
  mw_name : string;
  mw_pre : option (RequestConfig -> Result JsError RequestConfig);
  mw_post : option (SmartFetchResponse -> Result JsError SmartFetchResponse);
  mw_error : option (JsError -> Result JsError JsError)
}.

Definition add (m : Middleware) (middleware : list Middleware) : list Middleware :=
  (middleware ++ [m])%list.

Definition remove (name : string) (middleware : list Middleware) : list Middleware :=
  filter (fun m => negb (String.eqb (mw_name m) name) = true) middleware.

Fixpoint executePre (middleware : list Middleware) (config : RequestConfig)
    : Result JsError RequestConfig :=
  match middleware with
  | [] => Ok config
  | m :: rest =>
      match mw_pre m with
      | Some hook =>
          match hook config with
          | Ok currentConfig => executePre rest currentConfig
          | Err e => Err e
          end
      | None => executePre rest config
      end
  end.

Fixpoint executePost (middleware : list Middleware) (response : SmartFetchResponse)
    : Result JsError SmartFetchResponse :=
  match middleware with
  | [] => Ok response
  | m :: rest =>
      match mw_post m with
      | Some hook =>
          match hook response with
          | Ok currentResponse => executePost rest currentResponse
          | Err e => Err e
          end
      | None => executePost rest response
      end
  end.

Fixpoint executeError (middleware : list Middleware) (error : JsError)
    : Result JsError JsError :=
  match middleware with
  | [] => Ok error
  | m :: rest =>
      match mw_error m with
      | Some hook =>
          match hook error with
          | Ok currentError => executeError rest currentError
          | Err e => Err e
          end
      | None => executeError rest error
      end
  end.

(** [authMiddleware(getToken)], for a [getToken] that returns [token]. *)
Definition authMiddleware (token : string) : Middleware :=
  {| mw_name := "auth";
     mw_pre := Some (fun config =>
       Ok {| url := url config; method := method config;
             headers := Some (<["Authorization" := "Bearer " +:+ token]>
                                (default ∅ (headers config)));
             body := body config; params := params config; timeout := timeout config;
             cache := cache config; retry := retry config; rateLimit := rateLimit config;
             transformRequest := transformRequest config;
             transformResponse := transformResponse config;
             validateResponse := validateResponse config;
             offlineQueueable := offlineQueueable config;
             deduplicate := deduplicate config |});
     mw_post := None; mw_error := None |}.

End Middleware.

(** ** [src/graphql/index.ts]: [GraphQLClient.buildRequest] *)

Module GraphQL.
Import Js.

Record GraphQLRequest := {
  query : string;
  variables : option (list (string * JsValue));
  operationName : option string
}.

Record GraphQLClient := {
  endpoint : string;
  defaultHeaders : gmap string string
}.

Definition GraphQLClient_new (target : string) (extra : gmap string string) : GraphQLClient :=
  {| endpoint := target;
     defaultHeaders := extra ∪ {["Content-Type" := "application/json"]} |}.

Definition document (request : GraphQLRequest) : JsValue :=
  JObj ([("query", JStr (query request))]
        ++ match variables request with Some vs => [("variables", JObj vs)] | None => [] end
        ++ match operationName request with Some n => [("operationName", JStr n)] | None => [] end)%list.

Definition buildRequest (client : GraphQLClient) (request : GraphQLRequest) : RequestConfig :=
  {| url := endpoint client; method := Some POST;
     headers := Some (defaultHeaders client);
     body := Some (JStr (JSON_stringify (document request)));
     params := None; timeout := None; cache := Unset; retry := Unset; rateLimit := None;
     transformRequest := None; transformResponse := None; validateResponse := None;
     offlineQueueable := None; deduplicate := None |}.

End GraphQL.

(** ** The rest of the offline queue *)

Module OfflineOps.
Import Offline.

Definition clear (q : OfflineQueue) : Result ErrorView unit * OfflineQueue :=
  if negb (q_open q) then (Err db_unavailable, q) else (Ok tt, with_store q []).

Definition size (q : OfflineQueue) : Result ErrorView nat :=
  if negb (q_open q) then Err db_unavailable else Ok (length (q_store q)).

(** What the [catch] block of [processQueue] leaves of an entry: the entry
    with its counter incremented, or nothing once the counter exceeds 3. *)
Definition after_failure (entry : OfflineQueueEntry) : option OfflineQueueEntry :=
  if 3 <? oq_retryCount entry + 1 then None
  else Some {| oq_id := oq_id entry; oq_config := oq_config entry;
               oq_timestamp := oq_timestamp entry;
               oq_retryCount := oq_retryCount entry + 1 |}.

Definition throws (l : Listener) : Prop :=
  match l with Throws _ => True | ReplayAll => False end.

End OfflineOps.

(** ** [mergeConfig] and [isPlainObject] ([src/utils/index.ts])

    A configuration value is [undefined], a plain object (its own properties
    in order), or anything else (a primitive, [null], an array, a function,
    an instance of a class), which [isPlainObject] rejects. *)

Module Merge.

Inductive Cfg (A : Type) :=
| Undefined
| Other (a : A)
| PlainObject (fields : list (string * Cfg A)).
Arguments Undefined {A}.
Arguments Other {A} a.
Arguments PlainObject {A} fields.

Definition isPlainObject {A} (val : Cfg A) : bool :=
  match val with PlainObject _ => true | _ => false end.

(** [obj[key]] *)
Fixpoint prop {A} (key : string) (obj : list (string * Cfg A)) : Cfg A :=
  match obj with
  | [] => Undefined
  | (k, v) :: rest => if String.eqb k key then v else prop key rest
  end.

(** [obj[key] = value] *)
Fixpoint assign {A} (key : string) (value : Cfg A) (obj : list (string * Cfg A))
    : list (string * Cfg A) :=
  match obj with
  | [] => [(key, value)]
  | (k, v) :: rest =>
      if String.eqb k key then (k, value) :: rest else (k, v) :: assign key value rest
  end.

Fixpoint mergeInto {A} (base : list (string * Cfg A)) (override : Cfg A) {struct override}
    : list (string * Cfg A) :=
  match override with
  | PlainObject entries =>
      (fix each (keys : list (string * Cfg A)) (result : list (string * Cfg A)) :=
         match keys with
         | [] => result
         | kv :: rest =>
             each rest
               match snd kv with
               | Undefined => result
               | Other a => assign (fst kv) (Other a) result
               | PlainObject o =>
                   match prop (fst kv) base with
                   | PlainObject b =>
                       assign (fst kv) (PlainObject (mergeInto b (snd kv))) result
                   | _ => assign (fst kv) (PlainObject o) result
                   end
               end
         end) entries base
  | _ => base
  end.

Definition mergeConfig {A} (base override : list (string * Cfg A)) : list (string * Cfg A) :=
  mergeInto base (PlainObject override).

Definition keys {A} (obj : list (string * Cfg A)) : list string := map fst obj.

(** [Object.prototype.hasOwnProperty.call(obj, key)] *)
Definition hasOwn {A} (key : string) (obj : list (string * Cfg A)) : bool :=
  existsb (fun kv => String.eqb (fst kv) key) obj.

(** [{ ...a, ...b }]: every own property of [b], also one that holds
    [undefined], is set on a copy of [a]. *)
Definition spread {A} (a b : list (string * Cfg A)) : list (string * Cfg A) :=
  fold_left (fun acc kv => assign (fst kv) (snd kv) acc) b a.

(** The properties that the object literal of [SmartFetch.mergeRequestConfig]
    lists before it spreads the request: the method [GET'], the client's
    timeout, cache, retry and rate limit, and the two flags set to [true']. *)
Definition request_defaults {A} (GET' true' : A) (timeout cache retry rateLimit : Cfg A)
    : list (string * Cfg A) :=
  [("method", Other GET'); ("timeout", timeout); ("cache", cache); ("retry", retry);
   ("rateLimit", rateLimit); ("deduplicate", Other true'); ("offlineQueueable", Other true')].

(** [SmartFetch.mergeRequestConfig] on objects:
    [mergeConfig({ ...defaults, ...config }, config)]. *)
Definition mergeRequestConfig {A} (defaults config : list (string * Cfg A))
    : list (string * Cfg A) :=
  mergeConfig (spread defaults config) config.

(** The [forEach] loop of [mergeConfig] on its own: the entries of the
    override still to visit, and the result so far. *)
Fixpoint forEach {A} (base entries result : list (string * Cfg A)) : list (string * Cfg A) :=
  match entries with
  | [] => result
  | kv :: rest =>
      forEach base rest
        match snd kv with
        | Undefined => result
        | Other a => assign (fst kv) (Other a) result
        | PlainObject o =>
            match prop (fst kv) base with
            | PlainObject b => assign (fst kv) (PlainObject (mergeConfig b o)) result
            | _ => assign (fst kv) (PlainObject o) result
            end
        end
  end.

End Merge.

(** ** More sample data *)

Module MoreSamples.
Import Js Utils Cache Client Exec Samples.

(** [{ maxRetries: 3, delay: 1000, retryOn: [408, 429, 500, 502, 503, 504] }] *)
Definition retry_on_statuses : RetryConfig :=
  {| maxRetries := 3; delay := 1000; maxDelay := None; backoff := None;
     retryOn := Some [408; 429; 500; 502; 503; 504]; retryCondition := None |}.

Definition unavailable : RawResponse :=
  {| rr_status := 503; rr_statusText := "Service Unavailable"; rr_headers := [];
     rr_contentType := None; rr_json := unread; rr_text := Ok (JStr ""); rr_blob := unread |}.

Definition timed_out : ErrorView :=
  {| ev_class := PlainError; ev_name := "TypeError";
     ev_message := "network timeout at: /api/test"; ev_code := None; ev_status := None |}.

(** Two rejections, then a 200. *)
Definition recovers_on_third (payload : JsValue) : nat -> Outcome :=
  fun i => if (i <? 2)%nat then Rejects network_failure else Resolves (ok_json payload).

Definition get_with_retry (r : RetryConfig) : RequestConfig :=
  mergeRequestConfig default_client (with_retry r (request "/api/test")).

Definition plain_call : string * FetchOptions :=
  ("/api/test", {| fo_method := GET; fo_headers := ∅; fo_body := None |}).

(** [n] slashes. *)
Definition slashes (n : nat) : string := string_of_list_ascii (repeat "/"%char n).

(** A query parameter that [buildURL] skips: [undefined] or [null]. *)
Definition no_value (kv : string * option JsValue) : Prop :=
  snd kv = None \/ snd kv = Some JNull.

(** A request given by the four parts its fingerprint reads. *)
Definition shaped (m : option HttpMethod) (target : string)
    (ps : option (list (string * option JsValue))) (b : option JsValue) : RequestConfig :=
  {| url := target; method := m; headers := None; body := b; params := ps;
     timeout := None; cache := Unset; retry := Unset; rateLimit := None;
     transformRequest := None; transformResponse := None; validateResponse := None;
     offlineQueueable := None; deduplicate := None |}.

(** A request cached in [localStorage] under the key of [stale_entry], and
    the 201 response to it. *)
Definition kept_in_localStorage : RequestConfig :=
  with_cache {| cc_strategy := localStorage; cc_ttl := Some 5000; cc_key := Some "k";
                cc_invalidateOn := None |} (request "/api/test").

Definition created : SmartFetchResponse :=
  {| data := JStr "payload"; status := 201; statusText := "Created";
     resp_headers := [("location", "/api/test/1")]; config := kept_in_localStorage;
     cached := None; retryCount := Some 0 |}.

(** Two configuration objects for [mergeConfig]. *)
Definition client_defaults : list (string * Merge.Cfg Z) :=
  [("timeout", Merge.Other 30000);
   ("retry", Merge.PlainObject [("maxRetries", Merge.Other 3); ("delay", Merge.Other 1000)])].

Definition request_overrides : list (string * Merge.Cfg Z) :=
  [("timeout", Merge.Undefined);
   ("retry", Merge.PlainObject [("delay", Merge.Other 250)])].

(** The defaults of a client with a timeout of 30000 and nothing else, and a
    request that holds [timeout: undefined]. *)
Definition defaults_30000 : list (string * Merge.Cfg JsValue) :=
  Merge.request_defaults (JStr "GET") (JBool true) (Merge.Other (JNum 30000))
    Merge.Undefined Merge.Undefined Merge.Undefined.

Definition timeout_undefined : list (string * Merge.Cfg JsValue) :=
  [("url", Merge.Other (JStr "/api/test")); ("timeout", Merge.Undefined)].

(** An open queue of two entries, the second on its last retry, and a
    listener that throws. *)
Definition queued (id : string) (count : Z) : OfflineQueueEntry :=
  {| oq_id := id; oq_config := request "/api/test"; oq_timestamp := 1000;
     oq_retryCount := count |}.

Definition failing_queue : Offline.OfflineQueue :=
  {| Offline.q_open := true; Offline.q_store := [queued "a" 0; queued "b" 3];
     Offline.isProcessing := false; Offline.listeners := [Offline.Throws network_failure] |}.

End MoreSamples.

(** * Properties *)

(** Concrete runs are settled by evaluation. *)
Ltac by_evaluation :=
  vm_compute; repeat split; first [reflexivity | discriminate].

(** ** Fingerprints *)

Section Fingerprint.
Import Js Utils Client Exec Samples Specified.

Lemma string_append_assoc (a b c : string) : (a +:+ b) +:+ c = a +:+ (b +:+ c).
Proof.
  induction a as [| x a IH]; [reflexivity |].
  change (String x ((a +:+ b) +:+ c) = String x (a +:+ (b +:+ c))).
  now rewrite IH.
Qed.

Lemma concat_snoc sep (parts : list string) (last : string) :
  parts <> [] ->
  String.concat sep (parts ++ [last])%list = String.concat sep parts +:+ sep +:+ last.
Proof.
  induction parts as [| a [| b rest] IH]; intros Hne; [contradiction | reflexivity |].
  change ((a :: b :: rest) ++ [last])%list with (a :: ((b :: rest) ++ [last]))%list.
  change (String.concat sep (a :: ((b :: rest) ++ [last]))%list)
    with (a +:+ sep +:+ String.concat sep ((b :: rest) ++ [last])%list).
  rewrite IH by discriminate.
  change (String.concat sep (a :: b :: rest))
    with (a +:+ sep +:+ String.concat sep (b :: rest)).
  now rewrite !string_append_assoc.
Qed.

(** C8, as stated, fails twice over.  The body is part of the fingerprint for
    every method but GET, idempotent ones included: two PUT requests that
    differ only in their bodies have different fingerprints, where the
    specified fingerprint has one.  And two requests that reach the transport
    as the same target and the same options can have different fingerprints:
    a query written into the target against the same query passed as
    parameters. *)
Lemma C8_fingerprint_differs_from_specification :
  let put1 := with_body (JNum 1) (with_method PUT (request "/x")) in
  let put2 := with_body (JNum 2) (with_method PUT (request "/x")) in
  let inline := request "/x?a=1" in
  let split := with_params [("a", Some (JNum 1))] (request "/x") in
  is_idempotent PUT = true
  /\ generateCacheKey put1 <> generateCacheKey put2
  /\ fingerprint_as_specified put1 = fingerprint_as_specified put2
  /\ generateCacheKey put1 <> fingerprint_as_specified put1
  /\ prepare default_client (mergeRequestConfig default_client inline)
     = prepare default_client (mergeRequestConfig default_client split)
  /\ generateCacheKey (mergeRequestConfig default_client inline)
     <> generateCacheKey (mergeRequestConfig default_client split).
Proof.
  cbv zeta. repeat apply conj; try reflexivity; vm_compute; discriminate.
Qed.

Lemma string_length_append (a b : string) :
  String.length (a +:+ b) = (String.length a + String.length b)%nat.
Proof.
  induction a as [| x a IH]; [reflexivity |].
  change (String.length (String x (a +:+ b)) = S (String.length a + String.length b)).
  cbn [String.length]. now rewrite IH.
Qed.

Lemma string_append_nil_r (a : string) : a +:+ "" = a.
Proof.
  induction a as [| x a IH]; [reflexivity |].
  change (String x (a +:+ "") = String x a). now rewrite IH.
Qed.

Lemma string_append_inv_head (a x y : string) : a +:+ x = a +:+ y -> x = y.
Proof.
  induction a as [| c a IH]; intros Heq; [exact Heq |].
  change (String c (a +:+ x) = String c (a +:+ y)) in Heq.
  injection Heq as Heq. auto.
Qed.

Lemma string_append_inv_tail (s : string) : forall x y, x +:+ s = y +:+ s -> x = y.
Proof.
  induction x as [| a x IH]; intros [| b y] Heq.
  - reflexivity.
  - apply (f_equal String.length) in Heq.
    change (String.length s = S (String.length (y +:+ s))) in Heq.
    rewrite string_length_append in Heq. lia.
  - apply (f_equal String.length) in Heq.
    change (S (String.length (x +:+ s)) = String.length s) in Heq.
    rewrite string_length_append in Heq. lia.
  - change (String a (x +:+ s) = String b (y +:+ s)) in Heq.
    injection Heq as -> Heq. f_equal. auto.
Qed.

(** No method name holds a bar: the method is what a fingerprint has before
    its first bar. *)
Lemma method_name_delimited (m1 m2 : HttpMethod) (x y : string) :
  method_name m1 +:+ "|" +:+ x = method_name m2 +:+ "|" +:+ y -> m1 = m2 /\ x = y.
Proof.
  intros Heq.
  destruct m1, m2; cbv beta iota fix delta [String.append method_name] in Heq;
    first [discriminate | split; [reflexivity | congruence]].
Qed.

(** The fingerprint spelled out: the method name (GET when absent), a bar
    and the target, then a bar and the serialized parameters when there are
    parameters, then a bar and the serialized body when the body is truthy
    and the method is not GET. *)
Lemma generateCacheKey_spelled_out (c : RequestConfig) :
  generateCacheKey c
  = method_name (default GET (method c)) +:+ "|" +:+ url c
    +:+ match params c with
        | Some ps => "|" +:+ JSON_stringify_record ps
        | None => ""
        end
    +:+ (if truthy_opt (body c) && negb (bool_decide (default GET (method c) = GET))
         then "|" +:+ JSON_stringify (default JNull (body c)) else "").
Proof.
  unfold generateCacheKey. cbv zeta.
  destruct (truthy_opt (body c) && negb (bool_decide (default GET (method c) = GET)));
    destruct (params c) as [ps |].
  - rewrite concat_snoc by discriminate.
    change ([method_name (default GET (method c)); url c] ++ [JSON_stringify_record ps])%list
      with [method_name (default GET (method c)); url c; JSON_stringify_record ps].
    cbn [String.concat]. now rewrite !string_append_assoc.
  - rewrite concat_snoc by discriminate. cbn [String.concat].
    now rewrite !string_append_assoc.
  - change ([method_name (default GET (method c)); url c] ++ [JSON_stringify_record ps])%list
      with [method_name (default GET (method c)); url c; JSON_stringify_record ps].
    cbn [String.concat]. now rewrite !string_append_nil_r.
  - cbn [String.concat]. now rewrite !string_append_nil_r.
Qed.

(** C8 (amended): the fingerprint is a function of the method (GET when
    absent), the target, the serialized query parameters when there are any,
    and the serialized body exactly when the body is truthy and the method is
    not GET; requests that agree on those parts have the same fingerprint,
    whatever their other fields.  Each part does take part: the fingerprint
    is the method name, a bar, the target, and then the query and the body,
    each after a bar; requests with the same fingerprint have the same
    method, and if they agree on two of target, serialized query and
    serialized body they agree on the third. *)
Theorem C8_fingerprint_is_a_function_of_its_parts (c1 c2 : RequestConfig) :
  let m (c : RequestConfig) := default GET (method c) in
  let query (c : RequestConfig) :=
    match params c with
    | Some ps => "|" +:+ JSON_stringify_record ps
    | None => ""
    end in
  let payload (c : RequestConfig) :=
    if truthy_opt (body c) && negb (bool_decide (m c = GET))
    then "|" +:+ JSON_stringify (default JNull (body c)) else "" in
  (default GET (method c1) = default GET (method c2) ->
   url c1 = url c2 -> params c1 = params c2 ->
   (default GET (method c1) <> GET -> body c1 = body c2) ->
   generateCacheKey c1 = generateCacheKey c2)
  /\ (default GET (method c1) = GET \/ truthy_opt (body c1) = false ->
      generateCacheKey c1 = generateCacheKey (without_body c1))
  /\ (default GET (method c1) <> GET -> truthy_opt (body c1) = true ->
      generateCacheKey c1
      = generateCacheKey (without_body c1) +:+ "|"
        +:+ JSON_stringify (default JNull (body c1)))
  /\ generateCacheKey c1
     = method_name (m c1) +:+ "|" +:+ url c1 +:+ query c1 +:+ payload c1
  /\ (generateCacheKey c1 = generateCacheKey c2 -> m c1 = m c2)
  /\ (generateCacheKey c1 = generateCacheKey c2 ->
      query c1 = query c2 -> payload c1 = payload c2 -> url c1 = url c2)
  /\ (generateCacheKey c1 = generateCacheKey c2 ->
      url c1 = url c2 -> payload c1 = payload c2 -> query c1 = query c2)
  /\ (generateCacheKey c1 = generateCacheKey c2 ->
      url c1 = url c2 -> query c1 = query c2 -> payload c1 = payload c2).
Proof.
  intros m query payload.
  assert (Hparts : generateCacheKey c1 = generateCacheKey c2 ->
                   m c1 = m c2
                   /\ url c1 +:+ query c1 +:+ payload c1
                      = url c2 +:+ query c2 +:+ payload c2).
  { rewrite !generateCacheKey_spelled_out. fold (m c1) (m c2) (query c1) (query c2).
    fold (payload c1) (payload c2). apply method_name_delimited. }
  repeat apply conj.
  - intros Hm Hu Hp Hb. unfold generateCacheKey. rewrite <- Hm, <- Hu, <- Hp.
    destruct (decide (default GET (method c1) = GET)) as [Hget | Hne].
    + rewrite Hget. cbn. now rewrite !andb_false_r.
    + now rewrite (Hb Hne).
  - intros Hcase. unfold generateCacheKey, without_body. cbn [method url params body].
    cbn [truthy_opt andb].
    destruct Hcase as [Hget | Hfalsy].
    + rewrite Hget. cbn. now rewrite andb_false_r.
    + now rewrite Hfalsy.
  - intros Hne Hb. unfold generateCacheKey, without_body. cbn [method url params body].
    cbn [truthy_opt andb]. rewrite Hb.
    rewrite bool_decide_eq_false_2 by exact Hne. cbn [andb negb].
    destruct (params c1); apply concat_snoc; discriminate.
  - apply generateCacheKey_spelled_out.
  - intros Hk. now apply Hparts.
  - intros Hk Hq Hb. apply Hparts in Hk as [_ Hk]. rewrite Hq, Hb in Hk.
    now apply string_append_inv_tail in Hk.
  - intros Hk Hu Hb. apply Hparts in Hk as [_ Hk]. rewrite Hu, Hb in Hk.
    apply string_append_inv_head in Hk. now apply string_append_inv_tail in Hk.
  - intros Hk Hu Hq. apply Hparts in Hk as [_ Hk]. rewrite Hu, Hq in Hk.
    now do 2 apply string_append_inv_head in Hk.
Qed.

(** The same at two concrete requests: a POST carries its body in the
    fingerprint; the headers and the timeout do not take part; and a GET and a
    DELETE of the same target have different fingerprints. *)
Lemma C8_fingerprint_is_a_function_of_its_parts_witness :
  let c1 := with_body (JStr "b") (with_method POST (request "/x")) in
  let c2 := mergeRequestConfig default_client c1 in
  generateCacheKey c1 = generateCacheKey c2
  /\ generateCacheKey c1 = generateCacheKey (without_body c1) +:+ "|" +:+ JSON_stringify (JStr "b")
  /\ generateCacheKey (request "/x") <> generateCacheKey (with_method DELETE (request "/x")).
Proof.
  cbv zeta.
  pose proof (C8_fingerprint_is_a_function_of_its_parts
                (with_body (JStr "b") (with_method POST (request "/x")))
                (mergeRequestConfig default_client
                   (with_body (JStr "b") (with_method POST (request "/x")))))
    as (Hsame & _ & Hbody & _).
  pose proof (C8_fingerprint_is_a_function_of_its_parts
                (request "/x") (with_method DELETE (request "/x")))
    as (_ & _ & _ & _ & Hmethod & _).
  repeat apply conj.
  - apply Hsame; reflexivity.
  - apply Hbody; [discriminate | reflexivity].
  - intros Hk. apply Hmethod in Hk. discriminate.
Defined.

End Fingerprint.

(** ** Cache expiry *)

Section CacheExpiry.
Import Cache.
Context `{JsonParse}.

Lemma isExpired_spec now e t :
  ce_ttl e = Some t -> t <> 0 ->
  isExpired now e = (t <? now - ce_timestamp e).
Proof.
  intros Ht Hnz. unfold isExpired, truthy_num. rewrite Ht. simpl.
  destruct (Z.eqb_spec t 0); [contradiction | reflexivity].
Qed.

Lemma isExpired_no_ttl now e :
  truthy_num (ce_ttl e) = false -> isExpired now e = false.
Proof. intros Hf. unfold isExpired. now rewrite Hf. Qed.

Lemma memory_get_stored now key e (cache : gmap string CacheEntry) :
  MemoryCacheAdapter.get now key (MemoryCacheAdapter.set key e cache)
  = if isExpired now e
    then (None, MemoryCacheAdapter.delete key (MemoryCacheAdapter.set key e cache))
    else (Some e, MemoryCacheAdapter.set key e cache).
Proof.
  unfold MemoryCacheAdapter.get, MemoryCacheAdapter.set.
  now rewrite lookup_insert_eq.
Qed.

(** C3, as stated, fails for a time-to-live of 0: [!entry.ttl] holds, the entry
    never expires, and the read at [storedAt + t + 1] still returns it and
    leaves it in the backend. *)
Lemma C3_zero_ttl_is_never_expired :
  let e := {| ce_data := JStr "payload"; ce_timestamp := 1000; ce_ttl := Some 0; ce_key := "k" |} in
  let cache := MemoryCacheAdapter.set "k" e ∅ in
  MemoryCacheAdapter.get (1000 + 0 + 1) "k" cache = (Some e, cache)
  /\ fst (MemoryCacheAdapter.get (1000 + 0 + 1) "k" cache) <> None.
Proof. split; [reflexivity | discriminate]. Qed.

(** C3 (amended): an entry with a non-zero time-to-live [t], stored at
    [storedAt], is returned by a read at [storedAt + t - 1] (the backend is left
    as it is), while a read at [storedAt + t + 1] returns absent and deletes
    the entry; in general the read at [now] discovers expiry exactly when
    [now - storedAt > t]. *)
Theorem C3_ttl_boundary (cache : gmap string CacheEntry) key e t :
  ce_ttl e = Some t -> t <> 0 ->
  let stored := MemoryCacheAdapter.set key e cache in
  let storedAt := ce_timestamp e in
  MemoryCacheAdapter.get (storedAt + t - 1) key stored = (Some e, stored)
  /\ MemoryCacheAdapter.get (storedAt + t + 1) key stored
     = (None, MemoryCacheAdapter.delete key stored)
  /\ MemoryCacheAdapter.delete key stored !! key = None
  /\ forall now,
       MemoryCacheAdapter.get now key stored
       = if t <? now - storedAt
         then (None, MemoryCacheAdapter.delete key stored)
         else (Some e, stored).
Proof.
  intros Ht Hnz stored storedAt. subst stored storedAt.
  repeat split.
  - rewrite memory_get_stored, (isExpired_spec _ _ t) by assumption.
    replace (t <? _) with false; [reflexivity | symmetry; apply Z.ltb_ge; lia].
  - rewrite memory_get_stored, (isExpired_spec _ _ t) by assumption.
    replace (t <? _) with true; [reflexivity | symmetry; apply Z.ltb_lt; lia].
  - apply lookup_delete_eq.
  - intros now. now rewrite memory_get_stored, (isExpired_spec _ _ t).
Qed.

Lemma C3_ttl_boundary_witness :
  let e := {| ce_data := JStr "payload"; ce_timestamp := 1000; ce_ttl := Some 5000; ce_key := "k" |} in
  let stored := MemoryCacheAdapter.set "k" e (∅ : gmap string CacheEntry) in
  MemoryCacheAdapter.get (1000 + 5000 - 1) "k" stored = (Some e, stored)
  /\ MemoryCacheAdapter.get (1000 + 5000 + 1) "k" stored
     = (None, MemoryCacheAdapter.delete "k" stored).
Proof.
  pose proof (C3_ttl_boundary ∅ "k"
    {| ce_data := JStr "payload"; ce_timestamp := 1000; ce_ttl := Some 5000; ce_key := "k" |}
    5000 eq_refl ltac:(lia)) as [H1 [H2 _]].
  split; [exact H1 | exact H2].
Defined.

(** ** [has] against [get] on an expired entry *)

Lemma memory_has_get_expired now key e (cache : gmap string CacheEntry) :
  isExpired now e = true -> cache !! key = Some e ->
  adapter_has key cache = true
  /\ adapter_get now key cache = (None, adapter_delete key cache)
  /\ adapter_has key (adapter_delete key cache) = false.
Proof.
  intros Hexp Hk. simpl.
  unfold MemoryCacheAdapter.has, MemoryCacheAdapter.get, MemoryCacheAdapter.delete.
  rewrite Hk, Hexp, lookup_delete_eq. split; [| split].
  - apply bool_decide_eq_true. eauto.
  - reflexivity.
  - apply bool_decide_eq_false. intros [? ?]. discriminate.
Qed.

Lemma localStorage_has_get_expired now key e item (ls : gmap string string) :
  isExpired now e = true ->
  ls !! (LocalStorageCacheAdapter.prefix +:+ key) = Some item ->
  item <> "" -> JSON_parse_entry item = Some e ->
  adapter_has key ls = true
  /\ adapter_get now key ls = (None, adapter_delete key ls)
  /\ adapter_has key (adapter_delete key ls) = false.
Proof.
  intros Hexp Hk Hne Hparse. simpl.
  unfold LocalStorageCacheAdapter.has, LocalStorageCacheAdapter.get,
    LocalStorageCacheAdapter.delete.
  rewrite Hk, Hparse, Hexp, lookup_delete_eq.
  destruct (String.eqb_spec item ""); [contradiction |].
  split; [| split].
  - apply bool_decide_eq_true. eauto.
  - reflexivity.
  - apply bool_decide_eq_false. intros [? ?]. discriminate.
Qed.

Lemma indexedDB_has_get_expired now key e (db : IndexedDBCacheAdapter.t) :
  isExpired now e = true ->
  IndexedDBCacheAdapter.idb_open db = true ->
  IndexedDBCacheAdapter.idb_store db !! key = Some e ->
  adapter_has key db = true
  /\ adapter_get now key db = (None, adapter_delete key db)
  /\ adapter_has key (adapter_delete key db) = false.
Proof.
  intros Hexp Hopen Hk. simpl.
  unfold IndexedDBCacheAdapter.has, IndexedDBCacheAdapter.get,
    IndexedDBCacheAdapter.delete.
  rewrite Hopen, Hk, Hexp. cbn [andb IndexedDBCacheAdapter.idb_open IndexedDBCacheAdapter.idb_store].
  rewrite lookup_delete_eq.
  split; [| split].
  - apply bool_decide_eq_true. eauto.
  - reflexivity.
  - apply bool_decide_eq_false. intros [? ?]. discriminate.
Qed.


End CacheExpiry.

(** ** The rate limiter *)

Section RateLimiter.
Import Client.

Variable client : SmartFetchConfig.
Variable config : RequestConfig.
Variable rl : RateLimitConfig.
Hypothesis Hrl : opt_or (rateLimit config) (client_rateLimit client) = Some rl.

Let R := maxRequests rl.
Let P := perMilliseconds rl.
Let key := url config.

(** A cold check behaves as a check on the bucket it creates. *)
Lemma checkRateLimit_cold now0 now (limiters : gmap string Bucket) :
  limiters !! key = None ->
  checkRateLimit client config now0 now limiters
  = checkRateLimit client config now0 now
      (<[key := {| tokens := R; lastRefill := now0 |}]> limiters).
Proof.
  intros Hcold. unfold checkRateLimit. rewrite Hrl.
  fold key. rewrite Hcold, lookup_insert_eq.
  subst R. cbv zeta. cbn [tokens lastRefill].
  destruct (0 <? _); cbn [tokens lastRefill];
    destruct (_ <? 1); try destruct (default false _);
    now rewrite ?insert_insert_eq.
Qed.

(** Inside the current interval nothing is refilled. *)
Lemma no_refill_in_window t0 now :
  t0 <= now < t0 + P -> (0 <? (now - t0) / P) = false.
Proof.
  intros Hw. apply Z.ltb_ge.
  rewrite Z.div_small; [reflexivity | subst P; lia].
Qed.

Lemma checkRateLimit_token n t0 now0 now (limiters : gmap string Bucket) :
  limiters !! key = Some {| tokens := n; lastRefill := t0 |} ->
  1 <= n -> t0 <= now < t0 + P ->
  checkRateLimit client config now0 now limiters
  = (RatePass, <[key := {| tokens := n - 1; lastRefill := t0 |}]> limiters).
Proof.
  intros Hk Hn Hw. unfold checkRateLimit. rewrite Hrl. fold key. rewrite Hk.
  cbn [lastRefill tokens]. fold P. rewrite (no_refill_in_window t0 now Hw).
  cbn [lastRefill tokens].
  replace (n <? 1) with false by (symmetry; apply Z.ltb_ge; lia).
  reflexivity.
Qed.

Lemma checkRateLimit_exhausted n t0 now0 now (limiters : gmap string Bucket) :
  limiters !! key = Some {| tokens := n; lastRefill := t0 |} ->
  n < 1 -> t0 <= now < t0 + P ->
  checkRateLimit client config now0 now limiters
  = (if default false (queueRequests rl)
     then RateSleep rl (P - (now - t0))
     else RateReject (RateLimitError "Rate limit exceeded" config (P - (now - t0))),
     limiters).
Proof.
  intros Hk Hn Hw. unfold checkRateLimit. rewrite Hrl. fold key. rewrite Hk.
  cbn [lastRefill tokens]. fold P. rewrite (no_refill_in_window t0 now Hw).
  cbn [lastRefill tokens].
  replace (n <? 1) with true by (symmetry; apply Z.ltb_lt; lia).
  rewrite (insert_id limiters key _ Hk).
  now destruct (default false (queueRequests rl)).
Qed.

(** As long as tokens remain, every check of a run inside the interval passes
    and takes one token. *)
Lemma checks_pass (times : list (Z * Z)) : forall n t0 (limiters : gmap string Bucket),
  limiters !! key = Some {| tokens := n; lastRefill := t0 |} ->
  Z.of_nat (length times) <= n ->
  Forall (fun x => t0 <= snd x < t0 + P) times ->
  checks client config times limiters
  = (repeat RatePass (length times),
     <[key := {| tokens := n - Z.of_nat (length times); lastRefill := t0 |}]> limiters).
Proof.
  induction times as [| [a b] rest IH]; intros n t0 limiters Hk Hn Hw.
  - cbn. rewrite Z.sub_0_r. now rewrite (insert_id limiters key _ Hk).
  - apply Forall_cons in Hw as [Hb Hrest]. cbn [snd] in Hb.
    cbn [checks]. cbn [length] in Hn.
    rewrite (checkRateLimit_token n t0 a b limiters Hk) by lia.
    rewrite (IH (n - 1) t0) by (rewrite ?lookup_insert_eq; auto; lia).
    rewrite insert_insert_eq. cbn [length repeat].
    do 3 f_equal. lia.
Qed.

(** Once the interval of a bucket has lapsed, the next check refills it to
    [R], stamps it, and opens a new interval exactly as a cold check does. *)
Lemma refill_restarts_the_window n t0 now0 now (limiters : gmap string Bucket) :
  limiters !! key = Some {| tokens := n; lastRefill := t0 |} ->
  0 <= n -> 1 <= R -> 0 < P -> t0 + P <= now ->
  checkRateLimit client config now0 now limiters
  = (RatePass, <[key := {| tokens := R - 1; lastRefill := now |}]> limiters).
Proof.
  intros Hk Hn HR HP Hlapsed. unfold checkRateLimit. rewrite Hrl. fold key. rewrite Hk.
  cbn [lastRefill tokens]. fold P. fold R.
  assert (Hrefills : 1 <= (now - t0) / P).
  { apply Z.div_le_lower_bound; lia. }
  replace (0 <? (now - t0) / P) with true by (symmetry; apply Z.ltb_lt; lia).
  cbn [lastRefill tokens].
  rewrite Z.min_l by nia.
  replace (R <? 1) with false by (symmetry; apply Z.ltb_ge; lia).
  reflexivity.
Qed.

(** A check that finds the bucket empty inside its interval. *)
Let refused (t0 : Z) (x : Z * Z) : RateDecision :=
  if default false (queueRequests rl)
  then RateSleep rl (P - (snd x - t0))
  else RateReject (RateLimitError "Rate limit exceeded" config (P - (snd x - t0))).

(** A run of checks inside the interval of a bucket that holds [k] tokens:
    the first [k] pass, all the others are refused, and nothing is refilled. *)
Lemma checks_in_interval (times : list (Z * Z)) :
  forall (k : nat) t0 (limiters : gmap string Bucket),
    limiters !! key = Some {| tokens := Z.of_nat k; lastRefill := t0 |} ->
    Forall (fun x => t0 <= snd x < t0 + P) times ->
    checks client config times limiters
    = ((repeat RatePass (Nat.min k (length times))
        ++ map (refused t0) (skipn k times))%list,
       <[key := {| tokens := Z.of_nat (k - length times); lastRefill := t0 |}]> limiters).
Proof.
  induction times as [| [a b] rest IH]; intros k t0 limiters Hk Hw.
  - rewrite Nat.min_0_r, skipn_nil, Nat.sub_0_r. cbn [checks repeat map app].
    now rewrite (insert_id limiters key _ Hk).
  - apply Forall_cons in Hw as [Hb Hrest]. cbn [snd] in Hb. cbn [checks].
    destruct k as [| k].
    + rewrite (checkRateLimit_exhausted 0 t0 a b limiters Hk) by lia.
      rewrite (IH 0%nat t0 limiters Hk Hrest).
      cbn [Nat.min repeat app skipn map length Nat.sub]. reflexivity.
    + rewrite (checkRateLimit_token (Z.of_nat (S k)) t0 a b limiters Hk) by lia.
      replace (Z.of_nat (S k) - 1) with (Z.of_nat k) by lia.
      rewrite (IH k t0) by (rewrite ?lookup_insert_eq; auto).
      rewrite insert_insert_eq.
      cbn [Nat.min repeat app skipn map length Nat.sub]. reflexivity.
Qed.

(** Once the interval of a bucket has lapsed, a check sees the bucket as
    full and stamped with the time of the check. *)
Lemma checkRateLimit_lapsed n tl now0 now (limiters : gmap string Bucket) :
  limiters !! key = Some {| tokens := n; lastRefill := tl |} ->
  0 <= n -> 0 <= R -> 0 < P -> tl + P <= now ->
  checkRateLimit client config now0 now limiters
  = checkRateLimit client config now0 now
      (<[key := {| tokens := R; lastRefill := now |}]> limiters).
Proof.
  intros Hk Hn HR HP Hlapsed. unfold checkRateLimit. rewrite Hrl. fold key.
  rewrite Hk, lookup_insert_eq. cbn [lastRefill tokens]. fold P. fold R.
  assert (Hrefills : 1 <= (now - tl) / P) by (apply Z.div_le_lower_bound; lia).
  replace (0 <? (now - tl) / P) with true by (symmetry; apply Z.ltb_lt; lia).
  assert (Hnone : (0 <? (now - now) / P) = false)
    by (rewrite Z.sub_diag, Z.div_0_l by lia; reflexivity).
  rewrite Hnone. cbn [lastRefill tokens].
  rewrite Z.min_l by nia.
  destruct (R <? 1); try destruct (default false _); now rewrite ?insert_insert_eq.
Qed.


End RateLimiter.

(** ** Execution with retry *)

Section Execution.
Import Js Utils Cache Client Exec.

Variable client : SmartFetchConfig.
Variable transport : nat -> Outcome.
Variable config : RequestConfig.
Variable cacheKey : string.

(** Whatever [complete] throws leaves the caches alone and has no response
    attached. *)
Lemma complete_failure retryCount o now cm e cm' :
  complete client config cacheKey retryCount o now cm = (Err e, cm') ->
  cm' = cm /\ e_response e = None.
Proof.
  unfold complete. intros Hc.
  repeat (case_match; simplify_eq; try (split; reflexivity)).
Qed.

(** A response is built only from an exchange whose status passed validation,
    and the cache is written with that response, once. *)
Lemma complete_success retryCount o now cm r cm' :
  complete client config cacheKey retryCount o now cm = (Ok r, cm') ->
  cm' = cacheResponse config cacheKey r now cm
  /\ default default_validateStatus (validateStatus client) (status r) = true
  /\ Types.retryCount r = Some retryCount
  /\ exists raw, o = Resolves raw /\ status r = rr_status raw.
Proof.
  unfold complete. intros Hc.
  repeat (case_match; simplify_eq).
  all: cbn; repeat split; eauto.
  all: match goal with H : negb _ = false |- _ => now apply negb_false_iff in H end.
Qed.

Lemma attempt_failure retryCount w e w1 :
  attempt client transport config cacheKey retryCount w = (Err e, w1) ->
  w_caches w1 = w_caches w /\ w_now w1 = w_now w /\ w_slept w1 = w_slept w
  /\ e_response e = None.
Proof.
  unfold attempt. intros Ha.
  destruct (prepare client config) as [call | pe] eqn:Hp.
  - destruct (complete _ _ _ _ _ _ _) as [r cm] eqn:Hc. simplify_eq.
    apply complete_failure in Hc as [-> Hr]. cbn. auto.
  - simplify_eq. repeat split.
    unfold prepare in Hp. repeat (case_match; simplify_eq). reflexivity.
Qed.

Lemma attempt_success retryCount w r w1 :
  attempt client transport config cacheKey retryCount w = (Ok r, w1) ->
  w_caches w1 = cacheResponse config cacheKey r (w_now w) (w_caches w)
  /\ default default_validateStatus (validateStatus client) (status r) = true.
Proof.
  unfold attempt. intros Ha.
  destruct (prepare client config) as [call | pe] eqn:Hp; [| simplify_eq].
  destruct (complete _ _ _ _ _ _ _) as [r' cm] eqn:Hc. simplify_eq.
  apply complete_success in Hc as (-> & Hv & _). cbn. auto.
Qed.

Lemma executeRequest_failure fuel : forall retryCount w e w',
  executeRequest fuel client transport config cacheKey retryCount w = Some (Err e, w') ->
  w_caches w' = w_caches w.
Proof.
  induction fuel as [| fuel IH]; intros retryCount w e w' Hx; cbn [executeRequest] in Hx;
    destruct (attempt _ _ _ _ _ _) as [[r | err] w1] eqn:Ha; simplify_eq;
    apply attempt_failure in Ha as (Hc & _);
    destruct (on_catch _ _ _ _); simplify_eq; auto.
  apply IH in Hx. now rewrite Hx.
Qed.

Lemma executeRequest_success fuel : forall retryCount w r w',
  executeRequest fuel client transport config cacheKey retryCount w = Some (Ok r, w') ->
  w_caches w' = cacheResponse config cacheKey r (w_now w') (w_caches w)
  /\ default default_validateStatus (validateStatus client) (status r) = true.
Proof.
  induction fuel as [| fuel IH]; intros retryCount w r w' Hx; cbn [executeRequest] in Hx;
    destruct (attempt _ _ _ _ _ _) as [[r1 | err] w1] eqn:Ha; simplify_eq.
  - pose proof Ha as Ha'. apply attempt_success in Ha as [Hc Hv]. split; [| exact Hv].
    rewrite Hc. f_equal. unfold attempt in Ha'.
    repeat (case_match; simplify_eq). reflexivity.
  - destruct (on_catch _ _ _ _); simplify_eq.
  - pose proof Ha as Ha'. apply attempt_success in Ha as [Hc Hv]. split; [| exact Hv].
    rewrite Hc. f_equal. unfold attempt in Ha'.
    repeat (case_match; simplify_eq). reflexivity.
  - apply attempt_failure in Ha as (Hc & _).
    destruct (on_catch _ _ _ _); simplify_eq.
    apply IH in Hx as [Hx Hv]. split; [| exact Hv].
    unfold sleep in Hx. cbn [w_caches] in Hx. now rewrite Hx, Hc.
Qed.

(** C7: an attempt that fails, whatever the reason, leaves every cache as it
    was, and so does a request that fails after all its attempts; the caches
    change only on success, by the single [cacheResponse] of the response that
    was built, whose status passed validation. *)
Theorem C7_failed_attempts_never_cached fuel retryCount (w : World) :
  (forall e w1,
     attempt client transport config cacheKey retryCount w = (Err e, w1) ->
     w_caches w1 = w_caches w)
  /\ (forall e w',
        executeRequest fuel client transport config cacheKey retryCount w = Some (Err e, w') ->
        w_caches w' = w_caches w)
  /\ (forall r w',
        executeRequest fuel client transport config cacheKey retryCount w = Some (Ok r, w') ->
        w_caches w' = cacheResponse config cacheKey r (w_now w') (w_caches w)
        /\ default default_validateStatus (validateStatus client) (status r) = true).
Proof.
  repeat apply conj.
  - intros e w1 Ha. now apply attempt_failure in Ha.
  - intros e w' Hx. exact (executeRequest_failure fuel retryCount w e w' Hx).
  - intros r w' Hx. exact (executeRequest_success fuel retryCount w r w' Hx).
Qed.

End Execution.

(** ** Retry decisions *)

Section RetryDecisions.
Import Js Utils Cache Client Exec.

Variable client : SmartFetchConfig.
Variable transport : nat -> Outcome.
Variable config : RequestConfig.
Variable cacheKey : string.

Lemma shouldRetry_exhausted error n rc :
  maxRetries rc <= n -> shouldRetry error n rc = false.
Proof.
  intros Hn. unfold shouldRetry.
  now replace (maxRetries rc <=? n) with true by (symmetry; apply Z.leb_le; lia).
Qed.

Lemma on_catch_abort n error :
  instanceof_Error error = true ->
  ev_name (e_view error) = "AbortError" ->
  on_catch client config n error = Rethrow (AbortError "Request aborted" config).
Proof. intros Hi Hn. unfold on_catch. now rewrite Hi, Hn. Qed.

Lemma attempt_rejected n (w : World) call v :
  prepare client config = Ok call ->
  transport (length (w_fetched w)) = Rejects v ->
  attempt client transport config cacheKey n w
  = (Err (thrown v),
     {| w_now := w_now w; w_caches := w_caches w;
        w_fetched := (w_fetched w ++ [call])%list; w_slept := w_slept w |}).
Proof. intros Hp Ht. unfold attempt. now rewrite Hp, Ht. Qed.

(** C5 (amended): an attempt whose failure is an abort is never retried,
    whatever the retry configuration and the attempt count, and the request
    fails at once with the abort error after that single exchange; a
    response-validation failure is not retried without a retry configuration,
    nor under the default policy or a status allow-list; with a custom retry
    predicate it is retried exactly when attempts remain and the predicate
    accepts it. *)
Theorem C5_abort_and_validation_retry (n : Z) :
  (forall error,
     instanceof_Error error = true -> ev_name (e_view error) = "AbortError" ->
     on_catch client config n error = Rethrow (AbortError "Request aborted" config))
  /\ (forall fuel (w : World) call v,
        prepare client config = Ok call ->
        transport (length (w_fetched w)) = Rejects v ->
        ev_class v <> NonError -> ev_name v = "AbortError" ->
        executeRequest fuel client transport config cacheKey n w
        = Some (Err (AbortError "Request aborted" config),
                {| w_now := w_now w; w_caches := w_caches w;
                   w_fetched := (w_fetched w ++ [call])%list; w_slept := w_slept w |}))
  /\ on_catch client config n (validation_failure config)
     = match getRetryConfig client config with
       | None => Rethrow (validation_failure config)
       | Some rc =>
           match retryCondition rc with
           | None => Rethrow (validation_failure config)
           | Some accepts =>
               if (n <? maxRetries rc) && accepts (e_view (validation_failure config))
               then RetryAfter (calculateRetryDelay n rc)
               else Rethrow (validation_failure config)
           end
       end.
Proof.
  repeat apply conj.
  - intros error Hi Hn. exact (on_catch_abort n error Hi Hn).
  - intros fuel w call v Hp Ht Hc Hn.
    assert (Hcatch : on_catch client config n (thrown v)
                     = Rethrow (AbortError "Request aborted" config)).
    { apply on_catch_abort; [| exact Hn].
      unfold instanceof_Error. cbn. now destruct (ev_class v). }
    destruct fuel; cbn [executeRequest];
      now rewrite (attempt_rejected n w call v Hp Ht), Hcatch.
  - unfold on_catch. cbn -[getRetryConfig calculateRetryDelay].
    destruct (getRetryConfig client config) as [rc |]; [| reflexivity].
    unfold shouldRetry, view_of. cbn -[calculateRetryDelay].
    rewrite Z.leb_antisym.
    destruct (n <? maxRetries rc); cbn -[calculateRetryDelay].
    + destruct (retryCondition rc) as [accepts |].
      * destruct (accepts _); reflexivity.
      * destruct (retryOn rc); reflexivity.
    + now destruct (retryCondition rc).
Qed.

(** *** Exhausting the retries *)

Variable rc : RetryConfig.
Variable call : string * FetchOptions.
Variable err : nat -> JsError.

Hypothesis Hrc : getRetryConfig client config = Some rc.
Hypothesis Hprepare : prepare client config = Ok call.
(** The i-th exchange fails with [err i] ... *)
Hypothesis Hfails : forall i n now cm,
  complete client config cacheKey n (transport i) now cm = (Err (err i), cm).
(** ... which is neither an abort nor a timeout by name ... *)
Hypothesis Hnot_abort : forall i,
  instanceof_Error (err i) && String.eqb (ev_name (e_view (err i))) "AbortError" = false.
Hypothesis Hnot_timeout : forall i,
  instanceof_Error (err i) && includes (ev_message (e_view (err i))) "timeout" = false.
(** ... and which the retry policy accepts whenever attempts remain. *)
Hypothesis Haccepted : forall i n,
  0 <= n < maxRetries rc -> shouldRetry (err i) n rc = true.

Lemma attempt_fails n (w : World) :
  attempt client transport config cacheKey n w
  = (Err (err (length (w_fetched w))),
     {| w_now := w_now w; w_caches := w_caches w;
        w_fetched := (w_fetched w ++ [call])%list; w_slept := w_slept w |}).
Proof. unfold attempt. now rewrite Hprepare, Hfails. Qed.

Lemma on_catch_retries i n :
  0 <= n < maxRetries rc ->
  on_catch client config n (err i) = RetryAfter (calculateRetryDelay n rc).
Proof.
  intros Hn. unfold on_catch.
  now rewrite Hnot_abort, Hnot_timeout, Hrc, (Haccepted i n Hn).
Qed.

Lemma on_catch_gives_up i n :
  maxRetries rc <= n ->
  on_catch client config n (err i) = Rethrow (wrap_failure config (err i)).
Proof.
  intros Hn. unfold on_catch.
  now rewrite Hnot_abort, Hnot_timeout, Hrc, (shouldRetry_exhausted _ _ _ Hn).
Qed.

Lemma wrap_failure_no_response i : e_response (wrap_failure config (err i)) = None.
Proof.
  unfold wrap_failure. destruct (negb _); [reflexivity |].
  pose proof (Hfails i 0 0 (CacheManager_new ∅ {| IndexedDBCacheAdapter.idb_open := false;
                                                  IndexedDBCacheAdapter.idb_store := ∅ |})) as Hc.
  now apply complete_failure in Hc.
Qed.

Lemma executeRequest_exhausts (m : nat) : forall (fuel : nat) (n : Z) (w : World),
  0 <= n -> n + Z.of_nat m = maxRetries rc -> (m <= fuel)%nat ->
  exists w',
    executeRequest fuel client transport config cacheKey n w
    = Some (Err (wrap_failure config (err (length (w_fetched w) + m))), w')
    /\ w_fetched w' = (w_fetched w ++ repeat call (m + 1))%list
    /\ w_caches w' = w_caches w.
Proof.
  induction m as [| m IH]; intros fuel n w Hn Hm Hfuel.
  - exists {| w_now := w_now w; w_caches := w_caches w;
              w_fetched := (w_fetched w ++ [call])%list; w_slept := w_slept w |}.
    rewrite Nat.add_0_r.
    destruct fuel; cbn [executeRequest]; rewrite attempt_fails, on_catch_gives_up by lia;
      auto.
  - destruct fuel as [| fuel]; [lia |].
    cbn [executeRequest]. rewrite attempt_fails, on_catch_retries by lia.
    set (w1 := sleep _ _).
    destruct (IH fuel (n + 1) w1) as (w' & Hx & Hf & Hc); [lia | lia | lia |].
    assert (Hfetched : w_fetched w1 = (w_fetched w ++ [call])%list) by reflexivity.
    assert (Hcaches : w_caches w1 = w_caches w) by reflexivity.
    rewrite Hfetched in Hx, Hf. rewrite Hcaches in Hc.
    rewrite length_app in Hx. cbn [length] in Hx.
    replace (length (w_fetched w) + S m)%nat with (length (w_fetched w) + 1 + m)%nat by lia.
    exists w'. rewrite Hx, Hf, Hc, <- app_assoc. auto.
Qed.

(** With [maxRetries = k], when every exchange fails with an
    error that the retry policy accepts while attempts remain (and that is not
    an abort or a timeout by name), the transport is invoked exactly [k + 1]
    times and the caller receives the failure of the last exchange, wrapped as
    a [NetworkError] with its message unless it already is a
    [SmartFetchError]; that failure has no response attached, hence carries no
    attempt count. *)
Theorem retries_are_exhausted_when_the_policy_accepts (fuel : nat) (w : World) :
  0 <= maxRetries rc ->
  (Z.to_nat (maxRetries rc) <= fuel)%nat ->
  let k := Z.to_nat (maxRetries rc) in
  let failure := wrap_failure config (err (length (w_fetched w) + k)) in
  exists w',
    executeRequest fuel client transport config cacheKey 0 w = Some (Err failure, w')
    /\ w_fetched w' = (w_fetched w ++ repeat call (k + 1))%list
    /\ e_response failure = None
    /\ (e_response failure ≫= Types.retryCount) = None.
Proof.
  intros Hk Hfuel k failure.
  destruct (executeRequest_exhausts k fuel 0 w) as (w' & Hx & Hf & _);
    [lia | subst k; lia | exact Hfuel |].
  exists w'. subst failure. rewrite wrap_failure_no_response. auto.
Qed.

End RetryDecisions.

(** ** The pending-request table along one turn of a call *)

Section PendingTable.
Import Js Utils Cache Client Exec Offline Lifecycle.
Context `{JsonParse}.
Variable client : SmartFetchConfig.

Lemma pending_schedule ts s : pendingRequests (schedule ts s) = pendingRequests s.
Proof. reflexivity. Qed.

Lemma pending_settle_exec p r s : pendingRequests (settle_exec p r s) = pendingRequests s.
Proof. reflexivity. Qed.

Lemma pending_finish_call i r s : pendingRequests (finish_call i r s) = pendingRequests s.
Proof. reflexivity. Qed.

Lemma pending_fail_attempt p config cacheKey n e s :
  pendingRequests (fail_attempt client p config cacheKey n e s) = pendingRequests s.
Proof. unfold fail_attempt. now destruct (on_catch _ _ _ _). Qed.

Lemma pending_start_attempt p config cacheKey n s :
  pendingRequests (start_attempt client p config cacheKey n s) = pendingRequests s.
Proof.
  unfold start_attempt. destruct (prepare _ _); [reflexivity |].
  apply pending_fail_attempt.
Qed.

(** The error path of [request] leaves the table as it is. *)
Lemma failure_path_keeps_the_table i e s :
  calls s !! i = Some (AtError e) ->
  pendingRequests (resume_call client i s) = pendingRequests s
  /\ calls (resume_call client i s) !! i = Some (Done (Err e)).
Proof.
  intros Hc. unfold resume_call. rewrite Hc. split; [reflexivity |].
  cbn. apply list_lookup_insert_eq. now apply lookup_lt_Some in Hc.
Qed.

(** The success path removes the entry of the fingerprint. *)
Lemma success_path_deregisters i config cacheKey response s :
  calls s !! i = Some (AtPost config cacheKey response) ->
  not_false (deduplicate config) = true ->
  pendingRequests (resume_call client i s) = delete cacheKey (pendingRequests s).
Proof. intros Hc Hd. unfold resume_call. now rewrite Hc, Hd. Qed.

(** In one turn of a call an entry can only leave the table through the
    success path of the call that resumes, for that call's fingerprint. *)
Lemma entries_leave_on_success_only i s k p :
  pendingRequests s !! k = Some p ->
  pendingRequests (resume_call client i s) !! k = None ->
  exists config response, calls s !! i = Some (AtPost config k response).
Proof.
  intros Hin Hout. unfold resume_call in Hout.
  destruct (calls s !! i) as [c |] eqn:Hc; [| congruence].
  destruct c as [config | config cacheKey [entry |] | config cacheKey [u | e]
                | config cacheKey rl until | config [id | e] | config cacheKey q
                | config cacheKey response | e | q | r].
  - destruct (negb _); [cbn in Hout; congruence |].
    destruct (CacheManager_get _ _ _ _). cbn in Hout. congruence.
  - cbn in Hout. congruence.
  - destruct (if not_false (deduplicate config) then _ else _) as [q |].
    + destruct (is_settled _ _); cbn in Hout; congruence.
    + destruct (checkRateLimit _ _ _ _ _) as [[| rl wt | e] limiters];
        cbn in Hout; congruence.
  - destruct (_ && _ && _).
    + destruct (enqueue _ _ _ _). cbn in Hout. congruence.
    + cbv zeta in Hout.
      match type of Hout with
      | context [start_attempt ?c ?p ?cfg ?key ?n ?s0] =>
          pose proof (pending_start_attempt p cfg key n s0) as Hsame;
          set (s1 := start_attempt c p cfg key n s0) in *
      end.
      assert (Hk : (if not_false (deduplicate config)
                    then set_pending (<[cacheKey := length (execs s)]> (pendingRequests s1)) s1
                    else s1).(pendingRequests) !! k <> None).
      { destruct (not_false _); cbn; rewrite Hsame; cbn.
        - destruct (decide (cacheKey = k)) as [-> | Hne].
          + rewrite lookup_insert_eq. discriminate.
          + rewrite lookup_insert_ne by exact Hne. congruence.
        - congruence. }
      exfalso. apply Hk. clear Hk Hsame.
      destruct (is_settled _ _); cbn in Hout; exact Hout.
  - cbn in Hout. congruence.
  - congruence.
  - cbn in Hout. congruence.
  - cbn in Hout. congruence.
  - destruct (execs s !! q) as [[| | [response | e]] |]; cbn in Hout; congruence.
  - destruct (not_false (deduplicate config)).
    + cbn in Hout. destruct (decide (cacheKey = k)) as [-> | Hne]; [eauto |].
      rewrite lookup_delete_ne in Hout by exact Hne. congruence.
    + cbn in Hout. congruence.
  - cbn in Hout. congruence.
  - destruct (execs s !! q) as [[| | r] |]; cbn in Hout; congruence.
  - congruence.
Qed.

End PendingTable.

(** ** The request lifecycle: deduplication and the pending-request table *)

Section Deduplication.
Import Js Utils Cache Client Exec Offline Lifecycle Samples.

#[local] Existing Instance parse_stale.

Let get_test : RequestConfig := request "/api/test".
Let merged : RequestConfig := mergeRequestConfig default_client get_test.
Let fingerprint : string := generateCacheKey merged.

(** A second identical request issued while the first is in flight is handed
    the pending result: one exchange, the same response for both callers, and
    the table entry is removed once the owner has returned. *)
Lemma staggered_requests_are_deduplicated :
  let s1 := run default_client 50 [Issue [get_test]; Issue [get_test]] (boot 1000 true) in
  let s2 := step default_client 50 s1 (Settle 0 (Resolves (ok_json (JStr "users")))) in
  microtasks s1 = [] /\ in_flight fingerprint s1 = [0%nat]
  /\ calls s1 !! 1%nat = Some (Following 0)
  /\ microtasks s2 = [] /\ length (exchanges s2) = 1%nat
  /\ result_of 0 s2 = result_of 1 s2
  /\ payload_of 0 s2 = Some (JStr "users")
  /\ pendingRequests s2 !! fingerprint = None.
Proof. by_evaluation. Qed.

(** C1 on the code: two identical requests issued together, with
    deduplication enabled, both pass the pending-table lookup before either
    registers (the lookup and the registration are separated by
    [await this.checkRateLimit]): two exchanges are in flight for the one
    fingerprint, and each caller receives the response of its own exchange. *)
Theorem C1_simultaneous_requests_both_reach_the_transport :
  let s1 := run default_client 50 [Issue [get_test; get_test]] (boot 1000 true) in
  let s2 := run default_client 50
              [Settle 0 (Resolves (ok_json (JStr "first")));
               Settle 1 (Resolves (ok_json (JStr "second")))] s1 in
  deduplicate merged = Some true
  /\ microtasks s1 = []
  /\ in_flight fingerprint s1 = [0%nat; 1%nat]
  /\ length (exchanges s1) = 2%nat
  /\ microtasks s2 = []
  /\ payload_of 0 s2 = Some (JStr "first")
  /\ payload_of 1 s2 = Some (JStr "second")
  /\ result_of 0 s2 <> result_of 1 s2.
Proof. by_evaluation. Qed.

(** On success the owner removes its entry. *)
Lemma settled_success_is_deregistered :
  let s1 := run default_client 50 [Issue [get_test]] (boot 1000 true) in
  let s2 := step default_client 50 s1 (Settle 0 (Resolves (ok_json (JStr "users")))) in
  pendingRequests s1 !! fingerprint = Some 0%nat
  /\ microtasks s2 = []
  /\ payload_of 0 s2 = Some (JStr "users")
  /\ pendingRequests s2 !! fingerprint = None.
Proof. by_evaluation. Qed.

(** C2 on the code: when the owning attempt fails, the [catch] block of
    [request] rethrows without touching the table; the rejected entry stays
    registered, and a later identical request is handed that rejection
    without any exchange of its own. *)
Theorem C2_rejected_entry_stays_registered :
  let failure := NetworkError "Network error" merged in
  let s1 := run default_client 50
              [Issue [get_test]; Settle 0 (Rejects network_failure)] (boot 1000 true) in
  let s2 := step default_client 50 s1 (Issue [get_test]) in
  microtasks s1 = []
  /\ result_of 0 s1 = Some (Err failure)
  /\ in_flight fingerprint s1 = []
  /\ pendingRequests s1 !! fingerprint = Some 0%nat
  /\ microtasks s2 = []
  /\ length (exchanges s2) = 1%nat
  /\ result_of 1 s2 = Some (Err failure)
  /\ pendingRequests s2 !! fingerprint = Some 0%nat.
Proof. by_evaluation. Qed.

End Deduplication.

(** ** The offline queue *)

Section OfflineDrain.
Import Js Utils Cache Client Exec Offline Lifecycle Samples.

#[local] Existing Instance parse_stale.

Lemma notifyListeners_replays (ls : list Listener) store :
  Forall (fun l => l = ReplayAll) ls ->
  fst (notifyListeners ls store) = Ok tt.
Proof.
  induction 1 as [| l ls -> _ IH]; [reflexivity |].
  cbn. destruct (notifyListeners ls store). cbn in IH. now subst.
Qed.

(** With the listener of [SmartFetch] and a working store, every entry of the
    snapshot is dequeued; no retry counter is ever touched. *)
Lemma process_entries_dequeues (entries : list OfflineQueueEntry) : forall q,
  q_open q = true -> Forall (fun l => l = ReplayAll) (listeners q) ->
  exists started,
    process_entries entries q
    = (Ok tt, with_store q (delete_all entries (q_store q)), started).
Proof.
  induction entries as [| entry rest IH]; intros q Hopen Hls.
  - exists []. destruct q; reflexivity.
  - cbn [process_entries]. unfold process_entry.
    pose proof (notifyListeners_replays (listeners q) (q_store q) Hls) as Hn.
    destruct (notifyListeners (listeners q) (q_store q)) as [notified started].
    cbn in Hn. subst notified. unfold dequeue. rewrite Hopen. cbn [negb].
    destruct (IH (with_store q (store_delete (oq_id entry) (q_store q))))
      as (started' & Hrest); [exact Hopen | exact Hls |].
    rewrite Hrest. eexists. reflexivity.
Qed.

Lemma delete_all_own : forall (entries store : list OfflineQueueEntry),
  (forall e, e ∈ store -> e ∈ entries) -> delete_all entries store = [].
Proof.
  induction entries as [| a rest IH]; intros store Hsub.
  - destruct store as [| e store]; [reflexivity |].
    specialize (Hsub e ltac:(left)). inversion Hsub.
  - cbn. apply IH. intros e He.
    unfold store_delete in He. apply list_elem_of_filter in He as [Hid He].
    specialize (Hsub e He). apply elem_of_cons in Hsub as [-> | Hin]; [| exact Hin].
    rewrite String.eqb_refl in Hid. discriminate.
Qed.

(** The drain empties the store whatever becomes of the replays it started. *)
Lemma processQueue_empties_the_store q :
  q_open q = true -> isProcessing q = false ->
  Forall (fun l => l = ReplayAll) (listeners q) ->
  exists started,
    processQueue true q = (Ok tt, set_processing false (with_store q []), started).
Proof.
  intros Hopen Hidle Hls. unfold processQueue. rewrite Hidle. cbn [orb negb].
  unfold getAll. cbn [set_processing q_open]. rewrite Hopen. cbn [negb].
  destruct (process_entries_dequeues (q_store q) (set_processing true q) Hopen Hls)
    as (started & Hp).
  cbn [set_processing q_store] in Hp |- *. rewrite Hp.
  rewrite delete_all_own by auto. exists started. reflexivity.
Qed.

(** C9 on the code.  A request issued while offline is enqueued, causes no
    exchange, and fails with a [NetworkError] whose message says it was
    queued.  When connectivity returns the drain notifies its listener and
    dequeues the entry at once; the replay that was started then fails at the
    transport, and the entry is gone: it was not kept for another attempt and
    its retry counter was never incremented. *)
Theorem C9_drain_drops_an_entry_whose_replay_fails :
  let post := with_body (JObj [("event", JStr "click")])
                (with_method POST (request "/api/analytics")) in
  let merged := mergeRequestConfig default_client post in
  let s1 := run default_client 50 [Connectivity false; Issue [post]] (boot 1000 true) in
  let s2 := step default_client 50 s1 (Connectivity true) in
  let s3 := step default_client 50 s2 (Settle 0 (Rejects network_failure)) in
  (* offline: queued, not sent, failed at once *)
  microtasks s1 = []
  /\ exchanges s1 = []
  /\ map oq_config (q_store (offlineQueue s1)) = [merged]
  /\ map oq_retryCount (q_store (offlineQueue s1)) = [0]
  /\ result_of 0 s1
     = Some (Err (NetworkError "Request queued for offline processing" merged))
  (* online again: dequeued before the replay has settled *)
  /\ q_store (offlineQueue s2) = []
  /\ length (in_flight (generateCacheKey merged) s2) = 1%nat
  (* the replay fails; nothing is persisted again *)
  /\ microtasks s3 = []
  /\ result_of 1 s3 = Some (Err (NetworkError "Network error" merged))
  /\ q_store (offlineQueue s3) = [].
Proof. by_evaluation. Qed.

End OfflineDrain.

(** ** The theorems at concrete inputs *)

Section Instances.
Import Js Utils Cache Client Exec Offline Lifecycle Samples.




Let flaky : RequestConfig :=
  mergeRequestConfig default_client (with_retry (retry_anything 2) (request "/api/test")).

(** With [maxRetries = 2] and a predicate that accepts every failure, the
    transport is invoked three times and the caller receives a
    [NetworkError] built from the message and the configuration alone; no
    response is attached to it, so the only field that could hold an attempt
    count, [error.response.retryCount], is absent. *)
Lemma failure_carries_no_attempt_count :
  exists e w',
    executeRequest 2 default_client always_down flaky "GET|/api/test" 0 world0
    = Some (Err e, w')
    /\ length (w_fetched w') = 3%nat
    /\ e = NetworkError "Network error" flaky
    /\ (e_response e ≫= Types.retryCount) <> Some 2.
Proof.
  eexists. eexists. split; [vm_compute; reflexivity |].
  repeat split. discriminate.
Qed.

Lemma retries_are_exhausted_when_the_policy_accepts_example :
  exists w',
    executeRequest 2 default_client always_down flaky "GET|/api/test" 0 world0
    = Some (Err (NetworkError "Network error" flaky), w')
    /\ length (w_fetched w') = 3%nat.
Proof.
  assert (Haccepted : forall (i : nat) (n : Z),
            0 <= n < maxRetries (retry_anything 2) ->
            shouldRetry (thrown network_failure) n (retry_anything 2) = true).
  { intros i n Hn. unfold shouldRetry. cbn in *.
    destruct (Z.leb_spec 2 n); [lia | reflexivity]. }
  destruct (retries_are_exhausted_when_the_policy_accepts default_client always_down flaky
              "GET|/api/test"
              (retry_anything 2) ("/api/test",
                 {| fo_method := GET; fo_headers := ∅; fo_body := None |})
              (fun _ => thrown network_failure)
              eq_refl eq_refl
              (fun _ _ _ _ => eq_refl) (fun _ => eq_refl) (fun _ => eq_refl)
              Haccepted 2%nat world0 ltac:(cbn; lia) ltac:(cbn; lia))
    as (w' & Hx & Hf & _).
  exists w'. split; [exact Hx | now rewrite Hf].
Defined.

(** C4 fails on its own scenario, the one of the test-suite ("should not
    retry beyond max retries"): [{ maxRetries: k, delay: 10 }] and a transport
    that always rejects with [new Error('Network error')].  The policy is
    consulted on the raw rejection, before it is wrapped as a
    [NetworkError]; the default policy does not accept the raw [Error],
    though it would accept the [NetworkError] it becomes, and the request
    gives up after a single exchange and without a sleep, whatever [k]. *)
Theorem C4_network_failure_is_given_up_after_one_exchange (k : Z) (fuel : nat) :
  let config :=
    mergeRequestConfig default_client (with_retry (retry_by_default k) (request "/api/test")) in
  exists w',
    executeRequest fuel default_client always_down config "GET|/api/test" 0 world0
    = Some (Err (NetworkError "Network error" config), w')
    /\ length (w_fetched w') = 1%nat /\ w_slept w' = []
    /\ getRetryConfig default_client config = Some (retry_by_default k)
    /\ shouldRetry (thrown network_failure) 0 (retry_by_default k) = false
    /\ (0 < k -> shouldRetry (NetworkError "Network error" config) 0 (retry_by_default k) = true).
Proof.
  intros config.
  assert (Hraw : shouldRetry (thrown network_failure) 0 (retry_by_default k) = false).
  { unfold shouldRetry. cbn. now destruct (k <=? 0). }
  assert (Hattempt : exists w',
             attempt default_client always_down config "GET|/api/test" 0 world0
             = (Err (thrown network_failure), w')
             /\ length (w_fetched w') = 1%nat /\ w_slept w' = []).
  { eexists. split; [vm_compute; reflexivity | split; reflexivity]. }
  destruct Hattempt as (w' & Ha & Hf & Hs).
  assert (Hcatch : on_catch default_client config 0 (thrown network_failure)
                   = Rethrow (NetworkError "Network error" config)).
  { unfold on_catch.
    change (getRetryConfig default_client config) with (Some (retry_by_default k)).
    cbv beta iota. rewrite Hraw. reflexivity. }
  exists w'. repeat apply conj; auto.
  - destruct fuel; cbn [executeRequest]; now rewrite Ha, Hcatch.
  - intros Hk. unfold shouldRetry. cbn.
    destruct (Z.leb_spec k 0); [lia | reflexivity].
Qed.

Let checked : RequestConfig :=
  mergeRequestConfig default_client
    (with_validateResponse (fun _ => Err schema_mismatch)
       (with_retry (retry_anything 1) (request "/api/test"))).

(** C5, as stated, fails for validation failures: with a retry predicate that
    accepts every error, a response that fails schema validation is fetched
    again (two exchanges for [maxRetries = 1], with the back-off slept in
    between) before the validation error reaches the caller. *)
Lemma C5_validation_failure_is_retried :
  on_catch default_client checked 0 (ValidationError "Response validation failed" checked)
  = RetryAfter 10
  /\ exists w',
       executeRequest 1 default_client (always_ok (JStr "payload")) checked
         "GET|/api/test" 0 world0
       = Some (Err (ValidationError "Response validation failed" checked), w')
       /\ length (w_fetched w') = 2%nat
       /\ w_slept w' = [10].
Proof.
  split; [reflexivity |].
  eexists. split; [vm_compute; reflexivity | split; reflexivity].
Qed.

(** An abort is not retried even then. *)
Lemma abort_is_terminal :
  exists w',
    executeRequest 1 default_client (fun _ => Rejects aborted) checked "GET|/api/test" 0 world0
    = Some (Err (AbortError "Request aborted" checked), w')
    /\ length (w_fetched w') = 1%nat /\ w_slept w' = [].
Proof. eexists. split; [vm_compute; reflexivity | split; reflexivity]. Qed.

Let cached_get : RequestConfig :=
  mergeRequestConfig default_client
    (with_cache {| cc_strategy := memory; cc_ttl := Some 60000; cc_key := None;
                   cc_invalidateOn := None |} (request "/x")).

(** A failed and a successful request with caching enabled: only the second
    writes, under the fingerprint, stamped with the clock. *)
Lemma cache_written_on_success_only :
  (exists e w',
     executeRequest 0 default_client always_down cached_get "GET|/x" 0 world0
     = Some (Err e, w')
     /\ w_caches w' = w_caches world0)
  /\ (exists r w',
        executeRequest 0 default_client (always_ok (JStr "payload")) cached_get "GET|/x" 0 world0
        = Some (Ok r, w')
        /\ cm_memory (w_caches w') !! "GET|/x"
           = Some {| ce_data := JStr "payload"; ce_timestamp := 1000;
                     ce_ttl := Some 60000; ce_key := "GET|/x" |}).
Proof.
  split.
  - eexists. eexists. split; [vm_compute; reflexivity | reflexivity].
  - eexists. eexists. split; [vm_compute; reflexivity | reflexivity].
Qed.

End Instances.

(** * Further properties of the code *)

(** ** The retry engine *)

Section RetryEngine.
Import Js Utils Cache Client Exec.

Variable client : SmartFetchConfig.
Variable transport : nat -> Outcome.
Variable config : RequestConfig.
Variable cacheKey : string.

(** The back-off grows with the attempt number and respects the ceiling.
    The statement is for the inputs on which the arithmetic of the code, which
    is on doubles, is exact: an integer base delay and an integer multiplier
    (2 when none is given, or when 0 is given) with the largest power and the
    largest product below [2 ^ 53], and an integer [maxDelay] below [2 ^ 53].
    There, for a non-negative base delay and a multiplier of at least 1, the
    delay of an earlier attempt never exceeds that of a later one; a non-zero
    [maxDelay] bounds every delay; and without one the delay is exactly
    [delay * backoff ^ retryCount]. *)
Theorem calculateRetryDelay_grows_and_is_capped (rc : RetryConfig) (n m : Z) :
  let b := if truthy_num (backoff rc) then default 2 (backoff rc) else 2 in
  0 <= delay rc -> 1 <= b -> 0 <= n <= m ->
  b ^ m < 2 ^ 53 -> delay rc * b ^ m < 2 ^ 53 ->
  (forall M, maxDelay rc = Some M -> 0 <= M < 2 ^ 53) ->
  calculateRetryDelay n rc <= calculateRetryDelay m rc
  /\ calculateRetryDelay m rc < 2 ^ 53
  /\ (forall M, maxDelay rc = Some M -> M <> 0 -> calculateRetryDelay n rc <= M)
  /\ (truthy_num (maxDelay rc) = false -> calculateRetryDelay n rc = delay rc * b ^ n).
Proof.
  intros b Hd Hb Hnm Hpow53 Hmul53 Hcap53. unfold calculateRetryDelay. fold b.
  assert (Hpow : delay rc * b ^ n <= delay rc * b ^ m).
  { apply Z.mul_le_mono_nonneg_l; [exact Hd |]. apply Z.pow_le_mono_r; lia. }
  repeat apply conj.
  - destruct (truthy_num (maxDelay rc)); [| exact Hpow].
    apply Z.min_le_compat_r. exact Hpow.
  - destruct (truthy_num (maxDelay rc)); [| exact Hmul53].
    eapply Z.le_lt_trans; [apply Z.le_min_l | exact Hmul53].
  - intros M HM Hnz. rewrite HM. cbn.
    destruct (Z.eqb_spec M 0); [contradiction |]. cbn. apply Z.le_min_r.
  - intros Hcap. now rewrite Hcap.
Qed.

Lemma calculateRetryDelay_grows_and_is_capped_witness :
  let rc := {| maxRetries := 5; delay := 1000; maxDelay := Some 10000; backoff := Some 0;
               retryOn := None; retryCondition := None |} in
  calculateRetryDelay 1 rc <= calculateRetryDelay 4 rc
  /\ calculateRetryDelay 4 rc <= 10000.
Proof.
  assert (Hcap53 : forall M, Some 10000 = Some M -> 0 <= M < 2 ^ 53).
  { intros M HM. injection HM as <-. lia. }
  pose proof (calculateRetryDelay_grows_and_is_capped
                {| maxRetries := 5; delay := 1000; maxDelay := Some 10000;
                   backoff := Some 0; retryOn := None; retryCondition := None |}
                1 4 ltac:(cbn; lia) ltac:(cbn; lia) ltac:(lia)
                ltac:(cbn; lia) ltac:(cbn; lia) Hcap53) as (Hgrow & _ & _ & _).
  pose proof (calculateRetryDelay_grows_and_is_capped
                {| maxRetries := 5; delay := 1000; maxDelay := Some 10000;
                   backoff := Some 0; retryOn := None; retryCondition := None |}
                4 4 ltac:(cbn; lia) ltac:(cbn; lia) ltac:(lia)
                ltac:(cbn; lia) ltac:(cbn; lia) Hcap53) as (_ & _ & Hcap & _).
  split; [exact Hgrow | apply (Hcap 10000); [reflexivity | lia]].
Defined.


(** A retry configuration is in force exactly when the request or the client
    supplies a truthy one; the request's wins when it is truthy, a bare
    [true] stands for 3 retries, 1000 ms, doubling; and a request that says
    [retry: false] still inherits the client's configuration. *)
Theorem getRetryConfig_resolution :
  (getRetryConfig client config = None
   <-> truthy_orbool (retry config) = false /\ truthy_orbool (client_retry client) = false)
  /\ (forall rc, retry config = Obj rc -> getRetryConfig client config = Some rc)
  /\ (retry config = Flag true ->
      getRetryConfig client config
      = Some {| maxRetries := 3; delay := 1000; maxDelay := None; backoff := Some 2;
                retryOn := None; retryCondition := None |})
  /\ (forall rc, retry config = Flag false -> client_retry client = Obj rc ->
      getRetryConfig client config = Some rc).
Proof.
  unfold getRetryConfig. split; [| split; [| split]].
  - destruct (retry config) as [| [] | rc], (client_retry client) as [| [] | rc'];
      cbn; split; intros Hx; try discriminate; try tauto; destruct Hx; discriminate.
  - intros rc ->. reflexivity.
  - intros ->. reflexivity.
  - intros rc -> ->. reflexivity.
Qed.

(** *** What the [catch] block can decide *)

Lemma on_catch_retry_inv n error d :
  on_catch client config n error = RetryAfter d ->
  exists rc, getRetryConfig client config = Some rc
             /\ n < maxRetries rc /\ d = calculateRetryDelay n rc.
Proof.
  unfold on_catch. intros Hc.
  destruct (_ && String.eqb _ _); [discriminate |].
  destruct (_ && includes _ _); [discriminate |].
  destruct (getRetryConfig client config) as [rc |]; [| discriminate].
  destruct (shouldRetry error n rc) eqn:Hs; [| discriminate].
  exists rc. repeat split; [| congruence].
  unfold shouldRetry in Hs. destruct (Z.leb_spec (maxRetries rc) n); [discriminate | lia].
Qed.

Lemma wrap_failure_is_SmartFetchError error :
  instanceof_SmartFetchError (wrap_failure config error) = true.
Proof.
  unfold wrap_failure. destruct (instanceof_SmartFetchError error) eqn:Hi; cbn; auto.
Qed.

Lemma on_catch_rethrow_inv n error e :
  on_catch client config n error = Rethrow e -> instanceof_SmartFetchError e = true.
Proof.
  unfold on_catch. intros Hc.
  destruct (_ && String.eqb _ _); [now simplify_eq |].
  destruct (_ && includes _ _); [now simplify_eq |].
  destruct (getRetryConfig client config) as [rc |].
  - destruct (shouldRetry error n rc); simplify_eq. apply wrap_failure_is_SmartFetchError.
  - simplify_eq. apply wrap_failure_is_SmartFetchError.
Qed.

Lemma attempt_fetches_at_most_once n (w : World) r w1 :
  attempt client transport config cacheKey n w = (r, w1) ->
  (length (w_fetched w1) <= length (w_fetched w) + 1)%nat
  /\ w_slept w1 = w_slept w.
Proof.
  unfold attempt. intros Ha.
  destruct (prepare client config); [| simplify_eq; split; [lia | reflexivity]].
  destruct (complete _ _ _ _ _ _ _). simplify_eq. cbn.
  rewrite length_app. cbn. split; [lia | reflexivity].
Qed.

(** The retries a request may still make from attempt [n]. *)
Let budget (n : Z) : nat :=
  match getRetryConfig client config with
  | Some rc => Z.to_nat (maxRetries rc - n)
  | None => O
  end.


End RetryEngine.

Section RetryEngineInstances.
Import Js Utils Cache Client Exec.


End RetryEngineInstances.

(** ** What [executeRequest] surfaces *)

Section Surfaced.
Import Js Utils Cache Client Exec.

Variable client : SmartFetchConfig.
Variable transport : nat -> Outcome.
Variable config : RequestConfig.
Variable cacheKey : string.

(** When no custom [retryCondition] is configured (that predicate is code
    of the caller, run inside the [catch] block, and what it throws would
    leave [executeRequest] as it is), then whatever was caught, what
    [executeRequest] rejects with is an instance of [SmartFetchError]: an
    abort, a timeout, a library error rethrown as it is, or a [NetworkError]
    wrapped around anything else. *)
Theorem executeRequest_rejects_with_SmartFetchError (fuel : nat) :
  (forall rc, getRetryConfig client config = Some rc -> retryCondition rc = None) ->
  forall (n : Z) (w : World) e w',
    executeRequest fuel client transport config cacheKey n w = Some (Err e, w') ->
    instanceof_SmartFetchError e = true /\ instanceof_Error e = true.
Proof.
  intros _.
  assert (Hsub : forall e, instanceof_SmartFetchError e = true -> instanceof_Error e = true).
  { intros e. unfold instanceof_SmartFetchError, instanceof_Error.
    now destruct (ev_class (e_view e)). }
  induction fuel as [| fuel IH]; intros n w e w' Hx; cbn [executeRequest] in Hx;
    destruct (attempt _ _ _ _ _ _) as [[r | error] w1]; simplify_eq;
    destruct (on_catch client config n error) as [e1 | d] eqn:Hc; simplify_eq;
    try (apply on_catch_rethrow_inv in Hc; auto).
  eapply IH. exact Hx.
Qed.

Lemma attempt_needs_prepare n (w : World) pe :
  prepare client config = Err pe ->
  attempt client transport config cacheKey n w = (Err pe, w).
Proof. intros Hp. unfold attempt. now rewrite Hp. Qed.

Lemma attempt_ok n (w : World) r w1 :
  attempt client transport config cacheKey n w = (Ok r, w1) ->
  Types.retryCount r = Some n
  /\ length (w_fetched w1) = (length (w_fetched w) + 1)%nat
  /\ w_slept w1 = w_slept w.
Proof.
  unfold attempt. intros Ha.
  destruct (prepare client config) as [call | pe]; [| simplify_eq].
  destruct (complete _ _ _ _ _ _ _) as [r' cm] eqn:Hc. simplify_eq.
  apply complete_success in Hc as (_ & _ & Hn & _). cbn.
  rewrite length_app. cbn. auto.
Qed.

Lemma attempt_fetches_once n (w : World) call r w1 :
  prepare client config = Ok call ->
  attempt client transport config cacheKey n w = (r, w1) ->
  length (w_fetched w1) = (length (w_fetched w) + 1)%nat /\ w_slept w1 = w_slept w.
Proof.
  unfold attempt. intros Hp Ha. rewrite Hp in Ha.
  destruct (complete _ _ _ _ _ _ _). simplify_eq. cbn. rewrite length_app. cbn. auto.
Qed.

(** A request that cannot be prepared never succeeds. *)
Lemma executeRequest_needs_prepare pe :
  prepare client config = Err pe ->
  forall fuel n (w : World) r w',
    executeRequest fuel client transport config cacheKey n w <> Some (Ok r, w').
Proof.
  intros Hp. induction fuel as [| fuel IH]; intros n w r w' Hx;
    cbn [executeRequest] in Hx; rewrite (attempt_needs_prepare n w pe Hp) in Hx;
    destruct (on_catch _ _ _ _); simplify_eq.
  eapply IH. exact Hx.
Qed.

(** The [retryCount] of a response is the number of attempts that failed
    before it: starting at attempt 0, it equals the number of back-off sleeps
    and is one less than the number of exchanges the request made. *)
Theorem response_retryCount_counts_failed_attempts (fuel : nat) :
  forall (n : Z) (w : World) r w',
    executeRequest fuel client transport config cacheKey n w = Some (Ok r, w') ->
    exists j : nat,
      Types.retryCount r = Some (n + Z.of_nat j)
      /\ length (w_slept w') = (length (w_slept w) + j)%nat
      /\ length (w_fetched w') = (length (w_fetched w) + j + 1)%nat.
Proof.
  destruct (prepare client config) as [call | pe] eqn:Hp.
  2: { intros n w r w' Hx. now apply (executeRequest_needs_prepare pe Hp) in Hx. }
  induction fuel as [| fuel IH]; intros n w r w' Hx; cbn [executeRequest] in Hx;
    destruct (attempt client transport config cacheKey n w) as [[r1 | error] w1] eqn:Ha;
    simplify_eq.
  - apply attempt_ok in Ha as (Hn & Hf & Hs). exists O.
    rewrite Hn, Hf, Hs, Z.add_0_r. repeat split; lia.
  - destruct (on_catch _ _ _ _); simplify_eq.
  - apply attempt_ok in Ha as (Hn & Hf & Hs). exists O.
    rewrite Hn, Hf, Hs, Z.add_0_r. repeat split; lia.
  - destruct (on_catch client config n error) as [e1 | d]; simplify_eq.
    apply (attempt_fetches_once n w call _ _ Hp) in Ha as [Hf Hs].
    apply IH in Hx as (j & Hn & Hs' & Hf').
    unfold sleep in Hs', Hf'. cbn [w_slept w_fetched] in Hs', Hf'.
    rewrite length_app in Hs'. cbn [length] in Hs'. rewrite Hs in Hs'.
    exists (S j). rewrite Hn. repeat split; [f_equal; lia | lia | lia].
Qed.

End Surfaced.


Section SurfacedInstances.
Import Js Utils Cache Client Exec.

Lemma executeRequest_rejects_with_SmartFetchError_witness :
  let config :=
    mergeRequestConfig default_client
      (Samples.with_retry (Samples.retry_by_default 2) (Samples.request "/api/test")) in
  exists e w',
    executeRequest 2 default_client Samples.always_down config "GET|/api/test" 0 Samples.world0
    = Some (Err e, w')
    /\ instanceof_SmartFetchError e = true.
Proof.
  cbv zeta. eexists. eexists. split; [vm_compute; reflexivity |].
  eapply (executeRequest_rejects_with_SmartFetchError default_client Samples.always_down
            (mergeRequestConfig default_client
               (Samples.with_retry (Samples.retry_by_default 2) (Samples.request "/api/test")))
            "GET|/api/test" 2
            ltac:(intros rc Hrc; injection Hrc as <-; reflexivity)
            0 Samples.world0).
  vm_compute. reflexivity.
Defined.

End SurfacedInstances.

(** ** Failures the retry engine never retries *)

Section NeverRetried.
Import Js Utils Cache Client Exec.

Variable client : SmartFetchConfig.
Variable transport : nat -> Outcome.
Variable config : RequestConfig.
Variable cacheKey : string.

Lemma prefix_head c n h :
  String.prefix (String c n) h = true -> exists h', h = String c h'.
Proof.
  destruct h as [| c' h']; cbn; [discriminate |].
  destruct (ascii_dec c c') as [-> | _]; [eauto | discriminate].
Qed.

(** A needle can only be found in a haystack that holds its first character. *)
Lemma includes_head c n h :
  includes h (String c n) = true -> In c (list_ascii_of_string h).
Proof.
  induction h as [| c' h IH]; intros Hi.
  - cbn in Hi. discriminate.
  - cbn [includes] in Hi. apply orb_true_iff in Hi as [Hp | Hr].
    + apply prefix_head in Hp as (h' & Heq). simplify_eq. now left.
    + right. auto.
Qed.

Lemma pretty_N_char_not_t x : pretty_N_char x <> "t"%char.
Proof. unfold pretty_N_char. repeat case_match; discriminate. Qed.

Lemma pretty_N_go_no_t x : forall s,
  ~ In "t"%char (list_ascii_of_string s) ->
  ~ In "t"%char (list_ascii_of_string (pretty_N_go x s)).
Proof.
  induction (N.lt_wf_0 x) as [x _ IH]; intros s Hs.
  destruct (decide (x = 0)%N) as [-> | Hx]; [now rewrite pretty_N_go_0 |].
  rewrite pretty_N_go_step by lia. apply IH; [apply N.div_lt; lia |].
  cbn. intros [Hc | Hin]; [| contradiction].
  now apply (pretty_N_char_not_t (x mod 10)%N).
Qed.

Lemma pretty_Z_no_t (z : Z) : ~ In "t"%char (list_ascii_of_string (pretty z)).
Proof.
  assert (HN : forall p : positive, ~ In "t"%char (list_ascii_of_string (pretty p))).
  { intros p. unfold pretty, pretty_positive, pretty, pretty_N.
    destruct (decide _); [discriminate |]. apply pretty_N_go_no_t. cbn. tauto. }
  destruct z as [| p | p]; unfold pretty, pretty_Z.
  - cbn. intros [Hc | []]. discriminate.
  - apply HN.
  - cbn. intros [Hc | Hin]; [discriminate | now apply (HN p)].
Qed.

(** The message of a status failure never reads as a timeout. *)
Lemma status_message_is_no_timeout (s : Z) :
  includes ("Request failed with status " +:+ pretty s) "timeout" = false.
Proof.
  destruct (includes (pretty s) "timeout") eqn:Hi.
  - apply includes_head in Hi. now apply pretty_Z_no_t in Hi.
  - cbv beta iota fix delta [String.append]. cbn. exact Hi.
Qed.

(** A failure whose message mentions a timeout is rethrown as a
    [TimeoutError] at once: it is never retried, whatever the retry
    configuration accepts and however many attempts remain. *)
Theorem timeout_is_never_retried (n : Z) :
  (forall error,
     instanceof_Error error = true ->
     ev_name (e_view error) <> "AbortError" ->
     includes (ev_message (e_view error)) "timeout" = true ->
     on_catch client config n error = Rethrow (TimeoutError "Request timeout" config))
  /\ (forall fuel (w : World) call v,
        prepare client config = Ok call ->
        transport (length (w_fetched w)) = Rejects v ->
        ev_class v <> NonError -> ev_name v <> "AbortError" ->
        includes (ev_message v) "timeout" = true ->
        executeRequest fuel client transport config cacheKey n w
        = Some (Err (TimeoutError "Request timeout" config),
                {| w_now := w_now w; w_caches := w_caches w;
                   w_fetched := (w_fetched w ++ [call])%list; w_slept := w_slept w |})).
Proof.
  assert (Hcatch : forall error,
            instanceof_Error error = true ->
            ev_name (e_view error) <> "AbortError" ->
            includes (ev_message (e_view error)) "timeout" = true ->
            on_catch client config n error = Rethrow (TimeoutError "Request timeout" config)).
  { intros error Hi Hn Hm. unfold on_catch. rewrite Hi, Hm. cbn [andb].
    destruct (String.eqb_spec (ev_name (e_view error)) "AbortError"); [contradiction |].
    reflexivity. }
  split; [exact Hcatch |].
  intros fuel w call v Hp Ht Hc Hn Hm.
  assert (Hc' : on_catch client config n (thrown v)
                = Rethrow (TimeoutError "Request timeout" config)).
  { apply Hcatch; [| exact Hn | exact Hm].
    unfold instanceof_Error. cbn. now destruct (ev_class v). }
  destruct fuel; cbn [executeRequest];
    now rewrite (attempt_rejected client transport config cacheKey n w call v Hp Ht), Hc'.
Qed.

(** Without a custom predicate nothing accepts a failure that has no response
    status attached and is no [NetworkError] or [TimeoutError] instance. *)
Lemma shouldRetry_without_predicate error n rc :
  retryCondition rc = None ->
  ev_status (view_of error) = None ->
  instanceof_NetworkError error = false -> instanceof_TimeoutError error = false ->
  shouldRetry error n rc = false.
Proof.
  intros Hc Hs Hn Ht. unfold shouldRetry. rewrite Hc, Hs, Hn, Ht. cbn.
  destruct (_ <=? _); [reflexivity |]. now destruct (retryOn rc).
Qed.

Lemma on_catch_without_predicate error n :
  (forall rc, getRetryConfig client config = Some rc -> retryCondition rc = None) ->
  instanceof_Error error && String.eqb (ev_name (e_view error)) "AbortError" = false ->
  instanceof_Error error && includes (ev_message (e_view error)) "timeout" = false ->
  ev_status (view_of error) = None ->
  instanceof_NetworkError error = false -> instanceof_TimeoutError error = false ->
  on_catch client config n error = Rethrow (wrap_failure config error).
Proof.
  intros Hrc Ha Ht Hs Hn Hto. unfold on_catch. rewrite Ha, Ht.
  destruct (getRetryConfig client config) as [rc |] eqn:Hg; [| reflexivity].
  now rewrite (shouldRetry_without_predicate error n rc (Hrc rc eq_refl) Hs Hn Hto).
Qed.

(** A response whose status fails validation is never retried unless a custom
    predicate asks for it: under the default policy and under any [retryOn]
    allow-list (the status is not attached to the error that the policy
    inspects), the request fails after that one exchange with the
    [SmartFetchError] that names the status. *)
Theorem status_failure_is_not_retried_without_predicate (fuel : nat) (n : Z) (w : World)
    call raw :
  (forall rc, getRetryConfig client config = Some rc -> retryCondition rc = None) ->
  prepare client config = Ok call ->
  transport (length (w_fetched w)) = Resolves raw ->
  default default_validateStatus (validateStatus client) (rr_status raw) = false ->
  executeRequest fuel client transport config cacheKey n w
  = Some (Err (SmartFetchError ("Request failed with status " +:+ pretty (rr_status raw))
                 config (Some ("HTTP_" +:+ pretty (rr_status raw)))),
          {| w_now := w_now w; w_caches := w_caches w;
             w_fetched := (w_fetched w ++ [call])%list; w_slept := w_slept w |}).
Proof.
  intros Hrc Hp Ht Hv.
  set (failure := SmartFetchError _ _ _).
  assert (Ha : attempt client transport config cacheKey n w
               = (Err failure,
                  {| w_now := w_now w; w_caches := w_caches w;
                     w_fetched := (w_fetched w ++ [call])%list; w_slept := w_slept w |})).
  { unfold attempt. rewrite Hp, Ht. unfold complete. now rewrite Hv. }
  assert (Hc : on_catch client config n failure = Rethrow failure).
  { rewrite on_catch_without_predicate; try reflexivity; [exact Hrc |].
    subst failure. cbn [SmartFetchError mkError e_view ev_message instanceof_Error ev_class andb].
    apply status_message_is_no_timeout. }
  destruct fuel; cbn [executeRequest]; now rewrite Ha, Hc.
Qed.

(** A rejection of the transport (a plain [Error], or any thrown value that
    carries no response status and is no library error) is never retried
    unless a custom predicate asks for it: the policy sees the raw rejection,
    before it is wrapped, so neither the default policy nor an allow-list
    accepts it, and the request fails after that one exchange with the
    wrapping [NetworkError]. *)
Theorem rejection_is_not_retried_without_predicate (fuel : nat) (n : Z) (w : World) call v :
  (forall rc, getRetryConfig client config = Some rc -> retryCondition rc = None) ->
  prepare client config = Ok call ->
  transport (length (w_fetched w)) = Rejects v ->
  ev_class v = PlainError \/ ev_class v = NonError ->
  ev_status v = None ->
  ev_name v <> "AbortError" -> includes (ev_message v) "timeout" = false ->
  executeRequest fuel client transport config cacheKey n w
  = Some (Err (NetworkError (if bool_decide (ev_class v = PlainError)
                             then ev_message v else "Network request failed") config),
          {| w_now := w_now w; w_caches := w_caches w;
             w_fetched := (w_fetched w ++ [call])%list; w_slept := w_slept w |}).
Proof.
  intros Hrc Hp Ht Hclass Hs Hname Hmsg.
  assert (Hc : on_catch client config n (thrown v) = Rethrow (wrap_failure config (thrown v))).
  { apply on_catch_without_predicate; try exact Hrc; try exact Hs.
    - cbn. destruct (String.eqb_spec (ev_name v) "AbortError"); [contradiction |].
      apply andb_false_r.
    - cbn. rewrite Hmsg. apply andb_false_r.
    - unfold instanceof_NetworkError. cbn. apply bool_decide_eq_false.
      destruct Hclass as [-> | ->]; discriminate.
    - unfold instanceof_TimeoutError. cbn. apply bool_decide_eq_false.
      destruct Hclass as [-> | ->]; discriminate. }
  assert (Hw : wrap_failure config (thrown v)
               = NetworkError (if bool_decide (ev_class v = PlainError)
                               then ev_message v else "Network request failed") config).
  { unfold wrap_failure, instanceof_SmartFetchError, instanceof_Error. cbn.
    destruct Hclass as [-> | ->]; reflexivity. }
  destruct fuel; cbn [executeRequest];
    now rewrite (attempt_rejected client transport config cacheKey n w call v Hp Ht), Hc, Hw.
Qed.

End NeverRetried.

Section RetryInstances.
Import Js Utils Cache Client Exec Samples MoreSamples.

(** Two failures that a predicate accepts, then a 200: the response says
    [retryCount = 2], after two sleeps and three exchanges. *)
Lemma response_retryCount_counts_failed_attempts_witness :
  exists r w',
    executeRequest 3 default_client (recovers_on_third (JStr "ok"))
      (get_with_retry (retry_anything 3)) "GET|/api/test" 0 world0 = Some (Ok r, w')
    /\ Types.retryCount r = Some 2
    /\ w_slept w' = [10; 20]
    /\ length (w_fetched w') = 3%nat.
Proof.
  eexists. eexists. split; [vm_compute; reflexivity |].
  destruct (response_retryCount_counts_failed_attempts default_client
              (recovers_on_third (JStr "ok")) (get_with_retry (retry_anything 3))
              "GET|/api/test" 3 0 world0 _ _ ltac:(vm_compute; reflexivity))
    as (j & Hn & Hs & Hf).
  repeat split.
Defined.

(** A 503 under [retryOn: [..., 503, ...]]: one exchange, no sleep. *)
Lemma status_failure_is_not_retried_without_predicate_witness :
  executeRequest 3 default_client (fun _ => Resolves unavailable)
    (get_with_retry retry_on_statuses) "GET|/api/test" 0 world0
  = Some (Err (SmartFetchError "Request failed with status 503"
                 (get_with_retry retry_on_statuses) (Some "HTTP_503")),
          {| w_now := 1000; w_caches := w_caches world0;
             w_fetched := [plain_call]; w_slept := [] |}).
Proof.
  apply (status_failure_is_not_retried_without_predicate default_client
           (fun _ => Resolves unavailable) (get_with_retry retry_on_statuses)
           "GET|/api/test" 3 0 world0 plain_call unavailable).
  - intros rc Hrc. vm_compute in Hrc. now simplify_eq.
  - reflexivity.
  - reflexivity.
  - reflexivity.
Defined.

(** [{ maxRetries: 2, delay: 10 }] and a transport that is down. *)
Lemma rejection_is_not_retried_without_predicate_witness :
  executeRequest 2 default_client always_down
    (get_with_retry (retry_by_default 2)) "GET|/api/test" 0 world0
  = Some (Err (NetworkError "Network error" (get_with_retry (retry_by_default 2))),
          {| w_now := 1000; w_caches := w_caches world0;
             w_fetched := [plain_call]; w_slept := [] |}).
Proof.
  apply (rejection_is_not_retried_without_predicate default_client always_down
           (get_with_retry (retry_by_default 2)) "GET|/api/test" 2 0 world0
           plain_call network_failure).
  - intros rc Hrc. vm_compute in Hrc. now simplify_eq.
  - reflexivity.
  - reflexivity.
  - left. reflexivity.
  - reflexivity.
  - discriminate.
  - reflexivity.
Defined.

Lemma timeout_is_never_retried_witness :
  executeRequest 3 default_client (fun _ => Rejects timed_out)
    (get_with_retry (retry_anything 3)) "GET|/api/test" 0 world0
  = Some (Err (TimeoutError "Request timeout" (get_with_retry (retry_anything 3))),
          {| w_now := w_now world0; w_caches := w_caches world0;
             w_fetched := (w_fetched world0 ++ [plain_call])%list;
             w_slept := w_slept world0 |}).
Proof.
  apply (proj2 (timeout_is_never_retried default_client (fun _ => Rejects timed_out)
                  (get_with_retry (retry_anything 3)) "GET|/api/test" 0)
           3%nat world0 plain_call timed_out).
  - vm_compute. reflexivity.
  - reflexivity.
  - discriminate.
  - discriminate.
  - reflexivity.
Defined.

End RetryInstances.

(** ** More on the rate limiter *)

Section Buckets.
Import Client.

Variable client : SmartFetchConfig.
Variable config : RequestConfig.

(** Buckets are kept per [config.url]: a check, and the wake-up of a queued
    check, leave the bucket of every other endpoint as it was; and with no
    rate limit on the request or the client a check passes and changes
    nothing. *)
Theorem rate_limit_is_per_endpoint now0 now rl woke (limiters : gmap string Bucket) :
  (forall k, k <> url config ->
     snd (checkRateLimit client config now0 now limiters) !! k = limiters !! k
     /\ checkRateLimit_resume config rl woke limiters !! k = limiters !! k)
  /\ (rateLimit config = None -> client_rateLimit client = None ->
      checkRateLimit client config now0 now limiters = (RatePass, limiters)).
Proof.
  split.
  - intros k Hk. split.
    + unfold checkRateLimit. destruct (opt_or _ _) as [r |]; [| reflexivity].
      cbv zeta. repeat case_match; cbn [snd]; now rewrite lookup_insert_ne.
    + unfold checkRateLimit_resume. now rewrite lookup_insert_ne.
  - intros Hc Hg. unfold checkRateLimit. now rewrite Hc, Hg.
Qed.

Variable rl : RateLimitConfig.
Hypothesis Hrl : opt_or (rateLimit config) (client_rateLimit client) = Some rl.

Let R := maxRequests rl.
Let P := perMilliseconds rl.
Let key := url config.

(** A bucket never holds more than [maxRequests] tokens nor fewer than none:
    if that holds before a check it holds after it, a bucket exists from the
    first check on, a check that passes leaves room for the token it took,
    and a queued check that wakes leaves exactly [maxRequests - 1] tokens in
    a bucket stamped with the time it woke. *)
Theorem bucket_stays_within_capacity now0 now woke (limiters : gmap string Bucket) :
  1 <= R ->
  (forall b, limiters !! key = Some b -> 0 <= tokens b <= R) ->
  (exists b', snd (checkRateLimit client config now0 now limiters) !! key = Some b'
              /\ 0 <= tokens b' <= R
              /\ (fst (checkRateLimit client config now0 now limiters) = RatePass ->
                  tokens b' < R))
  /\ checkRateLimit_resume config rl woke limiters !! key
     = Some {| tokens := R - 1; lastRefill := woke |}
  /\ 0 <= R - 1 < R.
Proof.
  intros HR Hinv. split.
  - unfold checkRateLimit. rewrite Hrl. fold key. fold R.
    destruct (limiters !! key) as [[n t0] |] eqn:Hk.
    + specialize (Hinv _ eq_refl). cbn [tokens lastRefill] in *.
      destruct (Z.ltb_spec 0 ((now - t0) / perMilliseconds rl)) as [Hre | Hre];
        cbn [tokens lastRefill].
      * destruct (Z.ltb_spec (R `min` (n + (now - t0) / perMilliseconds rl * R)) 1);
          [destruct (default false _) |]; cbn [fst snd]; rewrite lookup_insert_eq;
          eexists; (split; [reflexivity |]); cbn [tokens];
          (split; [nia | intros; try discriminate; nia]).
      * destruct (Z.ltb_spec n 1); [destruct (default false _) |];
          cbn [fst snd]; rewrite lookup_insert_eq;
          eexists; (split; [reflexivity |]); cbn [tokens];
          (split; [lia | intros; try discriminate; lia]).
    + cbn [tokens lastRefill].
      destruct (Z.ltb_spec 0 ((now - now0) / perMilliseconds rl)) as [Hre | Hre];
        cbn [tokens lastRefill].
      * destruct (Z.ltb_spec (R `min` (R + (now - now0) / perMilliseconds rl * R)) 1);
          [destruct (default false _) |]; cbn [fst snd]; rewrite lookup_insert_eq;
          eexists; (split; [reflexivity |]); cbn [tokens];
          (split; [nia | intros; try discriminate; nia]).
      * destruct (Z.ltb_spec R 1); [destruct (default false _) |];
          cbn [fst snd]; rewrite lookup_insert_eq;
          eexists; (split; [reflexivity |]); cbn [tokens];
          (split; [lia | intros; try discriminate; lia]).
  - split; [| lia]. unfold checkRateLimit_resume. fold key. apply lookup_insert_eq.
Qed.

(** A check that does not pass tells how long to wait: with a positive
    interval and a clock that does not run backwards, the wait carried by the
    [RateLimitError] (or slept, when queueing) is the rest of the current
    interval, more than 0 and at most [perMilliseconds]. *)
Theorem refused_check_waits_within_one_interval now0 now (limiters : gmap string Bucket) :
  0 < P -> now0 <= now ->
  (forall b, limiters !! key = Some b -> lastRefill b <= now) ->
  match fst (checkRateLimit client config now0 now limiters) with
  | RatePass => True
  | RateSleep rl' waitTime => rl' = rl /\ 0 < waitTime <= P
  | RateReject e =>
      exists waitTime,
        e = RateLimitError "Rate limit exceeded" config waitTime /\ 0 < waitTime <= P
  end.
Proof.
  intros HP Hclock Hinv.
  unfold checkRateLimit. rewrite Hrl. fold key. fold P.
  set (limiter := match limiters !! key with Some l => l | None => _ end).
  assert (Ht0 : lastRefill limiter <= now).
  { subst limiter. destruct (limiters !! key) as [b |] eqn:Hk; [apply Hinv; reflexivity |].
    exact Hclock. }
  clearbody limiter. destruct limiter as [n t0]. cbn [tokens lastRefill] in *.
  destruct (Z.ltb_spec 0 ((now - t0) / P)) as [Hre | Hre]; cbn [tokens lastRefill].
  - destruct (_ <? 1); [| exact I].
    destruct (default false _); cbn [fst]; [split; [reflexivity | lia] |].
    eexists. split; [reflexivity | lia].
  - assert (now - t0 < P).
    { destruct (Z.lt_ge_cases (now - t0) P) as [Hlt | Hge]; [exact Hlt |].
      assert (1 <= (now - t0) / P) by (apply Z.div_le_lower_bound; lia). lia. }
    destruct (_ <? 1); [| exact I].
    destruct (default false _); cbn [fst]; [split; [reflexivity | lia] |].
    eexists. split; [reflexivity | lia].
Qed.

Lemma checks_app (l1 l2 : list (Z * Z)) : forall (limiters : gmap string Bucket),
  checks client config (l1 ++ l2) limiters
  = let '(d1, m1) := checks client config l1 limiters in
    let '(d2, m2) := checks client config l2 m1 in
    ((d1 ++ d2)%list, m2).
Proof.
  induction l1 as [| [a b] l1 IH]; intros limiters.
  - cbn. now destruct (checks client config l2 limiters).
  - cbn [checks app]. destruct (checkRateLimit client config a b limiters) as [d m].
    rewrite IH. destruct (checks client config l1 m) as [d1 m1].
    now destruct (checks client config l2 m1).
Qed.

Lemma length_repeat_pair (x : Z * Z) (r : nat) : length (repeat x r) = r.
Proof. apply repeat_length. Qed.

(** The limit is per fixed interval, not per sliding window: from a cold
    bucket with [maxRequests = r + 1], one check at [t0], [r] checks in the
    last millisecond of the interval and [r + 1] checks in the first
    millisecond of the next all pass; [2 * maxRequests - 1] requests go
    through within one millisecond. *)
Theorem burst_across_the_interval_boundary (r : nat) (t0 : Z) (limiters : gmap string Bucket) :
  R = Z.of_nat (S r) -> 0 < P ->
  limiters !! key = None ->
  let late := (t0 + P - 1, t0 + P - 1) in
  let next := (t0 + P, t0 + P) in
  fst (checks client config ((t0, t0) :: repeat late r ++ next :: repeat next r)%list limiters)
  = repeat RatePass (S r + S r).
Proof.
  intros HR HP Hcold late next.
  change ((t0, t0) :: repeat late r ++ next :: repeat next r)%list
    with (((t0, t0) :: repeat late r) ++ (next :: repeat next r))%list.
  rewrite checks_app.
  (* the first interval *)
  assert (H1 : checks client config ((t0, t0) :: repeat late r) limiters
               = (repeat RatePass (S r),
                  <[key := {| tokens := 0; lastRefill := t0 |}]> limiters)).
  { cbn [checks]. rewrite (checkRateLimit_cold client config rl Hrl _ _ _ Hcold).
    rewrite (checkRateLimit_token client config rl Hrl R t0)
      by (rewrite ?lookup_insert_eq; fold R P; auto; lia).
    rewrite insert_insert_eq.
    rewrite (checks_pass client config rl Hrl (repeat late r) (R - 1) t0).
    - rewrite insert_insert_eq, repeat_length. cbn [repeat].
      do 3 f_equal. fold R. lia.
    - apply lookup_insert_eq.
    - rewrite repeat_length. fold R. lia.
    - apply List.Forall_forall. intros x Hx. apply repeat_spec in Hx. subst x late.
      cbn [snd]. fold P. lia. }
  rewrite H1.
  (* the next interval *)
  assert (H2 : checks client config (next :: repeat next r)
                 (<[key := {| tokens := 0; lastRefill := t0 |}]> limiters)
               = (repeat RatePass (S r),
                  <[key := {| tokens := R - 1 - Z.of_nat r; lastRefill := t0 + P |}]>
                    limiters)).
  { subst next. cbn [checks].
    rewrite (refill_restarts_the_window client config rl Hrl 0 t0)
      by (rewrite ?lookup_insert_eq; fold R P; auto; lia).
    fold R. rewrite insert_insert_eq.
    rewrite (checks_pass client config rl Hrl (repeat (t0 + P, t0 + P) r) (R - 1) (t0 + P)).
    - rewrite insert_insert_eq, repeat_length. reflexivity.
    - apply lookup_insert_eq.
    - rewrite repeat_length. lia.
    - apply List.Forall_forall. intros x Hx. apply repeat_spec in Hx. subst x.
      cbn [snd]. fold P. lia. }
  rewrite H2. cbn [fst]. now rewrite <- repeat_app.
Qed.

End Buckets.

Section BucketInstances.
Import Client Samples.

Let limited : RequestConfig := with_rateLimit (two_per_second false) (request "/api/search").

Lemma bucket_stays_within_capacity_witness :
  (exists b',
     snd (checkRateLimit default_client limited 1000 1000 ∅) !! "/api/search" = Some b'
     /\ 0 <= tokens b' <= 2)
  /\ checkRateLimit_resume limited (two_per_second false) 2000 ∅ !! "/api/search"
     = Some {| tokens := 1; lastRefill := 2000 |}.
Proof.
  destruct (bucket_stays_within_capacity default_client limited (two_per_second false)
              eq_refl 1000 1000 2000 ∅ ltac:(cbn; lia)
              ltac:(intros b Hb; rewrite lookup_empty in Hb; discriminate))
    as [(b' & Hb & Hrange & _) [Hwoke _]].
  split; [exists b'; split; [exact Hb | exact Hrange] | exact Hwoke].
Defined.

Lemma refused_check_waits_within_one_interval_witness :
  match fst (checkRateLimit default_client limited 1900 1900
               {["/api/search" := {| tokens := 0; lastRefill := 1000 |}]}) with
  | RateReject e =>
      exists waitTime,
        e = RateLimitError "Rate limit exceeded" limited waitTime /\ 0 < waitTime <= 1000
  | _ => False
  end.
Proof.
  pose proof (refused_check_waits_within_one_interval default_client limited
                (two_per_second false) eq_refl 1900 1900
                {["/api/search" := {| tokens := 0; lastRefill := 1000 |}]}
                ltac:(cbn; lia) ltac:(lia)) as Hw.
  assert (Hclock : forall b : Bucket,
            ({["/api/search" := {| tokens := 0; lastRefill := 1000 |}]} : gmap string Bucket)
              !! url limited = Some b -> lastRefill b <= 1900).
  { intros b Hb. vm_compute in Hb. simplify_eq. cbn. lia. }
  specialize (Hw Hclock).
  destruct (fst (checkRateLimit _ _ _ _ _)) eqn:Hd; try (vm_compute in Hd; discriminate).
  exact Hw.
Defined.

(** Two per second: at 0, 999, 1000 and 1000 again; three of them within one
    millisecond. *)
Lemma burst_across_the_interval_boundary_witness :
  fst (checks default_client limited [(0, 0); (999, 999); (1000, 1000); (1000, 1000)] ∅)
  = [RatePass; RatePass; RatePass; RatePass].
Proof.
  exact (burst_across_the_interval_boundary default_client limited (two_per_second false)
           eq_refl 1%nat 0 ∅ eq_refl ltac:(cbn; lia) eq_refl).
Defined.

End BucketInstances.

(** ** The cache backends as maps *)

Section Backends.
Import Js Utils Cache Client Exec Lifecycle CacheOps.
Context `{JsonParse}.

(** The memory adapter is a map whose reads filter what has expired: a fresh
    entry is read back as it was stored, an entry without a time-to-live is
    always fresh, writing one key does not change what another key reads,
    and a deleted or cleared key reads absent. *)
Theorem memory_adapter_is_a_map now key e (cache : gmap string CacheEntry) :
  (isExpired now e = false ->
   MemoryCacheAdapter.get now key (MemoryCacheAdapter.set key e cache)
   = (Some e, MemoryCacheAdapter.set key e cache))
  /\ (ce_ttl e = None -> forall t, isExpired t e = false)
  /\ (forall key', key' <> key ->
        fst (MemoryCacheAdapter.get now key' (MemoryCacheAdapter.set key e cache))
        = fst (MemoryCacheAdapter.get now key' cache))
  /\ fst (MemoryCacheAdapter.get now key (MemoryCacheAdapter.delete key cache)) = None
  /\ fst (MemoryCacheAdapter.get now key (MemoryCacheAdapter.clear cache)) = None
  /\ MemoryCacheAdapter.has key (MemoryCacheAdapter.set key e cache) = true
  /\ MemoryCacheAdapter.has key (MemoryCacheAdapter.delete key cache) = false.
Proof.
  unfold MemoryCacheAdapter.get, MemoryCacheAdapter.set, MemoryCacheAdapter.delete,
    MemoryCacheAdapter.clear, MemoryCacheAdapter.has.
  repeat apply conj.
  - intros Hf. now rewrite lookup_insert_eq, Hf.
  - intros Ht t. unfold isExpired. now rewrite Ht.
  - intros key' Hne. rewrite lookup_insert_ne by congruence.
    destruct (cache !! key') as [e' |]; [| reflexivity]. now destruct (isExpired now e').
  - now rewrite lookup_delete_eq.
  - now rewrite lookup_empty.
  - rewrite lookup_insert_eq. apply bool_decide_eq_true. eauto.
  - rewrite lookup_delete_eq. apply bool_decide_eq_false. intros [? ?]. discriminate.
Qed.

Lemma prefix_append (p s : string) : String.prefix p (p +:+ s) = true.
Proof.
  induction p as [| c p IH]; [now destruct s |].
  change (String c p +:+ s) with (String c (p +:+ s)). cbn.
  destruct (ascii_dec c c); [exact IH | contradiction].
Qed.

Lemma localStorage_clear_lookup (ls : gmap string string) k :
  LocalStorageCacheAdapter.clear ls !! k
  = if String.prefix LocalStorageCacheAdapter.prefix k then None else ls !! k.
Proof.
  unfold LocalStorageCacheAdapter.clear.
  destruct (String.prefix LocalStorageCacheAdapter.prefix k) eqn:Hp.
  - apply map_lookup_filter_None. right. intros v _. cbn. rewrite Hp. discriminate.
  - destruct (ls !! k) as [v |] eqn:Hk.
    + apply map_lookup_filter_Some. split; [exact Hk |]. cbn. now rewrite Hp.
    + apply map_lookup_filter_None. now left.
Qed.

(** The localStorage adapter stores each entry as a JSON string under its
    prefixed key.  Whenever [JSON.parse] reads back what [JSON.stringify]
    wrote for an entry, a fresh entry is read back as it was stored; an item
    that does not parse reads absent, is left in place, and still counts for
    [has]; and [clear] removes every key of the adapter while leaving the
    other keys of [localStorage] alone. *)
Theorem localStorage_adapter_round_trip now key e (ls : gmap string string) :
  (JSON_parse_entry (JSON_stringify (entry_to_json e)) = Some e ->
   isExpired now e = false ->
   LocalStorageCacheAdapter.get now key (LocalStorageCacheAdapter.set key e ls)
   = (Some e, LocalStorageCacheAdapter.set key e ls))
  /\ (forall item,
        ls !! (LocalStorageCacheAdapter.prefix +:+ key) = Some item ->
        JSON_parse_entry item = None ->
        LocalStorageCacheAdapter.get now key ls = (None, ls)
        /\ LocalStorageCacheAdapter.has key ls = true)
  /\ fst (LocalStorageCacheAdapter.get now key (LocalStorageCacheAdapter.clear ls)) = None
  /\ LocalStorageCacheAdapter.has key (LocalStorageCacheAdapter.clear ls) = false
  /\ (forall k, String.prefix LocalStorageCacheAdapter.prefix k = false ->
        LocalStorageCacheAdapter.clear ls !! k = ls !! k).
Proof.
  repeat apply conj.
  - intros Hparse Hfresh.
    unfold LocalStorageCacheAdapter.get, LocalStorageCacheAdapter.set.
    rewrite lookup_insert_eq, Hparse, Hfresh.
    destruct (String.eqb_spec (JSON_stringify (entry_to_json e)) "") as [Hempty |];
      [| reflexivity].
    exfalso. unfold entry_to_json in Hempty.
    cbn [JSON_stringify] in Hempty. discriminate.
  - intros item Hk Hparse. unfold LocalStorageCacheAdapter.get, LocalStorageCacheAdapter.has.
    rewrite Hk, Hparse. split; [now destruct (String.eqb item "") |].
    apply bool_decide_eq_true. eauto.
  - unfold LocalStorageCacheAdapter.get.
    now rewrite localStorage_clear_lookup, prefix_append.
  - unfold LocalStorageCacheAdapter.has. rewrite localStorage_clear_lookup, prefix_append.
    apply bool_decide_eq_false. intros [? ?]. discriminate.
  - intros k Hk. now rewrite localStorage_clear_lookup, Hk.
Qed.

(** The IndexedDB adapter writes under the key path of the store, the [key]
    field of the entry, not under the key it is given: a fresh entry is read
    back under its own [key] field, whatever key it was written with, and a
    read under the key it was written with misses when the two differ.  When
    the database cannot be opened every operation is swallowed: nothing is
    stored, nothing is found. *)
Theorem indexedDB_adapter_uses_the_entry_key now key e (db : IndexedDBCacheAdapter.t) :
  (IndexedDBCacheAdapter.idb_open db = true ->
   (isExpired now e = false ->
    IndexedDBCacheAdapter.get now (ce_key e) (IndexedDBCacheAdapter.set key e db)
    = (Some e, IndexedDBCacheAdapter.set key e db))
   /\ (key <> ce_key e ->
       fst (IndexedDBCacheAdapter.get now key (IndexedDBCacheAdapter.set key e db))
       = fst (IndexedDBCacheAdapter.get now key db)))
  /\ (IndexedDBCacheAdapter.idb_open db = false ->
      IndexedDBCacheAdapter.set key e db = db
      /\ IndexedDBCacheAdapter.get now key db = (None, db)
      /\ IndexedDBCacheAdapter.has key db = false
      /\ IndexedDBCacheAdapter.delete key db = db
      /\ IndexedDBCacheAdapter.clear db = db).
Proof.
  unfold IndexedDBCacheAdapter.get, IndexedDBCacheAdapter.set, IndexedDBCacheAdapter.has,
    IndexedDBCacheAdapter.delete, IndexedDBCacheAdapter.clear.
  split; intros Hopen; rewrite Hopen; cbn.
  - split.
    + intros Hfresh. now rewrite lookup_insert_eq, Hfresh.
    + intros Hne. rewrite lookup_insert_ne by congruence.
      destruct (IndexedDBCacheAdapter.idb_store db !! key) as [e' |]; [| reflexivity].
      destruct (isExpired now e'); [reflexivity |]. reflexivity.
  - auto.
Qed.

(** Writing then reading through the [CacheManager]. *)
Lemma CacheManager_get_set now strategy key e (cm : CacheManager) :
  strategy <> none ->
  (strategy = localStorage -> JSON_parse_entry (JSON_stringify (entry_to_json e)) = Some e) ->
  (strategy = indexedDB ->
   IndexedDBCacheAdapter.idb_open (cm_indexedDB cm) = true /\ ce_key e = key) ->
  CacheManager_get now strategy key (CacheManager_set strategy key e cm)
  = if isExpired now e
    then (None, CacheManager_delete strategy key (CacheManager_set strategy key e cm))
    else (Some e, CacheManager_set strategy key e cm).
Proof.
  intros Hs Hls Hdb.
  destruct strategy; [| | | contradiction]; unfold CacheManager_get, CacheManager_set,
    CacheManager_delete; cbn [cm_memory cm_localStorage cm_indexedDB adapter_get
                              memory_adapter localStorage_adapter indexedDB_adapter].
  - unfold MemoryCacheAdapter.get, MemoryCacheAdapter.set. rewrite lookup_insert_eq.
    now destruct (isExpired now e).
  - unfold LocalStorageCacheAdapter.get, LocalStorageCacheAdapter.set.
    rewrite lookup_insert_eq, (Hls eq_refl).
    destruct (String.eqb_spec (JSON_stringify (entry_to_json e)) "") as [Hempty |].
    { exfalso. unfold entry_to_json in Hempty. cbn [JSON_stringify] in Hempty. discriminate. }
    now destruct (isExpired now e).
  - destruct (Hdb eq_refl) as [Hopen <-].
    unfold IndexedDBCacheAdapter.get, IndexedDBCacheAdapter.set. rewrite Hopen. cbn.
    rewrite lookup_insert_eq. now destruct (isExpired now e).
Qed.

(** The strategy [none] has no backend, and the three backends do not see
    each other: a read or a write with [none] does nothing, and a write to
    one backend does not change what another one reads. *)
Theorem cache_strategies_are_separate now key key' e (cm : CacheManager) :
  CacheManager_get now none key cm = (None, cm)
  /\ CacheManager_set none key e cm = cm
  /\ (forall s s', s <> s' ->
        fst (CacheManager_get now s' key' (CacheManager_set s key e cm))
        = fst (CacheManager_get now s' key' cm)).
Proof.
  repeat apply conj; try reflexivity.
  intros s s' Hne.
  destruct s, s'; try contradiction; try reflexivity;
    unfold CacheManager_get, CacheManager_set;
    cbn [cm_memory cm_localStorage cm_indexedDB];
    destruct (adapter_get _ _ _); reflexivity.
Qed.

(** [invalidatePattern] does not look at its pattern: whatever the pattern,
    every key of the chosen backend reads absent afterwards, also keys the
    pattern does not describe, and the other backends keep their entries. *)
Theorem invalidatePattern_clears_the_backend now pattern strategy key (cm : CacheManager) :
  fst (CacheManager_get now strategy key (CacheManager_invalidatePattern strategy pattern cm))
  = None
  /\ (forall s', s' <> strategy ->
        fst (CacheManager_get now s' key (CacheManager_invalidatePattern strategy pattern cm))
        = fst (CacheManager_get now s' key cm))
  /\ CacheManager_invalidatePattern strategy pattern cm
     = CacheManager_invalidatePattern strategy "" cm.
Proof.
  repeat apply conj.
  - destruct strategy; cbn; try reflexivity.
    + unfold LocalStorageCacheAdapter.get.
      now rewrite localStorage_clear_lookup, prefix_append.
    + unfold IndexedDBCacheAdapter.get, IndexedDBCacheAdapter.clear.
      destruct (IndexedDBCacheAdapter.idb_open (cm_indexedDB cm)) eqn:Ho; cbn;
        rewrite ?Ho; reflexivity.
  - intros s' Hne.
    destruct strategy, s'; try contradiction; try reflexivity;
      unfold CacheManager_get, CacheManager_invalidatePattern, CacheManager_clear;
      cbn [cm_memory cm_localStorage cm_indexedDB];
      destruct (adapter_get _ _ _); reflexivity.
  - now destruct strategy.
Qed.

(** What is cached and what a hit returns.  After [cacheResponse] has stored
    a response, [checkCache] finds it for as long as it is fresh, and the
    hit carries the payload with status 200, status text OK, no headers,
    [cached = true] and no [retryCount], whatever the status and headers of
    the response that was stored; once it has expired the check misses. *)
Theorem cache_hit_returns_the_payload_as_200 (config : RequestConfig) cacheKey r t0 t1
    (cm : CacheManager) :
  let cacheConfig := cacheConfig_of config in
  let key := effective_key cacheConfig cacheKey in
  let entry := {| ce_data := data r; ce_timestamp := t0; ce_ttl := cc_ttl cacheConfig;
                  ce_key := key |} in
  truthy_orbool (cache config) = true ->
  cc_strategy cacheConfig <> none ->
  (cc_strategy cacheConfig = localStorage ->
   JSON_parse_entry (JSON_stringify (entry_to_json entry)) = Some entry) ->
  (cc_strategy cacheConfig = indexedDB ->
   IndexedDBCacheAdapter.idb_open (cm_indexedDB cm) = true) ->
  let stored := cacheResponse config cacheKey r t0 cm in
  (isExpired t1 entry = false ->
   checkCache config cacheKey t1 stored
   = (Some {| data := data r; status := 200; statusText := "OK"; resp_headers := [];
              config := config; cached := Some true; retryCount := None |}, stored))
  /\ (isExpired t1 entry = true -> fst (checkCache config cacheKey t1 stored) = None).
Proof.
  intros cacheConfig key entry Hcache Hs Hls Hdb stored.
  assert (Hget : CacheManager_get t1 (cc_strategy cacheConfig) key stored
                 = if isExpired t1 entry
                   then (None, CacheManager_delete (cc_strategy cacheConfig) key stored)
                   else (Some entry, stored)).
  { subst stored. unfold cacheResponse. rewrite Hcache. cbn [negb].
    fold cacheConfig. fold key. fold entry.
    apply CacheManager_get_set; [exact Hs | exact Hls |].
    intros Hi. split; [now apply Hdb | reflexivity]. }
  unfold checkCache. rewrite Hcache. cbn [negb]. fold cacheConfig. fold key.
  rewrite Hget. split; intros Hf; rewrite Hf; reflexivity.
Qed.

(** The first turn of a call does what [checkCache] does. *)
Lemma resume_call_reads_the_cache client i config (s : System) :
  calls s !! i = Some (AtPre config) ->
  exists hit,
    calls (resume_call client i s) !! i = Some (AtCache config (generateCacheKey config) hit)
    /\ checkCache config (generateCacheKey config) (now s) (caches s)
       = (option_map (cached_response config) hit, caches (resume_call client i s)).
Proof.
  intros Hc. unfold resume_call, checkCache. rewrite Hc.
  assert (Hi : (i < length (calls s))%nat) by now apply lookup_lt_Some in Hc.
  destruct (negb (truthy_orbool (cache config))).
  - exists None. cbn. split; [now apply list_lookup_insert_eq | reflexivity].
  - destruct (CacheManager_get _ _ _ _) as [hit cm]. exists hit. cbn.
    split; [now apply list_lookup_insert_eq |]. now destruct hit.
Qed.

End Backends.

Section BackendInstances.
Import Js Utils Cache Client Exec Lifecycle CacheOps Samples MoreSamples.

#[local] Existing Instance parse_stale.

Lemma cache_hit_returns_the_payload_as_200_witness :
  let stored :=
    cacheResponse kept_in_localStorage "GET|/api/test" created 1000
      (CacheManager_new ∅ closed_db) in
  checkCache kept_in_localStorage "GET|/api/test" 2000 stored
  = (Some {| data := JStr "payload"; status := 200; statusText := "OK"; resp_headers := [];
             config := kept_in_localStorage; cached := Some true; retryCount := None |},
     stored).
Proof.
  refine (proj1 (cache_hit_returns_the_payload_as_200 kept_in_localStorage "GET|/api/test"
                   created 1000 2000 (CacheManager_new ∅ closed_db) _ _ _ _) _).
  - reflexivity.
  - discriminate.
  - intros _. vm_compute. reflexivity.
  - discriminate.
  - reflexivity.
Defined.

Lemma localStorage_adapter_round_trip_witness :
  LocalStorageCacheAdapter.get 2000 "k" (LocalStorageCacheAdapter.set "k" stale_entry ∅)
  = (Some stale_entry, LocalStorageCacheAdapter.set "k" stale_entry ∅).
Proof.
  apply (proj1 (localStorage_adapter_round_trip 2000 "k" stale_entry ∅)).
  - vm_compute. reflexivity.
  - reflexivity.
Defined.

Lemma indexedDB_adapter_uses_the_entry_key_witness :
  let db := {| IndexedDBCacheAdapter.idb_open := true;
               IndexedDBCacheAdapter.idb_store := ∅ |} in
  IndexedDBCacheAdapter.get 2000 "k" (IndexedDBCacheAdapter.set "GET|/api/test" stale_entry db)
  = (Some stale_entry, IndexedDBCacheAdapter.set "GET|/api/test" stale_entry db)
  /\ fst (IndexedDBCacheAdapter.get 2000 "GET|/api/test"
            (IndexedDBCacheAdapter.set "GET|/api/test" stale_entry db)) = None.
Proof.
  intros db.
  destruct (proj1 (indexedDB_adapter_uses_the_entry_key 2000 "GET|/api/test" stale_entry db)
              eq_refl) as [Hown Hgiven].
  split.
  - apply Hown. reflexivity.
  - rewrite Hgiven by discriminate. reflexivity.
Defined.

End BackendInstances.

(** ** URLs, fingerprints and merged configurations *)

Section Urls.
Import Js Utils Client Exec Samples MoreSamples.

Lemma is_slash_spec (c : ascii) : (N_of_ascii c =? 47)%N = true <-> c = "/"%char.
Proof.
  rewrite N.eqb_eq. split; [| intros ->; reflexivity].
  intros Hc. rewrite <- (ascii_N_embedding c), Hc. reflexivity.
Qed.

Lemma append_nil_r (s : string) : s +:+ "" = s.
Proof.
  induction s as [| c s IH]; [reflexivity |].
  change (String c s +:+ "") with (String c (s +:+ "")). now rewrite IH.
Qed.

Lemma slashes_S n : slashes (S n) = String "/"%char (slashes n).
Proof. reflexivity. Qed.

Lemma slashes_snoc n : slashes n +:+ "/" = slashes (S n).
Proof.
  induction n as [| n IH]; [reflexivity |].
  rewrite !slashes_S in *. change (String "/" (slashes n) +:+ "/")
    with (String "/"%char (slashes n +:+ "/")). now rewrite IH.
Qed.

Lemma drop_leading_slashes_spec (s : string) :
  exists m, s = slashes m +:+ drop_leading_slashes s
            /\ forall r, drop_leading_slashes s <> String "/"%char r.
Proof.
  induction s as [| c s (m & Hs & Hno)].
  - exists O. split; [reflexivity | discriminate].
  - cbn [drop_leading_slashes].
    destruct (N_of_ascii c =? 47)%N eqn:Hc.
    + apply is_slash_spec in Hc as ->. exists (S m). split; [| exact Hno].
      rewrite slashes_S. change (String "/" (slashes m) +:+ drop_leading_slashes s)
        with (String "/"%char (slashes m +:+ drop_leading_slashes s)). now rewrite <- Hs.
    + exists O. split; [reflexivity |]. intros r Hr.
      assert (Hs47 : (N_of_ascii "/" =? 47)%N = true) by reflexivity.
      injection Hr as -> _. congruence.
Qed.

Lemma append_eq_nil (a b : string) : a +:+ b = "" -> a = "" /\ b = "".
Proof. destruct a; [cbn; auto | discriminate]. Qed.

Lemma drop_trailing_slashes_spec (s : string) :
  exists n, s = drop_trailing_slashes s +:+ slashes n
            /\ forall b, drop_trailing_slashes s <> b +:+ "/".
Proof.
  induction s as [| c s (n & Hs & Hno)].
  - exists O. split; [reflexivity |]. intros b Hb. symmetry in Hb.
    apply append_eq_nil in Hb as [_ Hb]. discriminate.
  - cbn [drop_trailing_slashes].
    destruct (drop_trailing_slashes s) as [| x d] eqn:Hd.
    + change ("" +:+ slashes n) with (slashes n) in Hs.
      destruct (N_of_ascii c =? 47)%N eqn:Hc.
      * apply is_slash_spec in Hc as ->. exists (S n). split.
        -- change ("" +:+ slashes (S n)) with (String "/"%char (slashes n)).
           now rewrite <- Hs.
        -- intros b Hb. symmetry in Hb. apply append_eq_nil in Hb as [_ Hb]. discriminate.
      * exists n. split.
        -- change (str1 c +:+ slashes n) with (String c (slashes n)). now rewrite <- Hs.
        -- assert (Hs47 : (N_of_ascii "/" =? 47)%N = true) by reflexivity.
           intros b Hb. destruct b as [| y b].
           ++ injection Hb as ->. congruence.
           ++ change (String y b +:+ "/") with (String y (b +:+ "/")) in Hb.
              injection Hb as _ Hx. symmetry in Hx.
              apply append_eq_nil in Hx as [_ Hx]. discriminate.
    + exists n. split.
      * change (String c (String x d) +:+ slashes n)
          with (String c (String x d +:+ slashes n)). now rewrite <- Hs.
      * intros b Hb. destruct b as [| y b]; [discriminate |].
        change (String y b +:+ "/") with (String y (b +:+ "/")) in Hb.
        injection Hb as _ Hx. now apply Hno in Hx.
Qed.

(** [combineURLs] joins with exactly one slash: whatever slashes the base
    ends with and the relative part starts with are dropped, and one is put
    in; an empty relative part gives the base as it is. *)
Theorem combineURLs_joins_with_one_slash (baseURL relativeURL : string) :
  combineURLs baseURL "" = baseURL
  /\ (relativeURL <> "" ->
      exists b r n m,
        baseURL = b +:+ slashes n /\ relativeURL = slashes m +:+ r
        /\ combineURLs baseURL relativeURL = b +:+ "/" +:+ r
        /\ (forall b', b <> b' +:+ "/") /\ (forall r', r <> String "/"%char r')).
Proof.
  split; [reflexivity |]. intros Hne.
  destruct (drop_trailing_slashes_spec baseURL) as (n & Hb & Hbno).
  destruct (drop_leading_slashes_spec relativeURL) as (m & Hr & Hrno).
  exists (drop_trailing_slashes baseURL), (drop_leading_slashes relativeURL), n, m.
  repeat split; auto.
  unfold combineURLs. destruct (String.eqb_spec relativeURL ""); [contradiction | reflexivity].
Qed.

Lemma combineURLs_joins_with_one_slash_witness :
  exists b r n m,
    "https://api.example.com//" = b +:+ slashes n /\ "//users" = slashes m +:+ r
    /\ combineURLs "https://api.example.com//" "//users" = b +:+ "/" +:+ r
    /\ (forall b', b <> b' +:+ "/") /\ (forall r', r <> String "/"%char r').
Proof.
  exact (proj2 (combineURLs_joins_with_one_slash "https://api.example.com//" "//users")
           ltac:(discriminate)).
Defined.

Lemma query_of_no_values (ps : list (string * option JsValue)) :
  Forall no_value ps ->
  omap (fun kv : string * option JsValue =>
          match snd kv with
          | Some JNull | None => None
          | Some v => Some (fst kv, String_of v)
          end) ps = [].
Proof.
  induction 1 as [| [k v] ps [Hv | Hv] _ IH]; [reflexivity | |];
    cbn in Hv; subst v; cbn; exact IH.
Qed.

(** [buildURL] puts the query after the target it would build without
    parameters: parameters that are all [null] or [undefined] (or none at
    all) leave that target as it is; an absolute target ignores the base
    URL, and so does an empty base; otherwise the query is appended after
    [?], or after [&] when the target already has a [?]. *)
Theorem buildURL_appends_the_query (baseURL : option string) (target : string)
    (ps : list (string * option JsValue)) :
  let bare := buildURL baseURL target None in
  let query :=
    URLSearchParams_toString
      (omap (fun kv : string * option JsValue =>
               match snd kv with
               | Some JNull | None => None
               | Some v => Some (fst kv, String_of v)
               end) ps) in
  (Forall no_value ps -> buildURL baseURL target (Some ps) = bare)
  /\ (query <> "" ->
      buildURL baseURL target (Some ps)
      = bare +:+ (if includes bare "?" then "&" else "?") +:+ query)
  /\ (isAbsoluteURL target = true \/ baseURL = None \/ baseURL = Some "" -> bare = target).
Proof.
  intros bare query. subst bare query. unfold buildURL. repeat apply conj.
  - intros Hnone. now rewrite (query_of_no_values ps Hnone).
  - intros Hq. cbv zeta.
    match goal with |- context [String.eqb ?q ""] => destruct (String.eqb_spec q "") end;
      [contradiction | reflexivity].
  - intros [Habs | [-> | ->]]; [| reflexivity | reflexivity].
    rewrite Habs. now rewrite andb_false_r.
Qed.

Lemma defined_fields_of_values (fields : list (string * JsValue)) :
  defined_fields (map (fun kv => (fst kv, Some (snd kv))) fields) = fields.
Proof.
  unfold defined_fields. induction fields as [| [k v] fields IH]; [reflexivity |].
  cbn. now rewrite IH.
Qed.

(** The fingerprint is not injective.  The parts are joined with a bar and
    nothing tells a serialized query from a serialized body, so for a
    method other than GET a request with query parameters and a request with
    the same object as its body share a fingerprint; and a target that
    already spells out a bar and a serialized query shares the fingerprint of
    the shorter target with that query as parameters. *)
Theorem fingerprint_conflates_distinct_requests (m : HttpMethod) (target : string)
    (fields : list (string * JsValue)) (ps : list (string * option JsValue)) :
  (m <> GET ->
   generateCacheKey
     (shaped (Some m) target (Some (map (fun kv => (fst kv, Some (snd kv))) fields)) None)
   = generateCacheKey (shaped (Some m) target None (Some (JObj fields))))
  /\ generateCacheKey (shaped (Some m) (target +:+ "|" +:+ JSON_stringify_record ps) None None)
     = generateCacheKey (shaped (Some m) target (Some ps) None).
Proof.
  split.
  - intros Hm. unfold generateCacheKey, shaped.
    cbn [method url params body default truthy_opt truthy andb].
    rewrite bool_decide_eq_false_2 by exact Hm. cbn [negb].
    unfold JSON_stringify_record. now rewrite defined_fields_of_values.
  - unfold generateCacheKey, shaped. cbn [method url params body default truthy_opt andb].
    change ([method_name m; target] ++ [JSON_stringify_record ps])%list
      with ([method_name m] ++ [target; JSON_stringify_record ps])%list.
    reflexivity.
Qed.

Lemma fingerprint_conflates_distinct_requests_witness :
  generateCacheKey (shaped (Some POST) "/orders" (Some [("id", Some (JNum 7))]) None)
  = generateCacheKey (shaped (Some POST) "/orders" None (Some (JObj [("id", JNum 7)]))).
Proof.
  destruct (fingerprint_conflates_distinct_requests POST "/orders" [("id", JNum 7)] [])
    as [Hsame _].
  apply Hsame. discriminate.
Defined.

(** The headers that are sent: a header of the request wins over the
    client's header of the same name; [Content-Type: application/json] is
    added for a body that is an object or an array, and only when neither
    side gave a non-empty [Content-Type]; no other header is invented. *)
Theorem buildHeaders_precedence (client : SmartFetchConfig) (c : RequestConfig) (k : string) :
  let given := default ∅ (headers c) ∪ default ∅ (client_headers client) in
  (given !! k = match default ∅ (headers c) !! k with
                | Some v => Some v
                | None => default ∅ (client_headers client) !! k
                end)
  /\ (k <> "Content-Type" -> buildHeaders client c !! k = given !! k)
  /\ (forall v, given !! "Content-Type" = Some v -> v <> "" ->
        buildHeaders client c = given)
  /\ (truthy_str (given !! "Content-Type") = false ->
      buildHeaders client c !! "Content-Type"
      = if truthy_opt (body c) && typeof_object (default JNull (body c))
        then Some "application/json" else given !! "Content-Type").
Proof.
  intros given. repeat apply conj.
  - subst given. rewrite lookup_union.
    destruct (default ∅ (headers c) !! k), (default ∅ (client_headers client) !! k);
      reflexivity.
  - intros Hk. unfold buildHeaders. fold given.
    destruct (_ && _ && _); [now rewrite lookup_insert_ne | reflexivity].
  - intros v Hv Hne. unfold buildHeaders. fold given. rewrite Hv. cbn.
    destruct (String.eqb_spec v ""); [contradiction |]. cbn. now rewrite andb_false_r.
  - intros Hnone. unfold buildHeaders. fold given. rewrite Hnone. cbn [negb].
    rewrite andb_true_r. destruct (_ && _); [apply lookup_insert_eq | reflexivity].
Qed.

Lemma includes_of_prefix (h n : string) : String.prefix n h = true -> includes h n = true.
Proof. intros Hp. destruct h; cbn [includes]; rewrite Hp; reflexivity. Qed.

(** The payload reader is chosen by the content type: a JSON content type is
    read as JSON whatever parameters follow it (a charset, say), a text type
    as text, and a response without a content type as text. *)
Theorem parseResponse_follows_the_content_type (response : RawResponse) :
  (forall suffix, rr_contentType response = Some ("application/json" +:+ suffix) ->
     parseResponse response = rr_json response)
  /\ (forall suffix, rr_contentType response = Some ("text/" +:+ suffix) ->
        includes suffix "application/json" = false ->
        parseResponse response = rr_text response)
  /\ (rr_contentType response = None -> parseResponse response = rr_text response).
Proof.
  unfold parseResponse. repeat apply conj.
  - intros suffix ->. cbn [default id].
    now rewrite (includes_of_prefix _ _ (prefix_append "application/json" suffix)).
  - intros suffix -> Hnj. cbn [default id].
    assert (Hx : includes ("text/" +:+ suffix) "application/json" = false).
    { cbv beta iota fix delta [String.append]. cbn. exact Hnj. }
    rewrite Hx. now rewrite (includes_of_prefix _ "text/" (prefix_append "text/" suffix)).
  - intros ->. reflexivity.
Qed.

End Urls.

Section DeepMerge.
Import Merge.
Context {A : Type}.
Implicit Types (base override result : list (string * Cfg A)) (k : string).

Lemma mergeConfig_forEach base override :
  mergeConfig base override = forEach base override base.
Proof.
  unfold mergeConfig. cbn [mergeInto]. generalize base at 2 4 as result.
  induction override as [| [k0 v0] rest IH]; intros result; [reflexivity |].
  cbn [forEach]. rewrite <- IH. destruct v0; reflexivity.
Qed.

Lemma prop_assign k k' (v : Cfg A) result :
  prop k (assign k' v result) = if String.eqb k' k then v else prop k result.
Proof.
  induction result as [| [k0 v0] result IH]; cbn [assign prop].
  - destruct (String.eqb_spec k' k); reflexivity.
  - destruct (String.eqb_spec k0 k') as [-> | Hne]; cbn [prop].
    + destruct (String.eqb_spec k' k); reflexivity.
    + destruct (String.eqb_spec k0 k) as [-> | Hne'].
      * destruct (String.eqb_spec k' k); [congruence | reflexivity].
      * exact IH.
Qed.

Lemma prop_absent k (obj : list (string * Cfg A)) :
  ~ In k (keys obj) -> prop k obj = Undefined.
Proof.
  induction obj as [| [k0 v0] obj IH]; intros Hk; [reflexivity |].
  cbn [prop]. destruct (String.eqb_spec k0 k) as [-> | _].
  - exfalso. apply Hk. now left.
  - apply IH. intros Hin. apply Hk. now right.
Qed.

Lemma forEach_prop base entries : forall result k,
  List.NoDup (keys entries) ->
  prop k (forEach base entries result)
  = match prop k entries with
    | Undefined => prop k result
    | Other a => Other a
    | PlainObject o =>
        match prop k base with
        | PlainObject b => PlainObject (mergeConfig b o)
        | _ => PlainObject o
        end
    end.
Proof.
  induction entries as [| [k0 v0] rest IH]; intros result k Hnd; [reflexivity |].
  cbn [keys map fst] in Hnd. apply List.NoDup_cons_iff in Hnd as [Hk0 Hnd].
  cbn [forEach prop fst snd]. rewrite IH by exact Hnd.
  destruct (String.eqb_spec k0 k) as [-> | Hne].
  - rewrite (prop_absent k rest Hk0).
    destruct v0 as [| a | o]; [reflexivity | |].
    + rewrite prop_assign. now rewrite String.eqb_refl.
    + destruct (prop k base); rewrite prop_assign; now rewrite String.eqb_refl.
  - destruct (prop k rest); [| reflexivity | reflexivity].
    destruct v0 as [| a | o]; [reflexivity | |].
    + rewrite prop_assign. destruct (String.eqb_spec k0 k); [contradiction | reflexivity].
    + destruct (prop k0 base); rewrite prop_assign;
        destruct (String.eqb_spec k0 k); try contradiction; reflexivity.
Qed.

(** What [mergeConfig] leaves under each key: the override's value, except
    that an [undefined] or absent one keeps the base's value, and where both
    sides hold a plain object the two are merged in turn; a plain object
    over anything else replaces it. *)
Theorem mergeConfig_lookup base override k :
  List.NoDup (keys override) ->
  prop k (mergeConfig base override)
  = match prop k override with
    | Undefined => prop k base
    | Other a => Other a
    | PlainObject o =>
        match prop k base with
        | PlainObject b => PlainObject (mergeConfig b o)
        | _ => PlainObject o
        end
    end.
Proof. intros Hnd. rewrite mergeConfig_forEach. now apply forEach_prop. Qed.

Lemma hasOwn_absent k (obj : list (string * Cfg A)) :
  ~ In k (keys obj) -> hasOwn k obj = false.
Proof.
  induction obj as [| [k0 v0] obj IH]; intros Hk; [reflexivity |].
  cbn [hasOwn existsb fst]. destruct (String.eqb_spec k0 k) as [-> | _].
  - exfalso. apply Hk. now left.
  - apply IH. intros Hin. apply Hk. now right.
Qed.

Lemma prop_not_own k (obj : list (string * Cfg A)) :
  hasOwn k obj = false -> prop k obj = Undefined.
Proof.
  induction obj as [| [k0 v0] obj IH]; intros Hk; [reflexivity |].
  cbn [hasOwn existsb fst] in Hk. apply orb_false_iff in Hk as [Hne Hk].
  cbn [prop]. rewrite Hne. now apply IH.
Qed.

Lemma spread_prop k (b : list (string * Cfg A)) : forall a,
  List.NoDup (keys b) ->
  prop k (spread a b) = if hasOwn k b then prop k b else prop k a.
Proof.
  induction b as [| [k0 v0] b IH]; intros a Hnd; [reflexivity |].
  cbn [keys map fst] in Hnd. apply List.NoDup_cons_iff in Hnd as [Hk0 Hnd].
  change (spread a ((k0, v0) :: b)) with (spread (assign k0 v0 a) b).
  rewrite IH by exact Hnd. rewrite prop_assign.
  cbn [hasOwn existsb prop fst]. fold (hasOwn k b).
  destruct (String.eqb_spec k0 k) as [-> | Hne]; [| reflexivity].
  now rewrite (hasOwn_absent k b Hk0).
Qed.

(** What [mergeRequestConfig] leaves under each key.  The defaults are
    overridden by every key the request holds, also by one it holds with the
    value [undefined]: such a key stays [undefined] and does not fall back to
    the default ([{ timeout: undefined }] switches the client's timeout off).
    Only a key the request does not hold takes the default.  A plain object
    the request holds is merged with itself. *)
Theorem mergeRequestConfig_keeps_what_the_request_holds
    (defaults config : list (string * Cfg A)) k :
  List.NoDup (keys config) ->
  prop k (mergeRequestConfig defaults config)
  = (if hasOwn k config
     then match prop k config with
          | PlainObject o => PlainObject (mergeConfig o o)
          | held => held
          end
     else prop k defaults)
  /\ (hasOwn k config = true -> prop k config = Undefined ->
      prop k (mergeRequestConfig defaults config) = Undefined).
Proof.
  intros Hnd.
  assert (Heq : prop k (mergeRequestConfig defaults config)
                = if hasOwn k config
                  then match prop k config with
                       | PlainObject o => PlainObject (mergeConfig o o)
                       | held => held
                       end
                  else prop k defaults).
  { unfold mergeRequestConfig. rewrite mergeConfig_lookup by exact Hnd.
    rewrite spread_prop by exact Hnd.
    destruct (hasOwn k config) eqn:Hown.
    - destruct (prop k config) as [| a | o] eqn:Hheld; reflexivity.
    - now rewrite (prop_not_own k config Hown). }
  split; [exact Heq |].
  intros Hown Hundef. now rewrite Heq, Hown, Hundef.
Qed.

End DeepMerge.

Section DeepMergeInstances.
Import Merge MoreSamples.

Lemma mergeConfig_lookup_witness :
  prop "retry" (mergeConfig client_defaults request_overrides)
  = PlainObject [("maxRetries", Other 3); ("delay", Other 250)].
Proof.
  rewrite (mergeConfig_lookup client_defaults request_overrides "retry").
  - reflexivity.
  - repeat constructor; cbn; intuition discriminate.
Defined.

Lemma mergeRequestConfig_keeps_what_the_request_holds_witness :
  prop "timeout" defaults_30000 = Other (JNum 30000)
  /\ prop "timeout" (Merge.mergeRequestConfig defaults_30000 timeout_undefined) = Undefined
  /\ prop "method" (Merge.mergeRequestConfig defaults_30000 timeout_undefined)
     = Other (JStr "GET").
Proof.
  assert (Hnd : List.NoDup (keys timeout_undefined))
    by (repeat constructor; cbn; intuition discriminate).
  split; [reflexivity |]. split.
  - apply (mergeRequestConfig_keeps_what_the_request_holds
             defaults_30000 timeout_undefined "timeout" Hnd); reflexivity.
  - rewrite (proj1 (mergeRequestConfig_keeps_what_the_request_holds
                      defaults_30000 timeout_undefined "method" Hnd)).
    reflexivity.
Defined.

End DeepMergeInstances.

(** ** The mock registry *)

Section MockRegistry.
Import Js Utils Client Mocks.

Lemma map_set_overwrites {V} key (v1 v2 : V) (m : list (string * V)) :
  map_set key v2 (map_set key v1 m) = map_set key v2 m.
Proof.
  induction m as [| [k v] m IH]; cbn [map_set].
  - now rewrite String.eqb_refl.
  - destruct (String.eqb_spec k key) as [-> | Hne]; cbn [map_set].
    + now rewrite String.eqb_refl.
    + destruct (String.eqb_spec k key); [contradiction |]. now rewrite IH.
Qed.

Lemma map_set_keys {V} key (v : V) (m : list (string * V)) :
  (In key (map fst m) /\ map fst (map_set key v m) = map fst m)
  \/ (~ In key (map fst m) /\ map_set key v m = (m ++ [(key, v)])%list).
Proof.
  induction m as [| [k v0] m IH]; [right; split; [intros [] | reflexivity] |].
  cbn [map_set]. destruct (String.eqb_spec k key) as [-> | Hne].
  - left. split; [now left | reflexivity].
  - cbn [map fst]. destruct IH as [[Hin ->] | [Hin ->]].
    + left. split; [now right | reflexivity].
    + right. split; [| reflexivity]. intros [? | ?]; [congruence | contradiction].
Qed.

(** Mocks are registered under their URL alone (a regular expression under
    what it prints as).  A second mock for the same URL therefore replaces the
    first, whatever methods the two name: the registry is as if the first
    had never been added.  A mock for a new URL goes last, and one for a
    known URL keeps the place of the one it replaces. *)
Theorem addMock_replaces_the_mock_of_the_same_url (m1 m2 : MockConfig)
    (mockResponses : list (string * MockConfig)) :
  (mock_key m1 = mock_key m2 ->
   addMock m2 (addMock m1 mockResponses) = addMock m2 mockResponses)
  /\ (~ In (mock_key m2) (map fst mockResponses) ->
      addMock m2 mockResponses = (mockResponses ++ [(mock_key m2, m2)])%list)
  /\ (In (mock_key m2) (map fst mockResponses) ->
      map fst (addMock m2 mockResponses) = map fst mockResponses).
Proof.
  unfold addMock. repeat apply conj.
  - intros ->. apply map_set_overwrites.
  - intros Hnew. destruct (map_set_keys (mock_key m2) m2 mockResponses) as [[? _] | [_ ?]];
      [contradiction | assumption].
  - intros Hold. destruct (map_set_keys (mock_key m2) m2 mockResponses) as [[_ ?] | [? _]];
      [assumption | contradiction].
Qed.

(** [getMockResponse] answers with the first registered mock that matches
    the URL and the method, and with nothing only when none matches.  The
    answer carries the mock's payload, status text [OK], and the mock's
    status, which is 200 when the mock gives none or gives 0.  (A regular
    expression is taken to be one whose [test] keeps no state.) *)
Theorem getMockResponse_first_match_wins (config : RequestConfig)
    (mockResponses : list (string * MockConfig)) :
  match getMockResponse config mockResponses with
  | Some r =>
      exists earlier key mock later,
        mockResponses = (earlier ++ (key, mock) :: later)%list
        /\ Forall (fun km => mock_matches config (snd km) = false) earlier
        /\ mock_matches config mock = true
        /\ data r = mock_response mock /\ statusText r = "OK"
        /\ status r = match mock_status mock with
                      | Some 0 | None => 200
                      | Some code => code
                      end
  | None => Forall (fun km => mock_matches config (snd km) = false) mockResponses
  end.
Proof.
  induction mockResponses as [| [key mock] rest IH]; cbn [getMockResponse].
  - constructor.
  - destruct (mock_matches config mock) eqn:Hm.
    + exists [], key, mock, rest. repeat split; auto.
      cbn. now destruct (mock_status mock) as [[] |].
    + destruct (getMockResponse config rest) as [r |].
      * destruct IH as (earlier & k & m & later & -> & Hnone & Hhit & Hr).
        exists ((key, mock) :: earlier), k, m, later. repeat split; try tauto.
        now constructor.
      * now constructor.
Qed.

End MockRegistry.

(** ** The middleware chain *)

Section Chain.
Import Js Utils Client Exec Middleware.

Lemma executePre_app (ms1 ms2 : list Middleware) : forall config,
  executePre (ms1 ++ ms2) config
  = match executePre ms1 config with
    | Ok c => executePre ms2 c
    | Err e => Err e
    end.
Proof.
  induction ms1 as [| m ms1 IH]; intros config; [reflexivity |].
  cbn [app executePre]. destruct (mw_pre m) as [hook |]; [| apply IH].
  destruct (hook config); [apply IH | reflexivity].
Qed.

Lemma executePost_app (ms1 ms2 : list Middleware) : forall response,
  executePost (ms1 ++ ms2) response
  = match executePost ms1 response with
    | Ok r => executePost ms2 r
    | Err e => Err e
    end.
Proof.
  induction ms1 as [| m ms1 IH]; intros response; [reflexivity |].
  cbn [app executePost]. destruct (mw_post m) as [hook |]; [| apply IH].
  destruct (hook response); [apply IH | reflexivity].
Qed.

Lemma executeError_app (ms1 ms2 : list Middleware) : forall error,
  executeError (ms1 ++ ms2) error
  = match executeError ms1 error with
    | Ok r => executeError ms2 r
    | Err e => Err e
    end.
Proof.
  induction ms1 as [| m ms1 IH]; intros error; [reflexivity |].
  cbn [app executeError]. destruct (mw_error m) as [hook |]; [| apply IH].
  destruct (hook error); [apply IH | reflexivity].
Qed.

(** Hooks run in the order the middleware was added: the hook of a newly
    added middleware is given what the earlier hooks produced, and it is not
    called at all when one of them throws.  The same holds for the three
    kinds of hook; post hooks are not run in reverse. *)
Theorem added_middleware_runs_last (m : Middleware) (ms : list Middleware)
    (config : RequestConfig) (response : SmartFetchResponse) (error : JsError) :
  executePre (add m ms) config
  = match executePre ms config with
    | Ok c => match mw_pre m with Some hook => hook c | None => Ok c end
    | Err e => Err e
    end
  /\ executePost (add m ms) response
     = match executePost ms response with
       | Ok r => match mw_post m with Some hook => hook r | None => Ok r end
       | Err e => Err e
       end
  /\ executeError (add m ms) error
     = match executeError ms error with
       | Ok r => match mw_error m with Some hook => hook r | None => Ok r end
       | Err e => Err e
       end.
Proof.
  unfold add. rewrite executePre_app, executePost_app, executeError_app.
  repeat apply conj.
  - destruct (executePre ms config) as [c |]; [| reflexivity]. cbn.
    destruct (mw_pre m) as [hook |]; [| reflexivity]. now destruct (hook c).
  - destruct (executePost ms response) as [r |]; [| reflexivity]. cbn.
    destruct (mw_post m) as [hook |]; [| reflexivity]. now destruct (hook r).
  - destruct (executeError ms error) as [r |]; [| reflexivity]. cbn.
    destruct (mw_error m) as [hook |]; [| reflexivity]. now destruct (hook r).
Qed.

(** [remove] takes out every middleware of that name ([add] does not keep
    names apart), keeps the others in their order, and changes nothing when
    the name is not there. *)
Theorem remove_takes_out_every_middleware_of_the_name (name : string) (m : Middleware)
    (ms : list Middleware) :
  (forall m', In m' (remove name ms) <-> In m' ms /\ mw_name m' <> name)
  /\ remove name (add m ms)
     = (if String.eqb (mw_name m) name then remove name ms else add m (remove name ms))
  /\ remove name (remove name ms) = remove name ms
  /\ (Forall (fun m' => mw_name m' <> name) ms -> remove name ms = ms).
Proof.
  unfold remove, add. repeat apply conj.
  - intros m'. rewrite <- !list_elem_of_In, list_elem_of_filter.
    rewrite negb_true_iff. destruct (String.eqb_spec (mw_name m') name); split;
      intros [? ?]; split; auto; congruence.
  - rewrite filter_app. cbn [filter list_filter].
    destruct (String.eqb_spec (mw_name m) name) as [Heq | Hne].
    + rewrite decide_False by discriminate. now rewrite app_nil_r.
    + rewrite decide_True by reflexivity. reflexivity.
  - apply list_filter_filter_l. auto.
  - intros Hall. induction Hall as [| m' ms' Hm' _ IH]; [reflexivity |].
    rewrite filter_cons, decide_True.
    + now rewrite IH.
    + destruct (String.eqb_spec (mw_name m') name); [contradiction | reflexivity].
Qed.

(** [authMiddleware] sets the [Authorization] header of the request over
    whatever the request or the client's defaults held under that name,
    leaves every other header that is sent as it was, and does not change the
    fingerprint: responses cached for one token are found under another. *)
Theorem authMiddleware_sets_the_Authorization_header (client : SmartFetchConfig)
    (token : string) (config : RequestConfig) :
  exists authorized,
    executePre [authMiddleware token] config = Ok authorized
    /\ buildHeaders client authorized !! "Authorization" = Some ("Bearer " +:+ token)
    /\ (forall k, k <> "Authorization" ->
          buildHeaders client authorized !! k = buildHeaders client config !! k)
    /\ generateCacheKey authorized = generateCacheKey config.
Proof.
  eexists. split; [reflexivity |]. unfold buildHeaders.
  cbn [headers body default id].
  set (own := default ∅ (headers config)).
  set (shared := default ∅ (client_headers client)).
  assert (Hct : (<["Authorization" := "Bearer " +:+ token]> own ∪ shared) !! "Content-Type"
                = (own ∪ shared) !! "Content-Type").
  { rewrite !lookup_union, lookup_insert_ne by discriminate. reflexivity. }
  rewrite Hct. repeat apply conj.
  - destruct (_ && _ && _).
    + rewrite lookup_insert_ne by discriminate.
      apply lookup_union_Some_l, lookup_insert_eq.
    + apply lookup_union_Some_l, lookup_insert_eq.
  - intros k Hk. destruct (_ && _ && _).
    + destruct (decide (k = "Content-Type")) as [-> | Hct'].
      * now rewrite !lookup_insert_eq.
      * rewrite !(lookup_insert_ne _ "Content-Type") by congruence.
        rewrite !lookup_union, lookup_insert_ne by congruence. reflexivity.
    + rewrite !lookup_union, lookup_insert_ne by congruence. reflexivity.
  - reflexivity.
Qed.

End Chain.

(** ** GraphQL requests *)

Section GraphQLRequests.
Import Js Utils Client Exec GraphQL.

Lemma JSON_stringify_object_not_empty fields : JSON_stringify (JObj fields) <> "".
Proof. cbn [JSON_stringify]. cbv beta iota fix delta [String.append]. discriminate. Qed.

(** A GraphQL request goes out as a POST to the endpoint with the document
    as its body, serialized once (the body is already a string and is not
    stringified again), and with the content type [application/json] unless
    the caller's headers name another. *)
Theorem graphql_request_is_sent_as_json (client : SmartFetchConfig) (target : string)
    (extra : gmap string string) (request : GraphQLRequest) :
  let config := buildRequest (GraphQLClient_new target extra) request in
  exists options,
    prepare client (mergeRequestConfig client config)
    = Ok (buildURL (baseURL client) target None, options)
    /\ fo_method options = POST
    /\ fo_body options = Some (JSON_stringify (document request))
    /\ fo_headers options !! "Content-Type"
       = Some (default "application/json" (extra !! "Content-Type")).
Proof.
  cbv zeta. unfold prepare.
  cbn [mergeRequestConfig buildRequest GraphQLClient_new url params transformRequest body
       method endpoint defaultHeaders default id].
  assert (Ht : truthy_opt (Some (JStr (JSON_stringify (document request)))) = true).
  { cbn [truthy_opt truthy]. unfold document.
    destruct (String.eqb_spec (JSON_stringify (JObj
      ([("query", JStr (query request))]
       ++ match variables request with Some vs => [("variables", JObj vs)] | None => [] end
       ++ match operationName request with
          | Some n => [("operationName", JStr n)] | None => [] end)%list)) "") as [He | _];
      [now apply JSON_stringify_object_not_empty in He | reflexivity]. }
  rewrite Ht. eexists. split; [reflexivity |]. cbn [fo_method fo_body fo_headers].
  repeat apply conj; try reflexivity.
  unfold buildHeaders. cbn [body headers default id typeof_object andb].
  rewrite andb_false_r. cbn [andb].
  cbn [mergeRequestConfig buildRequest GraphQLClient_new headers defaultHeaders default id].
  rewrite !lookup_union. rewrite lookup_singleton_eq.
  destruct (extra !! "Content-Type") as [ct |]; cbn.
  - now destruct (default ∅ (client_headers client) !! "Content-Type").
  - now destruct (default ∅ (client_headers client) !! "Content-Type").
Qed.

End GraphQLRequests.

(** ** The offline queue *)

Section QueueStore.
Import Js Utils Client Offline OfflineOps.

Lemma has_id_app id (a b : list OfflineQueueEntry) :
  has_id id (a ++ b) = has_id id a || has_id id b.
Proof. apply existsb_app. Qed.

Lemma store_delete_absent id (store : list OfflineQueueEntry) :
  has_id id store = false -> store_delete id store = store.
Proof.
  unfold store_delete, has_id. induction store as [| e store IH]; [reflexivity |].
  cbn [existsb]. intros Hno. apply orb_false_iff in Hno as [He Hno].
  rewrite filter_cons, decide_True by now rewrite He. now rewrite IH.
Qed.

Lemma store_delete_app id (a b : list OfflineQueueEntry) :
  store_delete id (a ++ b) = (store_delete id a ++ store_delete id b)%list.
Proof. apply filter_app. Qed.

Lemma with_store_same (q : OfflineQueue) store :
  with_store (with_store q store) (q_store q) = q.
Proof. now destruct q. Qed.


Lemma process_entry_keeps_the_flags entry (q : OfflineQueue) :
  let q' := snd (fst (process_entry entry q)) in
  q_open q' = q_open q /\ isProcessing q' = isProcessing q /\ listeners q' = listeners q.
Proof.
  cbv zeta. unfold process_entry.
  destruct (notifyListeners (listeners q) (q_store q)) as [[[] | e] started].
  - unfold dequeue. destruct (q_open q) eqn:Hopen; cbn; rewrite ?Hopen; cbn; auto.
  - destruct (q_open q) eqn:Hopen; cbn; [| auto].
    destruct (3 <? _); cbn; auto.
Qed.

Lemma process_entries_keeps_the_flags entries : forall (q : OfflineQueue),
  let q' := snd (fst (process_entries entries q)) in
  q_open q' = q_open q /\ isProcessing q' = isProcessing q /\ listeners q' = listeners q.
Proof.
  induction entries as [| entry rest IH]; intros q; cbv zeta; [cbn; auto |].
  cbn [process_entries].
  pose proof (process_entry_keeps_the_flags entry q) as Hq. cbv zeta in Hq.
  destruct (process_entry entry q) as [[[[] | e] q1] started]; cbn [fst snd] in Hq.
  - specialize (IH q1). cbv zeta in IH.
    destruct (process_entries rest q1) as [[r q2] started']. cbn [fst snd] in *.
    destruct Hq as (Ho & Hp & Hl), IH as (Ho' & Hp' & Hl').
    repeat split; congruence.
  - exact Hq.
Qed.

(** [processQueue] runs one drain at a time and only while online: a call
    made while a drain is running, or while offline, does nothing.  Whatever
    happens in a drain, the flag is lowered when it ends (also when the
    store cannot be read, which rejects the call), so the next call can
    drain again; the listeners are not changed. *)
Theorem processQueue_lowers_its_flag (online : bool) (q : OfflineQueue) :
  (isProcessing q = true \/ online = false -> processQueue online q = (Ok tt, q, []))
  /\ (isProcessing q = false ->
      let q' := snd (fst (processQueue online q)) in
      isProcessing q' = false /\ q_open q' = q_open q /\ listeners q' = listeners q)
  /\ (isProcessing q = false -> online = true -> q_open q = false ->
      processQueue online q = (Err db_unavailable, q, [])).
Proof.
  repeat apply conj.
  - intros [Hp | ->]; unfold processQueue; [now rewrite Hp | now rewrite orb_true_r].
  - intros Hidle. cbv zeta. unfold processQueue. rewrite Hidle. cbn [orb].
    destruct online; cbn [negb]; [| auto].
    unfold getAll. cbn [set_processing q_open].
    destruct (q_open q) eqn:Hopen; cbn [negb]; [| cbn; auto].
    pose proof (process_entries_keeps_the_flags
                  (q_store (set_processing true q)) (set_processing true q)) as Hq.
    cbv zeta in Hq.
    destruct (process_entries _ _) as [[r q1] started]. cbn [fst snd] in *.
    cbn [set_processing q_open isProcessing listeners] in *.
    destruct Hq as (Ho & _ & Hl). repeat split; congruence.
  - intros Hidle -> Hclosed. unfold processQueue. rewrite Hidle. cbn [orb negb].
    unfold getAll. cbn [set_processing q_open]. rewrite Hclosed. cbn [negb].
    destruct q. cbn in *. now subst.
Qed.

Lemma notifyListeners_throws (ls : list Listener) store :
  Exists throws ls ->
  exists e started, notifyListeners ls store = (Err e, started).
Proof.
  induction ls as [| [| e] ls IH]; intros Hex.
  - inversion Hex.
  - apply Exists_cons in Hex as [[] | Hex]. destruct (IH Hex) as (e & started & Hn).
    cbn [notifyListeners]. rewrite Hn. eauto.
  - cbn [notifyListeners]. eauto.
Qed.

Lemma has_id_In entry (store : list OfflineQueueEntry) :
  has_id (oq_id entry) store = false -> ~ In (oq_id entry) (map oq_id store).
Proof.
  unfold has_id. induction store as [| e store IH]; cbn [existsb map]; [tauto |].
  intros Hno. apply orb_false_iff in Hno as [He Hno]. intros [Heq | Hin].
  - rewrite Heq, String.eqb_refl in He. discriminate.
  - now apply IH.
Qed.

Lemma has_id_absent id (store : list OfflineQueueEntry) :
  ~ In id (map oq_id store) -> has_id id store = false.
Proof.
  unfold has_id. induction store as [| e store IH]; cbn [existsb map]; [reflexivity |].
  intros Hno. apply orb_false_iff. split.
  - destruct (String.eqb_spec (oq_id e) id); [| reflexivity]. exfalso. apply Hno. now left.
  - apply IH. intros Hin. apply Hno. now right.
Qed.

Lemma store_put_in_place entry entry' (before after : list OfflineQueueEntry) :
  oq_id entry' = oq_id entry ->
  ~ In (oq_id entry) (map oq_id before) ->
  ~ In (oq_id entry) (map oq_id after) ->
  store_put entry' (before ++ entry :: after) = (before ++ entry' :: after)%list.
Proof.
  intros Hid Hb Ha. unfold store_put. rewrite Hid, has_id_app.
  cbn [has_id existsb]. rewrite String.eqb_refl, orb_true_r.
  rewrite map_app. cbn [map]. rewrite String.eqb_refl. f_equal; [| f_equal].
  - clear Ha. induction before as [| e before IH]; [reflexivity |].
    cbn [map] in *. destruct (String.eqb_spec (oq_id e) (oq_id entry)) as [Heq | _].
    + exfalso. apply Hb. now left.
    + f_equal. apply IH. intros Hin. apply Hb. now right.
  - clear Hb. induction after as [| e after IH]; [reflexivity |].
    cbn [map] in *. destruct (String.eqb_spec (oq_id e) (oq_id entry)) as [Heq | _].
    + exfalso. apply Ha. now left.
    + f_equal. apply IH. intros Hin. apply Ha. now right.
Qed.

Lemma store_delete_in_place entry (before after : list OfflineQueueEntry) :
  ~ In (oq_id entry) (map oq_id before) ->
  ~ In (oq_id entry) (map oq_id after) ->
  store_delete (oq_id entry) (before ++ entry :: after) = (before ++ after)%list.
Proof.
  intros Hb Ha. rewrite store_delete_app.
  rewrite (store_delete_absent _ before) by now apply has_id_absent.
  unfold store_delete at 1. rewrite filter_cons, decide_False.
  - fold (store_delete (oq_id entry) after).
    now rewrite (store_delete_absent _ after) by now apply has_id_absent.
  - rewrite String.eqb_refl. discriminate.
Qed.

Lemma omap_after_failure_cons entry (rest : list OfflineQueueEntry) :
  omap after_failure (entry :: rest)
  = match after_failure entry with
    | Some kept => kept :: omap after_failure rest
    | None => omap after_failure rest
    end.
Proof. reflexivity. Qed.

Lemma failed_entries (todo : list OfflineQueueEntry) : forall (q : OfflineQueue) before,
  q_open q = true ->
  Exists throws (listeners q) ->
  q_store q = (before ++ todo)%list ->
  List.NoDup (map oq_id (before ++ todo)) ->
  exists started,
    process_entries todo q = (Ok tt, with_store q (before ++ omap after_failure todo), started).
Proof.
  induction todo as [| entry rest IH]; intros q before Hopen Hthrows Hstore Hnd.
  - exists []. rewrite app_nil_r in Hstore. cbn [process_entries].
    change (omap after_failure []) with (@nil OfflineQueueEntry).
    rewrite app_nil_r, <- Hstore. now destruct q.
  - cbn [process_entries]. unfold process_entry.
    destruct (notifyListeners_throws (listeners q) (q_store q) Hthrows) as (e & started & ->).
    rewrite Hopen. cbn [negb].
    rewrite map_app in Hnd. cbn [map] in Hnd.
    assert (Hb : ~ In (oq_id entry) (map oq_id before)).
    { intros Hin. apply List.NoDup_remove_2 in Hnd. apply Hnd. apply in_or_app. now left. }
    assert (Ha : ~ In (oq_id entry) (map oq_id rest)).
    { intros Hin. apply List.NoDup_remove_2 in Hnd. apply Hnd. apply in_or_app. now right. }
    rewrite omap_after_failure_cons. unfold after_failure at 1. cbn [oq_retryCount].
    destruct (3 <? oq_retryCount entry + 1) eqn:Hgone.
    + rewrite Hstore, store_delete_in_place by assumption.
      destruct (IH (with_store q (before ++ rest)) before) as (started' & Hrest);
        [exact Hopen | exact Hthrows | reflexivity | |].
      { apply List.NoDup_remove_1 in Hnd. now rewrite map_app. }
      rewrite Hrest. eexists. destruct q; reflexivity.
    + rewrite Hstore.
      rewrite (store_put_in_place entry) by (try reflexivity; assumption).
      set (entry' := {| oq_id := oq_id entry; oq_config := oq_config entry;
                        oq_timestamp := oq_timestamp entry;
                        oq_retryCount := oq_retryCount entry + 1 |}).
      destruct (IH (with_store q (before ++ entry' :: rest)) (before ++ [entry'])%list)
        as (started' & Hrest); [exact Hopen | exact Hthrows | | |].
      { cbn [with_store q_store]. now rewrite <- app_assoc. }
      { rewrite <- app_assoc, map_app. exact Hnd. }
      rewrite Hrest. eexists. rewrite <- app_assoc. destruct q; reflexivity.
Qed.

(** A drain in which a listener throws dequeues nothing: every stored entry
    has its retry counter incremented and is written back in its place, and
    the entries whose counter thereby exceeds 3 are removed.  The call still
    resolves. *)
Theorem failed_drain_counts_retries (q : OfflineQueue) :
  q_open q = true ->
  isProcessing q = false ->
  Exists throws (listeners q) ->
  List.NoDup (map oq_id (q_store q)) ->
  exists started,
    processQueue true q = (Ok tt, with_store q (omap after_failure (q_store q)), started).
Proof.
  intros Hopen Hidle Hthrows Hnd. unfold processQueue. rewrite Hidle. cbn [orb negb].
  unfold getAll. cbn [set_processing q_open q_store]. rewrite Hopen. cbn [negb].
  destruct (failed_entries (q_store q) (set_processing true q) [])
    as (started & Hrest); [exact Hopen | exact Hthrows | reflexivity | exact Hnd |].
  cbn [set_processing q_store] in Hrest. rewrite Hrest. exists started.
  destruct q. cbn in *. now subst.
Qed.

End QueueStore.

Section QueueInstances.
Import Js Utils Client Offline OfflineOps Samples MoreSamples.


Lemma failed_drain_counts_retries_witness :
  exists started,
    processQueue true failing_queue
    = (Ok tt, with_store failing_queue [queued "a" 1], started).
Proof.
  apply (failed_drain_counts_retries failing_queue).
  - reflexivity.
  - reflexivity.
  - left. exact I.
  - repeat constructor; cbn; intuition discriminate.
Defined.

End QueueInstances.

